(** * cronx: cron schedule parsing and forward search

    A shallow embedding of [schedule.go] and [option.go] of the [cronx]
    package, followed by the properties of the parser, of the day-match
    predicate, of the forward search [NextFrom] and of the runtime's
    [Stop] operation.

    Conventions of the embedding:
    - a Go [int] is a [Z] in [-2^63, 2^63); every operation that can
      overflow is wrapped by [GoInt.wrap];
    - a [uint64] mask is a [Z] in [0, 2^64);
    - a Go [string] is a byte string ([string] of 8-bit [ascii]);
    - a Go [map[string]int] is a [gmap string Z], the [nil] map is [None];
    - a function returning [(T, error)] returns a [result T];
    - an unbounded Go loop is run with fuel. *)

From stdpp Require Import gmap strings.
From Stdlib Require Import ZArith Lia Ascii Bool.
From Stdlib Require String.

Open Scope Z_scope.

(** ** Go's [int], [uint64] and [math/bits] *)

Module GoInt.

Definition MaxInt : Z := 2 ^ 63 - 1.
Definition MinInt : Z := - 2 ^ 63.

(** Two's complement wrap-around of a 64-bit signed result. *)
Definition wrap (z : Z) : Z := (z + 2 ^ 63) mod 2 ^ 64 - 2 ^ 63.

(** The conversion [uint(z)] of an [int]. *)
Definition uint (z : Z) : Z := z mod 2 ^ 64.

(** [1 << uint(k)] at type [uint64]: a count of 64 or more gives 0. *)
Definition shl1 (k : Z) : Z :=
  if uint k <? 64 then Z.shiftl 1 (uint k) else 0.

(** [x >> uint(k)] at type [uint64]. *)
Definition shr (x k : Z) : Z :=
  if uint k <? 64 then Z.shiftr x (uint k) else 0.

Fixpoint tzFrom (n : nat) (i x : Z) : Z :=
  match n with
  | O => i
  | S n' => if Z.testbit x i then i else tzFrom n' (i + 1) x
  end.

(** [bits.TrailingZeros64]: 64 for the zero word. *)
Definition TrailingZeros64 (x : Z) : Z := tzFrom 64 0 x.

End GoInt.

(** ** The part of Go's [strings] package that the parser calls

    White space and letter case are those of ASCII: on text that is not
    ASCII Go's [TrimSpace], [Fields] and [ToLower] also know the Unicode
    spaces and letters, which this model does not. *)

Module GoStrings.

Definition isSpace (c : ascii) : bool :=
  match c with
  | "009" | "010" | "011" | "012" | "013" | " " => true
  | _ => false
  end%char.

Definition byte (c : ascii) : Z := Z.of_N (N_of_ascii c).

Fixpoint isASCII (s : string) : bool :=
  match s with
  | "" => true
  | String c s' => (byte c <? 128) && isASCII s'
  end.

Fixpoint TrimLeft (s : string) : string :=
  match s with
  | "" => ""
  | String c s' => if isSpace c then TrimLeft s' else s
  end.

Fixpoint TrimRight (s : string) : string :=
  match s with
  | "" => ""
  | String c s' =>
      match TrimRight s' with
      | "" => if isSpace c then "" else String c ""
      | r => String c r
      end
  end.

Definition TrimSpace (s : string) : string := TrimRight (TrimLeft s).

(** [strings.Fields]: the maximal runs of bytes that are not white space. *)
Fixpoint fieldsFrom (cur : option string) (s : string) : list string :=
  match s with
  | "" => match cur with Some w => [String.rev w] | None => [] end
  | String c s' =>
      if isSpace c
      then match cur with
           | Some w => String.rev w :: fieldsFrom None s'
           | None => fieldsFrom None s'
           end
      else fieldsFrom (Some (String c (default "" cur))) s'
  end.

Definition Fields (s : string) : list string := fieldsFrom None s.

(** [strings.Split(s, sep)] for a separator of one byte. *)
Fixpoint Split (s : string) (sep : ascii) : list string :=
  match s with
  | "" => [""]
  | String c s' =>
      if Ascii.eqb c sep then "" :: Split s' sep
      else match Split s' sep with
           | h :: t => String c h :: t
           | [] => [String c ""]
           end
  end.

(** [strings.IndexByte]: [None] stands for the result -1. *)
Fixpoint IndexByte (s : string) (c : ascii) : option nat :=
  match s with
  | "" => None
  | String d s' => if Ascii.eqb d c then Some O else S <$> IndexByte s' c
  end.

(** The slices [s[:n]] and [s[n:]]. *)
Fixpoint sliceTo (n : nat) (s : string) : string :=
  match n, s with
  | S n', String c s' => String c (sliceTo n' s')
  | _, _ => ""
  end.

Fixpoint sliceFrom (n : nat) (s : string) : string :=
  match n, s with
  | S n', String _ s' => sliceFrom n' s'
  | _, _ => s
  end.

Definition HasPrefix (s p : string) : bool := String.prefix p s.

(** [strings.Contains] and [strings.ReplaceAll] for patterns of one byte. *)
Fixpoint Contains (s : string) (c : ascii) : bool :=
  match s with
  | "" => false
  | String d s' => Ascii.eqb d c || Contains s' c
  end.

Fixpoint ReplaceAll (s : string) (old new : ascii) : string :=
  match s with
  | "" => ""
  | String d s' =>
      String (if Ascii.eqb d old then new else d) (ReplaceAll s' old new)
  end.

Definition lower (c : ascii) : ascii :=
  let b := byte c in
  if (65 <=? b) && (b <=? 90) then ascii_of_N (Z.to_N (b + 32)) else c.

Fixpoint ToLower (s : string) : string :=
  match s with
  | "" => ""
  | String c s' => String (lower c) (ToLower s')
  end.

End GoStrings.

Import GoInt GoStrings.

(** ** Errors and results *)

(** One constructor per [errors.New] / [fmt.Errorf] of the package, with
    the values that the message formats. *)
Inductive error : Type :=
| EmptyField
| InvalidStep (field : string)
| EmptyListAtom (field : string)
| InvalidStepIn (p : string)
| OutOfBounds (min max lo hi : Z)
| EmptyNumber
| InvalidNumber (s : string)
| Expected5 (got : nat)
| Expected5or6 (got : nat)
| Wrapped (ctx : string) (e : error).

(** [Diverges] is the outcome of a call in which a Go loop never exits,
    [Panics] that of a call that panics. *)
Inductive result (A : Type) : Type :=
| Ok (a : A)
| Err (e : error)
| Diverges
| Panics.

Arguments Ok {A} a.
Arguments Err {A} e.
Arguments Diverges {A}.
Arguments Panics {A}.

#[global] Instance result_ret : MRet result := fun A a => Ok a.

#[global] Instance result_bind : MBind result := fun A B k r =>
  match r with
  | Ok a => k a
  | Err e => Err e
  | Diverges => Diverges
  | Panics => Panics
  end.

Definition wrapErr {A : Type} (ctx : string) (r : result A) : result A :=
  match r with
  | Ok a => Ok a
  | Err e => Err (Wrapped ctx e)
  | Diverges => Diverges
  | Panics => Panics
  end.

Definition isErr {A : Type} (r : result A) : bool :=
  match r with Err _ => true | _ => false end.

(** ** Schedule and parsing *)

Record Schedule : Type := mkSchedule {
  Second : Z;
  Minute : Z;
  Hour : Z;
  Dom : Z;
  Month : Z;
  Dow : Z;
  domStar : bool;
  dowStar : bool
}.

(** The loop [for v := lo; v <= hi; v += step { m |= 1 << uint(v-min) }],
    which the package writes three times.  One pass of the loop either
    leaves it or goes on with the next [v] and [m]. *)
Inductive loopState : Type :=
| Exit (m : Z)
| Again (v m : Z).

Definition maskStep (min hi step v m : Z) : loopState :=
  if v <=? hi
  then Again (wrap (v + step)) (Z.lor m (shl1 (wrap (v - min))))
  else Exit m.

(** [maskIter p] runs up to [p] passes; the fuel is binary so that 2^64
    passes, the number of values of [v], can be granted. *)
Fixpoint maskIter (p : positive) (min hi step v m : Z) : loopState :=
  match p with
  | xH => maskStep min hi step v m
  | xO p' =>
      match maskIter p' min hi step v m with
      | Exit r => Exit r
      | Again v' m' => maskIter p' min hi step v' m'
      end
  | xI p' =>
      match maskStep min hi step v m with
      | Exit r => Exit r
      | Again v1 m1 =>
          match maskIter p' min hi step v1 m1 with
          | Exit r => Exit r
          | Again v' m' => maskIter p' min hi step v' m'
          end
      end
  end.

Definition maskLoop (min hi step lo m : Z) : result Z :=
  match maskIter (2 ^ 64)%positive min hi step lo m with
  | Exit r => Ok r
  | Again _ _ => Diverges
  end.

Definition mustMask (min max : Z) : result Z := maskLoop min max 1 min 0.

Fixpoint digitsLoop (s : string) (n : Z) : option Z :=
  match s with
  | "" => Some n
  | String c s' =>
      if (byte c <? 48) || (57 <? byte c) then None
      else digitsLoop s' (wrap (n * 10 + (byte c - 48)))
  end.

Definition lookupName (names : option (gmap string Z)) (s : string) : option Z :=
  match names with
  | Some tbl => tbl !! ToLower s
  | None => None
  end.

Definition parseNumber (s : string) (names : option (gmap string Z)) : result Z :=
  let s := TrimSpace s in
  match lookupName names s with
  | Some v => Ok v
  | None =>
      if String.eqb s "" then Err EmptyNumber
      else match digitsLoop s 0 with
           | Some n => Ok n
           | None => Err (InvalidNumber s)
           end
  end.

(** The step of a list atom: the text before the slash and the step. *)
Definition atomStep (p : string) (names : option (gmap string Z)) : result (string * Z) :=
  match IndexByte p "/" with
  | Some slash =>
      match parseNumber (sliceFrom (S slash) p) names with
      | Ok st => if st <=? 0 then Err (InvalidStepIn p) else Ok (sliceTo slash p, st)
      | Err _ => Err (InvalidStepIn p)
      | Diverges => Diverges
      | Panics => Panics
      end
  | None => Ok (p, 1)
  end.

Definition atomRange (rng : string) (names : option (gmap string Z)) : result (Z * Z) :=
  match IndexByte rng "-" with
  | Some dash =>
      v1 ← parseNumber (sliceTo dash rng) names;
      v2 ← parseNumber (sliceFrom (S dash) rng) names;
      Ok (v1, v2)
  | None =>
      v ← parseNumber rng names;
      Ok (v, v)
  end.

(** The body of the loop over the list atoms: from the mask [m] built so
    far to the mask after the atom [p]. *)
Definition parseAtom (field : string) (min max : Z) (names : option (gmap string Z))
    (p : string) (m : Z) : result Z :=
  let p := TrimSpace p in
  if String.eqb p "" then Err (EmptyListAtom field)
  else
    '(rng, step) ← atomStep p names;
    '(lo, hi) ← atomRange rng names;
    if (lo <? min) || (max <? hi) || (hi <? lo) then Err (OutOfBounds min max lo hi)
    else maskLoop min hi step lo m.

Fixpoint parseList (field : string) (min max : Z) (names : option (gmap string Z))
    (parts : list string) (m : Z) : result Z :=
  match parts with
  | [] => Ok m
  | p :: rest =>
      m' ← parseAtom field min max names p m;
      parseList field min max names rest m'
  end.

Definition parseField (field : string) (min max : Z) (names : option (gmap string Z))
    : result (Z * bool) :=
  let field := TrimSpace field in
  if String.eqb field "" then Err EmptyField
  else
    let field := if String.eqb field "?" then "*" else field in
    if String.eqb field "*" then
      m ← mustMask min max; Ok (m, true)
    else if HasPrefix field "*/" then
      match parseNumber (sliceFrom 2 field) names with
      | Ok step =>
          if step <=? 0 then Err (InvalidStep field)
          else m ← maskLoop min max step min 0; Ok (m, false)
      | Err _ => Err (InvalidStep field)
      | Diverges => Diverges
      | Panics => Panics
      end
    else
      m ← parseList field min max names (Split field ",") 0;
      Ok (m, false).

Definition monNames : gmap string Z :=
  list_to_map
    [("jan", 1); ("feb", 2); ("mar", 3); ("apr", 4); ("may", 5); ("jun", 6);
     ("jul", 7); ("aug", 8); ("sep", 9); ("oct", 10); ("nov", 11); ("dec", 12)].

Definition dowNames : gmap string Z :=
  list_to_map
    [("sun", 0); ("mon", 1); ("tue", 2); ("wed", 3); ("thu", 4); ("fri", 5);
     ("sat", 6)].

(** The rewrite of the raw day-of-week text. *)
Definition dowRaw (raw : string) : string :=
  if Contains raw "7" then ReplaceAll raw "7" "0" else raw.

(** [parseWithSeconds] reads [f[0]] to [f[5]]; a shorter slice would
    panic, and [ParseSpec] never passes one. *)
Definition parseWithSeconds (f : list string) : result Schedule :=
  match f with
  | f0 :: f1 :: f2 :: f3 :: f4 :: f5 :: _ =>
      '(sec, _) ← wrapErr "sec" (parseField f0 0 59 None);
      '(minute, _) ← wrapErr "minute" (parseField f1 0 59 None);
      '(hour, _) ← wrapErr "hour" (parseField f2 0 23 None);
      '(dom, star1) ← wrapErr "dom" (parseField f3 1 31 None);
      '(month, _) ← wrapErr "month" (parseField f4 1 12 (Some monNames));
      '(dow, star2) ← wrapErr "dow" (parseField (dowRaw f5) 0 6 (Some dowNames));
      Ok (mkSchedule sec minute hour dom month dow star1 star2)
  | _ => Panics
  end.

Definition ParseSpec (spec : string) (withSeconds : bool) : result Schedule :=
  let fields := Fields spec in
  if negb withSeconds && negb (length fields =? 5)%nat
  then Err (Expected5 (length fields))
  else
    let fields :=
      if withSeconds && (length fields =? 5)%nat then fields ++ ["*"] else fields in
    let fields :=
      if negb withSeconds && (length fields =? 5)%nat then "*" :: fields else fields in
    if negb (length fields =? 6)%nat
    then Err (Expected5or6 (length fields))
    else parseWithSeconds fields.

(** ** Go's [time] package in the location UTC

    An instant is its number of nanoseconds since the Unix epoch; the
    calendar is the proleptic Gregorian one.  Every [Time] of this model
    is in UTC, so [t.Location()] and [t.In(loc)] do not appear. *)

Module GoTime.

Definition Time : Type := Z.
Definition Duration : Type := Z.

Definition Nanosecond : Duration := 1.
Definition Second : Duration := 1000000000.
Definition Minute : Duration := 60 * Second.
Definition Hour : Duration := 60 * Minute.

Definition Add (t : Time) (d : Duration) : Time := t + d.

(** [t.Truncate(d)] for a positive [d] that divides a day. *)
Definition Truncate (t : Time) (d : Duration) : Time := t - t mod d.

Definition unix (t : Time) : Z := t / Second.
Definition nsecOf (t : Time) : Z := t mod Second.

(** Days since the epoch of the first of month [m] of year [y], plus
    [d - 1]. *)
Definition daysFromCivil (y m d : Z) : Z :=
  let y' := if m <=? 2 then y - 1 else y in
  let era := y' / 400 in
  let yoe := y' - era * 400 in
  let mp := if 2 <? m then m - 3 else m + 9 in
  let doy := (153 * mp + 2) / 5 + d - 1 in
  let doe := yoe * 365 + yoe / 4 - yoe / 100 + doy in
  era * 146097 + doe - 719468.

Definition civilFromDays (n : Z) : Z * Z * Z :=
  let z := n + 719468 in
  let era := z / 146097 in
  let doe := z - era * 146097 in
  let yoe := (doe - doe / 1460 + doe / 36524 - doe / 146096) / 365 in
  let y := yoe + era * 400 in
  let doy := doe - (365 * yoe + yoe / 4 - yoe / 100) in
  let mp := (5 * doy + 2) / 153 in
  let d := doy - (153 * mp + 2) / 5 + 1 in
  let m := if mp <? 10 then mp + 3 else mp - 9 in
  (if m <=? 2 then y + 1 else y, m, d).

(** [time.Date(y, mon, d, h, mi, s, ns, time.UTC)]: a month outside
    1..12 is carried into the year, the other fields are added up. *)
Definition Date (y mon d h mi s ns : Z) : Time :=
  let y' := y + (mon - 1) / 12 in
  let m' := (mon - 1) mod 12 + 1 in
  ((daysFromCivil y' m' 1 + (d - 1)) * 86400 + h * 3600 + mi * 60 + s) * Second + ns.

(** [t.Date()], [t.Hour()], [t.Minute()], [t.Second()], [t.Weekday()]. *)
Definition dateOf (t : Time) : Z * Z * Z := civilFromDays (unix t / 86400).
Definition dayOf (t : Time) : Z := snd (dateOf t).
Definition hourOf (t : Time) : Z := (unix t mod 86400) / 3600.
Definition minuteOf (t : Time) : Z := (unix t mod 3600) / 60.
Definition secondOf (t : Time) : Z := unix t mod 60.
Definition weekdayOf (t : Time) : Z := (unix t / 86400 + 4) mod 7.

Definition AddDate (t : Time) (years months days : Z) : Time :=
  let '(y, m, d) := dateOf t in
  Date (y + years) (m + months) (d + days)
       (hourOf t) (minuteOf t) (secondOf t) (nsecOf t).

(** The zero [Time], January 1 of year 1. *)
Definition zeroTime : Time := Date 1 1 1 0 0 0 0.
Definition IsZero (t : Time) : bool := t =? zeroTime.

End GoTime.

Abbreviation Time := GoTime.Time.

(** ** Matching and [NextFrom] *)

Definition dayMatches (s : Schedule) (t : Time) : bool :=
  let domOk := negb (Z.land (shr (Dom s) (GoTime.dayOf t - 1)) 1 =? 0) in
  let dowOk := negb (Z.land (shr (Dow s) (GoTime.weekdayOf t)) 1 =? 0) in
  if negb (domStar s) && negb (dowStar s) then domOk || dowOk
  else if negb (domStar s) && negb domOk then false
  else if negb (dowStar s) && negb dowOk then false
  else true.

Definition nextAllowed (mask cur min max : Z) : Z * bool :=
  if mask =? 0 then (min, true)
  else
    let cur := if cur <? min then min else cur in
    let rel := wrap (cur - min) in
    let shifted := shr mask rel in
    if negb (shifted =? 0)
    then (wrap (cur + TrailingZeros64 shifted), false)
    else (wrap (min + TrailingZeros64 mask), true).

(** One pass of the [for] loop of [NextFrom]: the next candidate, or the
    instant returned. *)
Inductive searchState : Type :=
| Continue (ts : Time)
| Return (r : Time).

Definition bitUnset (mask k : Z) : bool := Z.land (shr mask k) 1 =? 0.

Definition searchStep (s : Schedule) (withSeconds : bool) (ts : Time) : searchState :=
  let '(y, m, d) := GoTime.dateOf ts in
  let mon := m in
  let unit := if withSeconds then GoTime.Second else GoTime.Minute in
  if bitUnset (Month s) (mon - 1) then
    let '(nextMon, wrp) := nextAllowed (Month s) mon 1 12 in
    let y := if wrp then wrap (y + 1) else y in
    Continue (GoTime.Add (GoTime.Date y nextMon 1 0 0 0 0) unit)
  else if negb (dayMatches s ts) then
    Continue (GoTime.Add (GoTime.AddDate (GoTime.Date y m d 0 0 0 0) 0 0 1) unit)
  else
    let h := GoTime.hourOf ts in
    if bitUnset (Hour s) h then
      let '(nextH, wrapH) := nextAllowed (Hour s) h 0 23 in
      let ts :=
        if wrapH then GoTime.AddDate (GoTime.Date y m d 0 0 0 0) 0 0 1
        else GoTime.Date y m d nextH 0 0 0 in
      Continue (GoTime.Add ts unit)
    else
      let fieldMin := GoTime.minuteOf ts in
      if bitUnset (Minute s) fieldMin then
        let '(nextM, wrapM) := nextAllowed (Minute s) fieldMin 0 59 in
        let ts :=
          if wrapM then GoTime.Add (GoTime.Date y m d h 0 0 0) GoTime.Hour
          else GoTime.Date y m d h nextM 0 0 in
        if withSeconds then Continue (GoTime.Add ts GoTime.Second)
        else Return ts
      else if withSeconds then
        let sec := GoTime.secondOf ts in
        if bitUnset (Second s) sec then
          let '(nextS, wrapS) := nextAllowed (Second s) sec 0 59 in
          if wrapS
          then Continue (GoTime.Add (GoTime.Date y m d h fieldMin 0 0) GoTime.Minute)
          else Return (GoTime.Date y m d h fieldMin nextS 0)
        else Return ts
      else Return (GoTime.Date y m d h fieldMin 0 0).

(** The [for] loop, for at most [fuel] passes. *)
Fixpoint searchLoop (fuel : nat) (s : Schedule) (withSeconds : bool) (ts : Time)
    : option Time :=
  match fuel with
  | O => None
  | S fuel' =>
      match searchStep s withSeconds ts with
      | Return r => Some r
      | Continue ts' => searchLoop fuel' s withSeconds ts'
      end
  end.

(** [s.NextFrom(t, withSeconds)], [None] when the loop has not returned
    within [fuel] passes. *)
Definition NextFrom (fuel : nat) (s : Schedule) (t : Time) (withSeconds : bool)
    : option Time :=
  let unit := if withSeconds then GoTime.Second else GoTime.Minute in
  searchLoop fuel s withSeconds (GoTime.Add (GoTime.Truncate t unit) unit).

(** ** The runtime

    A channel is its capacity, its queue and whether it was closed; a
    [*time.Location] is its name.  [Stop] holds the mutex of the [Cron]
    from its first to its last statement, so a call is one atomic
    transition of the record. *)

Record chan (A : Type) : Type := mkChan {
  cap : Z;
  queue : list A;
  closed : bool
}.

Arguments mkChan {A} cap queue closed.
Arguments cap {A} c.
Arguments queue {A} c.
Arguments closed {A} c.

Definition make (A : Type) (n : Z) : chan A := mkChan n [] false.

(** [close(ch)] panics on a closed channel. *)
Definition close {A : Type} (ch : chan A) : option (chan A) :=
  if closed ch then None else Some (mkChan (cap ch) (queue ch) true).

Definition Location : Type := string.
Definition Local : Location := "Local".

Record Cron : Type := mkCron {
  c : chan Time;
  loc : Location;
  buf : Z;
  from : Time;
  withSeconds : bool;
  sched : Schedule;
  stop : chan unit;
  stopped : bool
}.

(** The options of [option.go]: an [Option] is one of the four closures
    that the package builds, and [applyOption] runs it on the [Cron]. *)
Inductive Option : Type :=
| WithLocation (l : Location)
| WithBuffered (n : Z)
| WithStartFrom (t : Time)
| WithSeconds.

Definition applyOption (opt : Option) (x : Cron) : Cron :=
  match opt with
  | WithLocation l =>
      mkCron (c x) l (buf x) (from x) (withSeconds x) (sched x) (stop x) (stopped x)
  | WithBuffered n =>
      let n := if n <? 0 then 0 else n in
      mkCron (c x) (loc x) n (from x) (withSeconds x) (sched x) (stop x) (stopped x)
  | WithStartFrom t =>
      mkCron (c x) (loc x) (buf x) t (withSeconds x) (sched x) (stop x) (stopped x)
  | WithSeconds =>
      mkCron (c x) (loc x) (buf x) (from x) true (sched x) (stop x) (stopped x)
  end.

(** [NewSchedule(s, opts...)], with the value [now] of [time.Now()].  The
    goroutine started by [go c.run()] does not take part in the value
    returned. *)
Definition NewSchedule (s : Schedule) (opts : list Option) (now : Time) : result Cron :=
  let x := mkCron (make Time 0) Local 1 GoTime.zeroTime false s (make unit 0) false in
  let x := foldl (fun x opt => applyOption opt x) x opts in
  let start := if GoTime.IsZero (from x) then now else from x in
  let ch := make Time (buf x) in
  Ok (mkCron ch (loc x) (buf x) start (withSeconds x) (sched x) (stop x) (stopped x)).

(** [New(spec, opts...)]. *)
Definition New (spec : string) (opts : list Option) (now : Time) : result Cron :=
  let tmp := mkCron (make Time 0) Local 1 GoTime.zeroTime false
                    (mkSchedule 0 0 0 0 0 0 false false) (make unit 0) false in
  let tmp := foldl (fun x opt => applyOption opt x) tmp opts in
  s ← ParseSpec spec (withSeconds tmp);
  NewSchedule s opts now.

(** [c.Stop()]: the new state and the boolean returned, [None] for a
    panic. *)
Definition Stop (x : Cron) : option (Cron * bool) :=
  if stopped x then Some (x, false)
  else
    ch ← close (stop x);
    Some (mkCron (c x) (loc x) (buf x) (from x) (withSeconds x) (sched x) ch true, true).

(** [c.Next(from)]. *)
Definition Next (fuel : nat) (x : Cron) (t : Time) : option Time :=
  NextFrom fuel (sched x) t (withSeconds x).

(** The calls made on one [Cron] after its construction. *)
Inductive call : Type :=
| CallStop
| CallNext (fuel : nat) (t : Time).

(** The state after a call and the boolean that a [Stop] returned. *)
Definition runCall (x : Cron) (k : call) : option (Cron * option bool) :=
  match k with
  | CallStop => '(x', b) ← Stop x; Some (x', Some b)
  | CallNext _ _ => Some (x, None)
  end.

Fixpoint runCalls (x : Cron) (ks : list call) : option (Cron * list (option bool)) :=
  match ks with
  | [] => Some (x, [])
  | k :: ks' =>
      '(x', b) ← runCall x k;
      '(x'', bs) ← runCalls x' ks';
      Some (x'', b :: bs)
  end.

(** The schedule of the test [TestOption_WithSeconds]. *)
Definition fiveSecondsSchedule : Schedule :=
  mkSchedule (2 ^ 5) 1 (2 ^ 12) (2 ^ 14) (2 ^ 5) 127 false true.

(** The booleans returned by the [Stop] calls among a run of calls. *)
Definition stopReturns (bs : list (option bool)) : list bool :=
  omap id bs.

(** The schedule of ["0 12 15 6 *"] parsed without seconds, and the one
    parsed with seconds. *)
Definition noonSchedule : Schedule :=
  mkSchedule (Z.ones 60) 1 (2 ^ 12) (2 ^ 14) (2 ^ 5) 127 false true.

Definition noonScheduleWithSeconds : Schedule :=
  mkSchedule 1 (2 ^ 12) (2 ^ 15) (2 ^ 5) (Z.ones 12) 127 false true.

(** The instants that a schedule allows, as the specification words it:
    the month, hour and minute bits are set, the day matches, and the
    second bit is set (second resolution) or the second is zero (minute
    resolution). *)
Definition fieldsMatch (s : Schedule) (withSeconds : bool) (t : Time) : bool :=
  let '(_, m, _) := GoTime.dateOf t in
  Z.testbit (Month s) (m - 1)
  && dayMatches s t
  && Z.testbit (Hour s) (GoTime.hourOf t)
  && Z.testbit (Minute s) (GoTime.minuteOf t)
  && (if withSeconds then Z.testbit (Second s) (GoTime.secondOf t)
      else GoTime.secondOf t =? 0)
  && (GoTime.nsecOf t =? 0).

(** The schedule of ["0 0 * * * *"] parsed with seconds: every full hour. *)
Definition hourlySchedule : Schedule :=
  mkSchedule (Z.ones 1) (Z.ones 1) (Z.ones 24) (Z.ones 31) (Z.ones 12) (Z.ones 7)
             true true.

(** A candidate that is not on a full hour. *)
Definition offHour (ts : Time) : Prop :=
  GoTime.minuteOf ts <> 0 \/ GoTime.secondOf ts <> 0.

(** The list atoms of a field, each trimmed the way [parseField] trims
    it before it reads it. *)
Definition atoms (field : string) : list string :=
  TrimSpace <$> Split field ",".

(** The mask loop with unary fuel, for the proofs: [maskRun n] makes [n]
    passes. *)
Fixpoint maskRun (n : nat) (min hi step v m : Z) : loopState :=
  match n with
  | O => Again v m
  | S n' =>
      match maskStep min hi step v m with
      | Exit r => Exit r
      | Again v' m' => maskRun n' min hi step v' m'
      end
  end.

(** Bit [i] of the mask that the loop from [v] builds when nothing
    overflows: value [min + i] is among [v], [v + step], ... up to [hi]. *)
Definition stepBit (min hi step v i : Z) : bool :=
  (v - min <=? i) && (i <=? hi - min) && ((i - (v - min)) mod step =? 0).

(** "Every [n]-th value starting at [min], through [max]", as a property
    of a mask: bit [i], the value [min + i], is set exactly when the
    value is at most [max] and [i] is a multiple of [n]. *)
Definition everyNth (min max n m : Z) : Prop :=
  forall i, Z.testbit m i = true <-> 0 <= i <= max - min /\ i mod n = 0.

Definition mapMask (f : Z -> Z) (st : loopState) : loopState :=
  match st with
  | Exit r => Exit (f r)
  | Again v m => Again v (f m)
  end.

Definition isDigit (ch : ascii) : bool := (48 <=? byte ch) && (byte ch <=? 57).

Definition isLetter (ch : ascii) : bool :=
  ((65 <=? byte ch) && (byte ch <=? 90)) || ((97 <=? byte ch) && (byte ch <=? 122)).

Fixpoint allOf (f : ascii -> bool) (s : string) : bool :=
  match s with
  | "" => true
  | String ch s' => f ch && allOf f s'
  end.

(** The value of an unsigned decimal numeral, without any bound; [None]
    for the empty string and for a string with a byte that is no digit. *)
Fixpoint decimalFrom (s : string) (n : Z) : option Z :=
  match s with
  | "" => Some n
  | String ch s' =>
      if isDigit ch then decimalFrom s' (n * 10 + (byte ch - 48)) else None
  end.

Definition decimal (s : string) : option Z :=
  match s with
  | "" => None
  | _ => decimalFrom s 0
  end.

(** The name tables that [parseWithSeconds] passes to [parseField]. *)
Definition nameTable (names : option (gmap string Z)) : Prop :=
  names = None \/ names = Some monNames \/ names = Some dowNames.

(** The field domains of [parseWithSeconds], each with its name table. *)
Definition fieldDomain (min max : Z) (names : option (gmap string Z)) : Prop :=
  (min, max, names) = (0, 59, None)
  \/ (min, max, names) = (0, 23, None)
  \/ (min, max, names) = (1, 31, None)
  \/ (min, max, names) = (1, 12, Some monNames)
  \/ (min, max, names) = (0, 6, Some dowNames).

(** The schedules of ["0 0 */1 * 1"] and of ["0 0 * * 1"] parsed without
    seconds: midnight of every Monday, with the day of the month written
    ["*/1"] and ["*"]. *)
Definition mondayStepSchedule : Schedule :=
  mkSchedule (Z.ones 60) 1 1 (Z.ones 31) (Z.ones 12) 2 false false.

Definition mondaySchedule : Schedule :=
  mkSchedule (Z.ones 60) 1 1 (Z.ones 31) (Z.ones 12) 2 true false.

(** The mask of one list atom on its own. *)
Definition atomMask (min max : Z) (names : option (gmap string Z)) (p : string)
    : result Z :=
  parseAtom "" min max names p 0.

Definition orAll (ms : list Z) : Z := foldr Z.lor 0 ms.

(** The call returned, with a value or with an error. *)
Definition returned {A : Type} (r : result A) : bool :=
  match r with
  | Ok _ | Err _ => true
  | Diverges | Panics => false
  end.

(** The schedule of ["0 0 * * 0"] parsed without seconds: midnight of
    every Sunday. *)
Definition sundaySchedule : Schedule :=
  mkSchedule (Z.ones 60) 1 1 (Z.ones 31) (Z.ones 12) 1 true false.

(** The text of a list atom: a first token, then (for a range) a dash
    and a second token, then (for a step) a slash and a step token. *)
Definition atomText (a : string) (b c : option string) : string :=
  (a +:+ match b with Some b => String "-" b | None => "" end)
  +:+ match c with Some c => String "/" c | None => "" end.

(** The second token of an atom stands for [hi]; without it [hi] is
    [lo]. *)
Definition rangeToken (names : option (gmap string Z)) (b : option string)
    (lo hi : Z) : Prop :=
  match b with
  | Some b => parseNumber b names = Ok hi
  | None => hi = lo
  end.

(** The step token of an atom stands for [step]; without it the step is
    1. *)
Definition stepToken (names : option (gmap string Z)) (c : option string)
    (step : Z) : Prop :=
  match c with
  | Some c => parseNumber c names = Ok step
  | None => step = 1
  end.

(** The masks of a schedule lie within their field domains and none is
    empty; a day field flagged as a wildcard has the full mask. *)
Definition wellFormed (s : Schedule) : Prop :=
  0 < Second s < 2 ^ 60
  /\ 0 < Minute s < 2 ^ 60
  /\ 0 < Hour s < 2 ^ 24
  /\ 0 < Dom s < 2 ^ 31
  /\ 0 < Month s < 2 ^ 12
  /\ 0 < Dow s < 2 ^ 7
  /\ (domStar s = true -> Dom s = Z.ones 31)
  /\ (dowStar s = true -> Dow s = Z.ones 7).

(** The errors that [parseField] and [parseNumber] make. *)
Definition fieldError (e : error) : bool :=
  match e with
  | EmptyField | InvalidStep _ | EmptyListAtom _ | InvalidStepIn _
  | OutOfBounds _ _ _ _ | EmptyNumber | InvalidNumber _ => true
  | Expected5 _ | Expected5or6 _ | Wrapped _ _ => false
  end.

(** The names that [parseWithSeconds] puts before the error of a field. *)
Definition fieldTags : list string :=
  ["sec"; "minute"; "hour"; "dom"; "month"; "dow"].

(** A word of [strings.Fields]: not empty and without white space. *)
Definition isWord (w : string) : Prop :=
  w <> "" /\ allOf (fun ch => negb (isSpace ch)) w = true.

(** The mask in a state of the loop, and the bound on its value. *)
Definition maskOf (st : loopState) : Z :=
  match st with
  | Exit r => r
  | Again _ r => r
  end.

Definition valueOk (st : loopState) : Prop :=
  match st with
  | Exit _ => True
  | Again v _ => MinInt <= v <= MaxInt
  end.

(** Which field of the [Cron] an option sets. *)
Inductive optionKind : Type :=
| KLocation
| KBuffered
| KStartFrom
| KSeconds.

Definition kindOf (opt : Option) : optionKind :=
  match opt with
  | WithLocation _ => KLocation
  | WithBuffered _ => KBuffered
  | WithStartFrom _ => KStartFrom
  | WithSeconds => KSeconds
  end.

(** Whether [WithSeconds()] is among the options. *)
Definition hasSeconds (opts : list Option) : bool :=
  existsb (fun opt => match opt with WithSeconds => true | _ => false end) opts.

(** The number of the day of an instant, counted from the epoch. *)
Definition dayNum (t : Time) : Z := GoTime.unix t / 86400.

(** The instant of day [D] at [h]:[mi]:[s] and [ns] nanoseconds. *)
Definition instant (D h mi s ns : Z) : Time :=
  ((D * 86400 + h * 3600 + mi * 60 + s) * GoTime.Second + ns).

(** A candidate of the search at a resolution: on a full second, and at
    minute resolution on a full minute. *)
Definition aligned (withSeconds : bool) (ts : Time) : Prop :=
  GoTime.nsecOf ts = 0 /\ (withSeconds = false -> GoTime.secondOf ts = 0).

(** The first candidate of [NextFrom]. *)
Definition firstCandidate (t : Time) (withSeconds : bool) : Time :=
  let unit := if withSeconds then GoTime.Second else GoTime.Minute in
  GoTime.Add (GoTime.Truncate t unit) unit.

(** A schedule that restricts nothing above the minutes: every month and
    every hour is allowed and both day fields are wildcards. *)
Definition openAboveMinutes (s : Schedule) : Prop :=
  Month s = Z.ones 12 /\ Hour s = Z.ones 24
  /\ domStar s = true /\ dowStar s = true.

(** [r] is the earliest instant after [t] that satisfies the schedule. *)
Definition earliestMatch (s : Schedule) (withSeconds : bool) (t r : Time) : Prop :=
  t < r
  /\ fieldsMatch s withSeconds r = true
  /\ forall u, t < u < r -> fieldsMatch s withSeconds u = false.

(** The schedule of ["*/5 * * * *"] parsed without seconds. *)
Definition everyFiveMinutes : Schedule :=
  mkSchedule (Z.ones 60) 37191016277640225 (Z.ones 24) (Z.ones 31) (Z.ones 12)
             (Z.ones 7) true true.

(** The schedule of ["0,30 * * * * *"] parsed with seconds: second 0 and
    second 30 of every minute. *)
Definition everyHalfMinute : Schedule :=
  mkSchedule (2 ^ 0 + 2 ^ 30) (Z.ones 60) (Z.ones 24) (Z.ones 31) (Z.ones 12)
             (Z.ones 7) true true.

(** The day number of the first day of a month, the months counted from
    January of year 0: month [k] is month [k mod 12 + 1] of year [k / 12]. *)
Definition firstOfMonth (k : Z) : Z :=
  GoTime.daysFromCivil (k / 12) (k mod 12 + 1) 1.

(** The days from the first of March of year 0 to the first of March of
    year [y]. *)
Definition marchYear (y : Z) : Z :=
  let era := y / 400 in
  let yoe := y - era * 400 in
  era * 146097 + yoe * 365 + yoe / 4 - yoe / 100.

(** The masks above the days lie within their field domains. *)
Definition masksInDomain (s : Schedule) : Prop :=
  0 <= Second s < 2 ^ 60 /\ 0 <= Minute s < 2 ^ 60
  /\ 0 <= Hour s < 2 ^ 24 /\ 0 <= Month s < 2 ^ 12.

(** The year of an instant. *)
Definition yearOf (t : Time) : Z :=
  let '(y, _, _) := GoTime.dateOf t in y.

(** The schedule of ["0 0 30 2 *"] parsed without seconds: midnight of
    February 30. *)
Definition februaryThirtieth : Schedule :=
  mkSchedule (Z.ones 60) 1 1 (2 ^ 29) (2 ^ 1) (Z.ones 7) false true.

(** No day of a month that the schedule allows matches its day fields. *)
Definition noDay (s : Schedule) : Prop :=
  forall u y m d,
    GoTime.dateOf u = (y, m, d) ->
    bitUnset (Month s) (m - 1) = false -> dayMatches s u = false.

(** * Properties *)

(** ** Bits *)

Lemma uint_small (k : Z) : 0 <= k < 2 ^ 64 -> uint k = k.
Proof. intros H. unfold uint. apply Z.mod_small. exact H. Qed.

Lemma wrap_small (z : Z) : MinInt <= z <= MaxInt -> wrap z = z.
Proof.
  unfold wrap, MinInt, MaxInt. intros H.
  rewrite Z.mod_small by lia. lia.
Qed.

Lemma shr_small (x k : Z) : 0 <= k < 64 -> shr x k = Z.shiftr x k.
Proof.
  intros H. unfold shr. rewrite uint_small by lia.
  destruct (Z.ltb_spec k 64); [reflexivity | lia].
Qed.

Lemma shl1_small (k : Z) : 0 <= k < 64 -> shl1 k = 2 ^ k.
Proof.
  intros H. unfold shl1. rewrite uint_small by lia.
  destruct (Z.ltb_spec k 64); [| lia].
  rewrite Z.shiftl_1_l. reflexivity.
Qed.

Lemma land_1_testbit (a : Z) : (Z.land a 1 =? 0) = negb (Z.testbit a 0).
Proof.
  change 1 with (Z.ones 1). rewrite Z.land_ones by lia.
  change (2 ^ 1) with 2. rewrite <- Z.bit0_mod.
  destruct (Z.testbit a 0); reflexivity.
Qed.

Lemma bitUnset_testbit (mask k : Z) :
  0 <= k < 64 -> bitUnset mask k = negb (Z.testbit mask k).
Proof.
  intros H. unfold bitUnset. rewrite shr_small by exact H.
  rewrite land_1_testbit, Z.shiftr_spec by lia. reflexivity.
Qed.

(** ** The calendar *)

Lemma civilFromDays_spec (n : Z) :
  let '(y, m, d) := GoTime.civilFromDays n in
  GoTime.daysFromCivil y m d = n /\ 1 <= m <= 12 /\ 1 <= d <= 31.
Proof.
  unfold GoTime.civilFromDays, GoTime.daysFromCivil. cbv zeta.
  set (z := n + 719468).
  set (era := z / 146097).
  set (doe := z - era * 146097).
  assert (Hdoe : 0 <= doe < 146097).
  { subst doe era. pose proof (Z.mod_pos_bound z 146097) as Hm.
    rewrite Z.mod_eq in Hm by lia. lia. }
  assert (Hn : n = era * 146097 + doe - 719468) by (subst doe z; lia).
  clearbody doe.
  set (yoe := (doe - doe / 1460 + doe / 36524 - doe / 146096) / 365).
  assert (Hyoe : 0 <= yoe < 400) by (subst yoe; Z.div_mod_to_equations; lia).
  set (doy := doe - (365 * yoe + yoe / 4 - yoe / 100)).
  assert (Hdoy : 0 <= doy < 366) by (subst doy yoe; Z.div_mod_to_equations; lia).
  clearbody yoe.
  set (mp := (5 * doy + 2) / 153).
  assert (Hmp : 0 <= mp < 12) by (subst mp; Z.div_mod_to_equations; lia).
  assert (Hera : (yoe + era * 400) / 400 = era) by (Z.div_mod_to_equations; lia).
  destruct (Z.ltb_spec mp 10) as [E | E].
  - destruct (Z.leb_spec (mp + 3) 2); [lia |].
    destruct (Z.ltb_spec 2 (mp + 3)); [| lia].
    replace (mp + 3 - 3) with mp by lia.
    rewrite Hera. replace (yoe + era * 400 - era * 400) with yoe by lia.
    split; [subst doy; lia |].
    split; [lia | subst mp; Z.div_mod_to_equations; lia].
  - destruct (Z.leb_spec (mp - 9) 2); [| lia].
    destruct (Z.ltb_spec 2 (mp - 9)); [lia |].
    replace (mp - 9 + 9) with mp by lia.
    replace (yoe + era * 400 + 1 - 1) with (yoe + era * 400) by lia.
    rewrite Hera. replace (yoe + era * 400 - era * 400) with yoe by lia.
    split; [subst doy; lia |].
    split; [lia | subst mp; Z.div_mod_to_equations; lia].
Qed.

Lemma dayOf_range (t : Time) : 1 <= GoTime.dayOf t <= 31.
Proof.
  unfold GoTime.dayOf, GoTime.dateOf.
  pose proof (civilFromDays_spec (GoTime.unix t / 86400)) as H.
  destruct (GoTime.civilFromDays _) as [[y m] d]. simpl. lia.
Qed.

Lemma dateOf_month_range (t : Time) (y m d : Z) :
  GoTime.dateOf t = (y, m, d) -> 1 <= m <= 12.
Proof.
  unfold GoTime.dateOf. intros E.
  pose proof (civilFromDays_spec (GoTime.unix t / 86400)) as H.
  rewrite E in H. lia.
Qed.

Lemma weekdayOf_range (t : Time) : 0 <= GoTime.weekdayOf t <= 6.
Proof. unfold GoTime.weekdayOf. pose proof (Z.mod_pos_bound (GoTime.unix t / 86400 + 4) 7). lia. Qed.

Lemma hourOf_range (t : Time) : 0 <= GoTime.hourOf t <= 23.
Proof. unfold GoTime.hourOf. Z.div_mod_to_equations. lia. Qed.

Lemma minuteOf_range (t : Time) : 0 <= GoTime.minuteOf t <= 59.
Proof. unfold GoTime.minuteOf. Z.div_mod_to_equations. lia. Qed.

Lemma secondOf_range (t : Time) : 0 <= GoTime.secondOf t <= 59.
Proof. unfold GoTime.secondOf. Z.div_mod_to_equations. lia. Qed.

(** ** The day-match predicate *)

(** The day-match predicate as a table over the two flags. *)
Lemma dayMatches_table (s : Schedule) (t : Time) :
  dayMatches s t =
    match domStar s, dowStar s with
    | false, false =>
        Z.testbit (Dom s) (GoTime.dayOf t - 1) || Z.testbit (Dow s) (GoTime.weekdayOf t)
    | false, true => Z.testbit (Dom s) (GoTime.dayOf t - 1)
    | true, false => Z.testbit (Dow s) (GoTime.weekdayOf t)
    | true, true => true
    end.
Proof.
  unfold dayMatches.
  fold (bitUnset (Dom s) (GoTime.dayOf t - 1)).
  fold (bitUnset (Dow s) (GoTime.weekdayOf t)).
  pose proof (dayOf_range t) as Hd. pose proof (weekdayOf_range t) as Hw.
  rewrite !bitUnset_testbit by lia. rewrite !negb_involutive.
  destruct (domStar s), (dowStar s), (Z.testbit (Dom s) _), (Z.testbit (Dow s) _);
    reflexivity.
Qed.

(** C2. For every schedule and every instant the day-match predicate
    follows the Vixie rule: when neither day field was a bare wildcard
    the day matches when the day-of-month bit or the day-of-week bit is
    set; when exactly one of them was a wildcard the other field's bit
    decides alone; when both were wildcards every day matches. *)
Theorem dayMatches_vixie (s : Schedule) (t : Time) :
  let domOk := Z.testbit (Dom s) (GoTime.dayOf t - 1) in
  let dowOk := Z.testbit (Dow s) (GoTime.weekdayOf t) in
  (domStar s = false -> dowStar s = false -> dayMatches s t = domOk || dowOk)
  /\ (domStar s = false -> dowStar s = true -> dayMatches s t = domOk)
  /\ (domStar s = true -> dowStar s = false -> dayMatches s t = dowOk)
  /\ (domStar s = true -> dowStar s = true -> dayMatches s t = true).
Proof.
  cbv zeta. rewrite dayMatches_table.
  repeat split; intros -> ->; reflexivity.
Qed.

(** The rule at work on a schedule with Dom = {15} and Dow = {Monday},
    neither a wildcard: 2024-06-15 is a Saturday and matches by the day of
    the month, 2024-06-17 is a Monday and matches by the day of the week,
    2024-06-18 is neither and does not match. *)
Lemma dayMatches_vixie_witness :
  let s := mkSchedule 1 1 1 (2 ^ 14) (Z.ones 12) (2 ^ 1) false false in
  dayMatches s (GoTime.Date 2024 6 15 0 0 0 0) = true
  /\ dayMatches s (GoTime.Date 2024 6 17 0 0 0 0) = true
  /\ dayMatches s (GoTime.Date 2024 6 18 0 0 0 0) = false.
Proof.
  cbv zeta. split; [| split].
  - rewrite (proj1 (dayMatches_vixie _ _)); reflexivity.
  - rewrite (proj1 (dayMatches_vixie _ _)); reflexivity.
  - rewrite (proj1 (dayMatches_vixie _ _)); reflexivity.
Defined.

(** ** The runtime *)

Lemma applyOption_stop (opt : Option) (x : Cron) :
  stop (applyOption opt x) = stop x /\ stopped (applyOption opt x) = stopped x
  /\ sched (applyOption opt x) = sched x.
Proof. destruct opt; repeat split; reflexivity. Qed.

Lemma foldl_applyOption_stop (opts : list Option) (x : Cron) :
  let y := foldl (fun x opt => applyOption opt x) x opts in
  stop y = stop x /\ stopped y = stopped x /\ sched y = sched x.
Proof.
  revert x. induction opts as [| opt opts IH]; intros x; simpl.
  - repeat split; reflexivity.
  - destruct (IH (applyOption opt x)) as (H1 & H2 & H3).
    destruct (applyOption_stop opt x) as (G1 & G2 & G3).
    cbv zeta in *. rewrite H1, H2, H3, G1, G2, G3. repeat split; reflexivity.
Qed.

(** [NewSchedule] has no failing path. *)
Lemma NewSchedule_Ok (s : Schedule) (opts : list Option) (now : Time) :
  exists x, NewSchedule s opts now = Ok x
    /\ sched x = s /\ stopped x = false /\ closed (stop x) = false
    /\ withSeconds x
       = withSeconds (foldl (fun x opt => applyOption opt x)
           (mkCron (make Time 0) Local 1 GoTime.zeroTime false s (make unit 0) false) opts).
Proof.
  unfold NewSchedule. eexists. split; [reflexivity |]. simpl.
  set (x0 := mkCron _ _ _ _ _ _ _ _).
  destruct (foldl_applyOption_stop opts x0) as (H1 & H2 & H3).
  cbv zeta in *. rewrite H1, H2, H3. repeat split; reflexivity.
Qed.


(** C4 (the code does otherwise). The claim asks that a schedule with a
    second mask other than {0} be refused by a runtime built without
    second resolution.  [NewSchedule] returns no error for any schedule
    and any options; for the schedule of ["5 0 12 15 6 *"], whose second
    mask is {5}, and no option it returns a runtime at minute
    resolution. *)
Theorem NewSchedule_never_fails :
  (forall s opts now, isErr (NewSchedule s opts now) = false)
  /\ ParseSpec "5 0 12 15 6 *" true = Ok fiveSecondsSchedule
  /\ Second fiveSecondsSchedule <> 1
  /\ forall now, exists x,
       NewSchedule fiveSecondsSchedule [] now = Ok x
       /\ withSeconds x = false /\ sched x = fiveSecondsSchedule.
Proof.
  split; [| split; [| split]].
  - intros s opts now. destruct (NewSchedule_Ok s opts now) as (x & -> & _).
    reflexivity.
  - vm_compute. reflexivity.
  - vm_compute. discriminate.
  - intros now. destruct (NewSchedule_Ok fiveSecondsSchedule [] now) as (x & E & Hs & _ & _ & Hw).
    exists x. split; [exact E |]. split; [exact Hw | exact Hs].
Qed.


Lemma Stop_stopped (x : Cron) :
  stopped x = true -> Stop x = Some (x, false).
Proof. intros H. unfold Stop. rewrite H. reflexivity. Qed.

Lemma runCalls_stopped (ks : list call) (x : Cron) :
  stopped x = true ->
  exists bs, runCalls x ks = Some (x, bs)
    /\ Forall (fun b => b = false) (stopReturns bs).
Proof.
  intros Hx. induction ks as [| k ks IH]; simpl.
  - exists []. split; [reflexivity | constructor].
  - destruct IH as (bs & E & Hbs). destruct k as [| fuel t]; simpl.
    + rewrite (Stop_stopped x Hx). simpl. rewrite E. simpl.
      exists (Some false :: bs). split; [reflexivity |].
      constructor; [reflexivity | exact Hbs].
    + rewrite E. simpl. exists (None :: bs). split; [reflexivity | exact Hbs].
Qed.

(** C8. On the runtime that [NewSchedule] returns, the first [Stop]
    returns true; after it, whatever calls follow, every [Stop] returns
    false, none panics, and the runtime stays stopped. *)
Theorem Stop_once (s : Schedule) (opts : list Option) (now : Time) :
  exists x x1,
    NewSchedule s opts now = Ok x
    /\ stopped x = false
    /\ Stop x = Some (x1, true)
    /\ stopped x1 = true
    /\ forall ks, exists bs,
         runCalls x1 ks = Some (x1, bs)
         /\ Forall (fun b => b = false) (stopReturns bs).
Proof.
  destruct (NewSchedule_Ok s opts now) as (x & E & _ & Hst & Hcl & _).
  exists x. eexists. split; [exact E |]. split; [exact Hst |].
  split; [| split].
  - unfold Stop. rewrite Hst. unfold close. rewrite Hcl. reflexivity.
  - reflexivity.
  - intros ks. apply runCalls_stopped. reflexivity.
Qed.

(** ** [ParseSpec] and the seconds field *)


Lemma mustMask_0_59 : mustMask 0 59 = Ok (Z.ones 60).
Proof. vm_compute. reflexivity. Qed.

Lemma parseField_star_0_59 : parseField "*" 0 59 None = Ok (Z.ones 60, true).
Proof. vm_compute. reflexivity. Qed.

Lemma wrapErr_Ok {A : Type} (ctx : string) (r : result A) (a : A) :
  wrapErr ctx r = Ok a -> r = Ok a.
Proof. destruct r; simpl; congruence. Qed.

Lemma bind_Ok {A B : Type} (r : result A) (k : A -> result B) (b : B) :
  mbind k r = Ok b -> exists a, r = Ok a /\ k a = Ok b.
Proof. destruct r; simpl; try discriminate. intros H. eauto. Qed.

(** The second mask of a schedule parsed from six fields is the mask of
    the first field. *)
Lemma parseWithSeconds_Second (f0 : string) (rest : list string) (s : Schedule) :
  parseWithSeconds (f0 :: rest) = Ok s ->
  exists star, parseField f0 0 59 None = Ok (Second s, star).
Proof.
  destruct rest as [| f1 [| f2 [| f3 [| f4 [| f5 rest]]]]]; try discriminate.
  unfold parseWithSeconds. intros H.
  apply bind_Ok in H as ([sec st0] & H0 & H).
  apply bind_Ok in H as ([minute st1] & _ & H).
  apply bind_Ok in H as ([hour st2] & _ & H).
  apply bind_Ok in H as ([dom st3] & _ & H).
  apply bind_Ok in H as ([month st4] & _ & H).
  apply bind_Ok in H as ([dow st5] & _ & H).
  injection H as <-. simpl. exists st0. apply wrapErr_Ok in H0. exact H0.
Qed.

(** Without seconds a spec has five fields and ["*"] is put before them. *)
Lemma ParseSpec_seconds_off (spec : string) (s : Schedule) :
  ParseSpec spec false = Ok s ->
  length (Fields spec) = 5%nat
  /\ ParseSpec spec false = parseWithSeconds ("*" :: Fields spec)
  /\ Second s = Z.ones 60.
Proof.
  intros H.
  assert (E : length (Fields spec) = 5%nat).
  { unfold ParseSpec in H. cbn [negb andb] in H.
    destruct (Nat.eqb_spec (length (Fields spec)) 5) as [E | E];
      [exact E | discriminate]. }
  assert (P : ParseSpec spec false = parseWithSeconds ("*" :: Fields spec)).
  { unfold ParseSpec. cbn [negb andb]. rewrite E.
    change (5 =? 5)%nat with true. cbn [negb length]. rewrite E. reflexivity. }
  split; [exact E |]. split; [exact P |].
  rewrite P in H.
  apply parseWithSeconds_Second in H as (star & H).
  rewrite parseField_star_0_59 in H. injection H as <- _. reflexivity.
Qed.

(** With seconds ["*"] is put after the five fields of a spec, and the
    first of them is read as the seconds field. *)
Lemma ParseSpec_seconds_on (spec : string) (s : Schedule) :
  length (Fields spec) = 5%nat ->
  ParseSpec spec true = Ok s ->
  ParseSpec spec true = parseWithSeconds (Fields spec ++ ["*"])
  /\ exists f0 rest star,
       Fields spec = f0 :: rest
       /\ parseField f0 0 59 None = Ok (Second s, star).
Proof.
  intros E H.
  assert (P : ParseSpec spec true = parseWithSeconds (Fields spec ++ ["*"])).
  { unfold ParseSpec. cbn [negb andb]. rewrite E.
    change (5 =? 5)%nat with true. cbv iota.
    rewrite length_app, E. reflexivity. }
  split; [exact P |]. rewrite P in H.
  destruct (Fields spec) as [| f0 rest]; [discriminate |].
  rewrite <- app_comm_cons in H.
  apply parseWithSeconds_Second in H as (star & H). eauto.
Qed.

(** C3 (the code does otherwise). The claim gives a spec parsed without
    seconds the second mask {0}, and five fields parsed with seconds the
    full second mask.  [ParseSpec] puts ["*"] before the five fields in
    the first case, so the second mask is the full one; in the second
    case it puts ["*"] after them, so the minute field is read as the
    seconds field and every field moves by one: ["0 12 15 6 *"] has the
    second mask {0..59} without seconds and, with seconds, Second = {0},
    Minute = {12}, Hour = {15}, Dom = {6} and every month. *)
Theorem ParseSpec_seconds_field :
  (forall spec s, ParseSpec spec false = Ok s -> Second s = Z.ones 60)
  /\ (forall spec s,
        length (Fields spec) = 5%nat -> ParseSpec spec true = Ok s ->
        exists f0 rest star,
          Fields spec = f0 :: rest
          /\ parseField f0 0 59 None = Ok (Second s, star))
  /\ ParseSpec "0 12 15 6 *" false = Ok noonSchedule
  /\ Second noonSchedule = Z.ones 60
  /\ Minute noonSchedule = 2 ^ 0 /\ Hour noonSchedule = 2 ^ 12
  /\ Dom noonSchedule = 2 ^ (15 - 1) /\ Month noonSchedule = 2 ^ (6 - 1)
  /\ ParseSpec "0 12 15 6 *" true = Ok noonScheduleWithSeconds
  /\ Second noonScheduleWithSeconds = 2 ^ 0
  /\ Minute noonScheduleWithSeconds = 2 ^ 12
  /\ Hour noonScheduleWithSeconds = 2 ^ 15
  /\ Dom noonScheduleWithSeconds = 2 ^ (6 - 1)
  /\ Month noonScheduleWithSeconds = Z.ones 12.
Proof.
  split; [| split].
  - intros spec s H. apply (ParseSpec_seconds_off spec s H).
  - intros spec s E H. apply (ParseSpec_seconds_on spec s E H).
  - vm_compute. repeat split; reflexivity.
Qed.

(** ** The forward search *)


(** C1 (the code does otherwise). With the schedule of ["0 12 15 6 *"] at
    minute resolution and the reference instant 2024-06-15 10:30:00 UTC,
    the earliest later instant that satisfies the fields is 12:00:00 of
    that day; [NextFrom] returns 13:00:00, which does not satisfy them. *)
Theorem NextFrom_skips_noon :
  let t := GoTime.Date 2024 6 15 10 30 0 0 in
  let noon := GoTime.Date 2024 6 15 12 0 0 0 in
  let one := GoTime.Date 2024 6 15 13 0 0 0 in
  ParseSpec "0 12 15 6 *" false = Ok noonSchedule
  /\ (forall fuel, NextFrom (2 + fuel) noonSchedule t false = Some one)
  /\ t < noon < one
  /\ fieldsMatch noonSchedule false noon = true
  /\ fieldsMatch noonSchedule false one = false.
Proof.
  cbv zeta. split; [vm_compute; reflexivity |].
  split; [intros fuel; vm_compute; reflexivity |].
  vm_compute. repeat split; reflexivity.
Qed.

Lemma testbit_ones (n k : Z) :
  0 <= n -> 0 <= k -> Z.testbit (Z.ones n) k = (k <? n).
Proof. intros Hn Hk. apply Z.testbit_ones_nonneg; assumption. Qed.

Lemma bitUnset_ones (n k : Z) :
  0 <= n <= 64 -> 0 <= k < n -> bitUnset (Z.ones n) k = false.
Proof.
  intros Hn Hk. rewrite bitUnset_testbit by lia.
  rewrite testbit_ones by lia.
  destruct (Z.ltb_spec k n); [reflexivity | lia].
Qed.

Lemma bitUnset_bit0 (k : Z) :
  0 <= k < 64 -> bitUnset (Z.ones 1) k = negb (k =? 0).
Proof.
  intros Hk. rewrite bitUnset_testbit by lia.
  rewrite testbit_ones by lia.
  destruct (Z.ltb_spec k 1), (Z.eqb_spec k 0); try reflexivity; lia.
Qed.

(** Past its only set bit the mask {0} sends [nextAllowed] round. *)
Lemma nextAllowed_bit0_wraps (cur max : Z) :
  1 <= cur < 64 -> snd (nextAllowed (Z.ones 1) cur 0 max) = true.
Proof.
  intros H. unfold nextAllowed. change (Z.ones 1 =? 0) with false. cbv iota.
  destruct (Z.ltb_spec cur 0); [lia |].
  rewrite Z.sub_0_r, wrap_small by (unfold MinInt, MaxInt; lia).
  rewrite shr_small by lia.
  rewrite Z.shiftr_div_pow2 by lia.
  change (Z.ones 1) with 1.
  assert (2 ^ 1 <= 2 ^ cur) by (apply Z.pow_le_mono_r; lia).
  rewrite Z.div_small by lia. reflexivity.
Qed.

Lemma hourly_step (ts : Time) :
  offHour ts ->
  exists ts', searchStep hourlySchedule true ts = Continue ts' /\ offHour ts'.
Proof.
  intros Hoff. unfold searchStep.
  destruct (GoTime.dateOf ts) as [[y m] d] eqn:E.
  pose proof (dateOf_month_range ts y m d E) as Hm.
  pose proof (hourOf_range ts) as Hh.
  pose proof (minuteOf_range ts) as Hmi.
  pose proof (secondOf_range ts) as Hs.
  cbn [Month Hour Minute Second hourlySchedule].
  rewrite bitUnset_ones by lia.
  assert (Hday : dayMatches hourlySchedule ts = true) by reflexivity.
  rewrite Hday. cbn [negb].
  rewrite bitUnset_ones by lia.
  rewrite !bitUnset_bit0 by lia.
  destruct (Z.eqb_spec (GoTime.minuteOf ts) 0) as [E0 | E0]; cbn [negb].
  - assert (Hsec : GoTime.secondOf ts <> 0) by (destruct Hoff; congruence).
    destruct (Z.eqb_spec (GoTime.secondOf ts) 0) as [E1 | E1]; [contradiction |].
    cbn [negb].
    pose proof (nextAllowed_bit0_wraps (GoTime.secondOf ts) 59 ltac:(lia)) as Hw.
    destruct (nextAllowed _ _ _ _) as [nextS wrapS]. simpl in Hw. subst wrapS.
    eexists. split; [reflexivity |]. left.
    rewrite E0. unfold GoTime.minuteOf, GoTime.unix, GoTime.Add, GoTime.Date,
      GoTime.Minute, GoTime.Second.
    generalize (GoTime.daysFromCivil (y + (m - 1) / 12) ((m - 1) mod 12 + 1) 1).
    intros D. Z.div_mod_to_equations. lia.
  - pose proof (nextAllowed_bit0_wraps (GoTime.minuteOf ts) 59 ltac:(lia)) as Hw.
    destruct (nextAllowed _ _ _ _) as [nextM wrapM]. simpl in Hw. subst wrapM.
    eexists. split; [reflexivity |]. right.
    unfold GoTime.secondOf, GoTime.unix, GoTime.Add, GoTime.Date,
      GoTime.Hour, GoTime.Minute, GoTime.Second.
    generalize (GoTime.daysFromCivil (y + (m - 1) / 12) ((m - 1) mod 12 + 1) 1).
    generalize (GoTime.hourOf ts).
    intros h D. Z.div_mod_to_equations. lia.
Qed.

Lemma hourly_loop (fuel : nat) (ts : Time) :
  offHour ts -> searchLoop fuel hourlySchedule true ts = None.
Proof.
  revert ts. induction fuel as [| fuel IH]; intros ts Hoff; [reflexivity |].
  cbn [searchLoop].
  destruct (hourly_step ts Hoff) as (ts' & -> & Hoff').
  apply IH. exact Hoff'.
Qed.

(** C5 (the code does otherwise). With the schedule of ["0 0 * * * *"] at
    second resolution and the reference instant 2024-06-15 12:00:30 UTC
    the loop of [NextFrom] never returns: after it has carried into the
    next minute or hour it adds one second, so no candidate is ever on
    the full hour. *)
Theorem NextFrom_hourly_never_returns :
  ParseSpec "0 0 * * * *" true = Ok hourlySchedule
  /\ forall fuel,
       NextFrom fuel hourlySchedule (GoTime.Date 2024 6 15 12 0 30 0) true = None.
Proof.
  split; [vm_compute; reflexivity |].
  intros fuel. unfold NextFrom. apply hourly_loop.
  right. vm_compute. discriminate.
Qed.

(** ** Strings *)

Lemma TrimLeft_idem (s : string) : TrimLeft (TrimLeft s) = TrimLeft s.
Proof.
  induction s as [| ch s IH]; [reflexivity |].
  cbn [TrimLeft]. destruct (isSpace ch) eqn:E; [exact IH |].
  cbn [TrimLeft]. rewrite E. reflexivity.
Qed.

Lemma TrimRight_cons (ch : ascii) (s : string) :
  TrimRight s <> "" -> TrimRight (String ch s) = String ch (TrimRight s).
Proof.
  intros H. cbn [TrimRight]. destruct (TrimRight s); [contradiction | reflexivity].
Qed.

Lemma TrimRight_cons_blank (ch : ascii) (s : string) :
  TrimRight s = "" ->
  TrimRight (String ch s) = if isSpace ch then "" else String ch "".
Proof. intros H. cbn [TrimRight]. rewrite H. reflexivity. Qed.

Lemma TrimRight_idem (s : string) : TrimRight (TrimRight s) = TrimRight s.
Proof.
  induction s as [| ch s IH]; [reflexivity |].
  cbn [TrimRight]. destruct (TrimRight s) as [| d r] eqn:E.
  - destruct (isSpace ch) eqn:Ec; [reflexivity |].
    cbn [TrimRight]. rewrite Ec. reflexivity.
  - rewrite TrimRight_cons; rewrite IH; [reflexivity | discriminate].
Qed.

Lemma TrimLeft_TrimRight (s : string) :
  TrimLeft (TrimRight s) = TrimRight (TrimLeft s).
Proof.
  induction s as [| ch s IH]; [reflexivity |].
  cbn [TrimLeft]. destruct (isSpace ch) eqn:Ec.
  - rewrite <- IH. cbn [TrimRight]. rewrite Ec.
    destruct (TrimRight s) as [| d r]; [reflexivity |].
    cbn [TrimLeft]. rewrite Ec. reflexivity.
  - cbn [TrimRight]. rewrite Ec.
    destruct (TrimRight s) as [| d r]; cbn [TrimLeft]; rewrite Ec; reflexivity.
Qed.

Lemma TrimSpace_idem (s : string) : TrimSpace (TrimSpace s) = TrimSpace s.
Proof.
  unfold TrimSpace.
  rewrite TrimLeft_TrimRight, TrimLeft_idem, TrimRight_idem. reflexivity.
Qed.

Lemma TrimSpace_TrimLeft (s : string) : TrimSpace (TrimLeft s) = TrimSpace s.
Proof. unfold TrimSpace. rewrite TrimLeft_idem. reflexivity. Qed.

Lemma TrimSpace_TrimRight (s : string) : TrimSpace (TrimRight s) = TrimSpace s.
Proof. unfold TrimSpace. rewrite TrimLeft_TrimRight, TrimRight_idem. reflexivity. Qed.

Lemma app_blank (s : string) : "" +:+ s = s.
Proof. reflexivity. Qed.

Lemma app_String (ch : ascii) (a b : string) :
  String ch a +:+ b = String ch (a +:+ b).
Proof. reflexivity. Qed.

Lemma TrimLeft_app_sep (a b : string) (sep : ascii) :
  isSpace sep = false ->
  TrimLeft (a +:+ String sep b) = TrimLeft a +:+ String sep b.
Proof.
  intros Hs. induction a as [| ch a IH].
  - rewrite app_blank. cbn [TrimLeft]. rewrite Hs. reflexivity.
  - rewrite app_String. cbn [TrimLeft].
    destruct (isSpace ch); [exact IH | reflexivity].
Qed.

Lemma TrimRight_sep (b : string) (sep : ascii) :
  isSpace sep = false ->
  TrimRight (String sep b) = String sep (TrimRight b).
Proof.
  intros Hs. cbn [TrimRight]. rewrite Hs.
  destruct (TrimRight b); reflexivity.
Qed.

Lemma TrimRight_app_sep (a b : string) (sep : ascii) :
  isSpace sep = false ->
  TrimRight (a +:+ String sep b) = a +:+ String sep (TrimRight b).
Proof.
  intros Hs. induction a as [| ch a IH].
  - rewrite !app_blank. apply TrimRight_sep. exact Hs.
  - rewrite !app_String. rewrite TrimRight_cons; rewrite IH; [reflexivity |].
    destruct a; discriminate.
Qed.

Lemma TrimSpace_app_sep (a b : string) (sep : ascii) :
  isSpace sep = false ->
  TrimSpace (a +:+ String sep b) = TrimLeft a +:+ String sep (TrimRight b).
Proof.
  intros Hs. unfold TrimSpace.
  rewrite TrimLeft_app_sep, TrimRight_app_sep by exact Hs. reflexivity.
Qed.

Lemma Split_nonempty (s : string) (sep : ascii) : Split s sep <> [].
Proof.
  destruct s as [| ch s]; cbn [Split]; [discriminate |].
  destruct (Ascii.eqb ch sep); [discriminate |].
  destruct (Split s sep); discriminate.
Qed.

Lemma Split_cons (ch : ascii) (s : string) (sep : ascii) :
  Split (String ch s) sep
  = if Ascii.eqb ch sep then "" :: Split s sep
    else match Split s sep with
         | h :: t => String ch h :: t
         | [] => []
         end.
Proof.
  cbn [Split]. destruct (Ascii.eqb ch sep); [reflexivity |].
  pose proof (Split_nonempty s sep). destruct (Split s sep); [contradiction | reflexivity].
Qed.

Lemma Split_app (a b : string) (sep : ascii) :
  Split (a +:+ String sep b) sep = Split a sep ++ Split b sep.
Proof.
  induction a as [| ch a IH].
  - rewrite app_blank, Split_cons, Ascii.eqb_refl. reflexivity.
  - rewrite app_String, !Split_cons, IH. destruct (Ascii.eqb ch sep); [reflexivity |].
    pose proof (Split_nonempty a sep). destruct (Split a sep); [contradiction | reflexivity].
Qed.

Lemma Split_blank (s : string) (sep : ascii) : Split s sep = [""] -> s = "".
Proof.
  destruct s as [| ch s]; [reflexivity |]. rewrite Split_cons.
  destruct (Ascii.eqb ch sep).
  - intros H. injection H as H. exfalso. exact (Split_nonempty s sep H).
  - destruct (Split s sep); discriminate.
Qed.

Lemma Split_TrimLeft (s : string) (sep : ascii) :
  isSpace sep = false ->
  Split (TrimLeft s) sep
  = match Split s sep with
    | h :: t => TrimLeft h :: t
    | [] => []
    end.
Proof.
  intros Hs. induction s as [| ch s IH]; [reflexivity |].
  cbn [TrimLeft]. destruct (isSpace ch) eqn:Ec.
  - rewrite IH, Split_cons.
    destruct (Ascii.eqb_spec ch sep) as [-> | _]; [congruence |].
    destruct (Split s sep) as [| h t]; [reflexivity |].
    cbn [TrimLeft]. rewrite Ec. reflexivity.
  - rewrite Split_cons. destruct (Ascii.eqb ch sep); [reflexivity |].
    destruct (Split s sep) as [| h t]; [reflexivity |].
    cbn [TrimLeft]. rewrite Ec. reflexivity.
Qed.

Lemma Split_TrimRight (s : string) (sep : ascii) :
  isSpace sep = false ->
  exists pre h,
    Split s sep = pre ++ [h] /\ Split (TrimRight s) sep = pre ++ [TrimRight h].
Proof.
  intros Hs. induction s as [| ch s IH].
  - exists [], "". split; reflexivity.
  - destruct IH as (pre & h & E1 & E2).
    destruct (TrimRight s) as [| d r] eqn:Er.
    + assert (pre = [] /\ TrimRight h = "") as [-> Eh].
      { cbn [Split] in E2. destruct pre as [| p0 [| p1 pre]]; simplify_eq/=; done. }
      rewrite (TrimRight_cons_blank ch s Er), Split_cons, E1.
      destruct (Ascii.eqb_spec ch sep) as [-> | Hne].
      * rewrite Hs. exists [""], h. split; [reflexivity |].
        rewrite Eh. cbn [Split]. rewrite Ascii.eqb_refl. reflexivity.
      * exists [], (String ch h). split; [reflexivity |].
        rewrite (TrimRight_cons_blank ch h Eh).
        destruct (isSpace ch); [reflexivity |].
        rewrite Split_cons. apply Ascii.eqb_neq in Hne. rewrite Hne. reflexivity.
    + rewrite TrimRight_cons by (rewrite Er; discriminate).
      rewrite Er, (Split_cons ch (String d r)), (Split_cons ch s), E1, E2.
      destruct (Ascii.eqb ch sep).
      * exists ("" :: pre), h. split; reflexivity.
      * destruct pre as [| p0 pre].
        -- exists [], (String ch h). split; [reflexivity |].
           cbn [app]. rewrite TrimRight_cons; [reflexivity |].
           intros Eh. rewrite Eh in E2. apply Split_blank in E2. discriminate.
        -- exists (String ch p0 :: pre), h. split; reflexivity.
Qed.


Lemma atoms_TrimSpace (field : string) : atoms (TrimSpace field) = atoms field.
Proof.
  unfold atoms. change (TrimSpace field) with (TrimRight (TrimLeft field)).
  destruct (Split_TrimRight (TrimLeft field) "," eq_refl) as (pre & h & E1 & E2).
  rewrite E2. rewrite Split_TrimLeft in E1 by reflexivity.
  pose proof (Split_nonempty field ",") as Hne.
  destruct (Split field ",") as [| h0 t0]; [contradiction |].
  transitivity (TrimSpace <$> (TrimLeft h0 :: t0)).
  - rewrite E1, !fmap_app. cbn [fmap list_fmap]. rewrite TrimSpace_TrimRight. reflexivity.
  - cbn [fmap list_fmap]. rewrite TrimSpace_TrimLeft. reflexivity.
Qed.

Lemma atoms_app (a b : string) :
  atoms (a +:+ String "," b) = atoms a ++ atoms b.
Proof. unfold atoms. rewrite Split_app, fmap_app. reflexivity. Qed.

Lemma Split_no_sep (s : string) (sep : ascii) :
  Contains s sep = false -> Split s sep = [s].
Proof.
  induction s as [| ch s IH]; [reflexivity |].
  cbn [Contains]. intros H. apply orb_false_iff in H as [H1 H2].
  rewrite Split_cons, H1, (IH H2). reflexivity.
Qed.

Lemma Split_elements (s : string) (sep : ascii) :
  Forall (fun p => Contains p sep = false) (Split s sep).
Proof.
  induction s as [| ch s IH]; [repeat constructor |].
  rewrite Split_cons. destruct (Ascii.eqb ch sep) eqn:E.
  - constructor; [reflexivity | exact IH].
  - destruct (Split s sep) as [| h t]; [constructor |].
    inversion IH as [| ? ? Hh Ht]; subst.
    constructor; [| exact Ht]. cbn [Contains]. rewrite E, Hh. reflexivity.
Qed.

Lemma Split_singleton (s h : string) (sep : ascii) :
  Split s sep = [h] -> h = s /\ Contains s sep = false.
Proof.
  revert h. induction s as [| ch s IH]; intros h.
  - cbn [Split]. intros [= <-]. split; reflexivity.
  - rewrite Split_cons. destruct (Ascii.eqb ch sep) eqn:E.
    + intros [= _ H]. exfalso. exact (Split_nonempty s sep H).
    + destruct (Split s sep) as [| h0 [| h1 t]] eqn:Es; try discriminate.
      intros [= <-]. destruct (IH h0 eq_refl) as [-> Hc].
      split; [reflexivity |]. cbn [Contains]. rewrite E, Hc. reflexivity.
Qed.

Lemma Contains_TrimLeft (s : string) (ch : ascii) :
  isSpace ch = false -> Contains (TrimLeft s) ch = Contains s ch.
Proof.
  intros Hc. induction s as [| d s IH]; [reflexivity |].
  cbn [TrimLeft Contains]. destruct (isSpace d) eqn:Ed; [| reflexivity].
  rewrite IH. destruct (Ascii.eqb_spec d ch) as [-> | _]; [congruence | reflexivity].
Qed.

Lemma Contains_TrimRight (s : string) (ch : ascii) :
  isSpace ch = false -> Contains (TrimRight s) ch = Contains s ch.
Proof.
  intros Hc. induction s as [| d s IH]; [reflexivity |].
  cbn [TrimRight Contains]. destruct (TrimRight s) as [| e r] eqn:Er.
  - rewrite <- IH. cbn [Contains]. rewrite orb_false_r.
    destruct (isSpace d) eqn:Ed; cbn [Contains]; [| rewrite orb_false_r; reflexivity].
    destruct (Ascii.eqb_spec d ch) as [-> | _]; [congruence | reflexivity].
  - rewrite <- IH. reflexivity.
Qed.

Lemma Contains_TrimSpace (s : string) (ch : ascii) :
  isSpace ch = false -> Contains (TrimSpace s) ch = Contains s ch.
Proof.
  intros Hc. unfold TrimSpace.
  rewrite Contains_TrimRight, Contains_TrimLeft by exact Hc. reflexivity.
Qed.

Lemma TrimLeft_head (s : string) (ch : ascii) (r : string) :
  TrimLeft s = String ch r -> isSpace ch = false.
Proof.
  induction s as [| d s IH]; [discriminate |].
  cbn [TrimLeft]. destruct (isSpace d) eqn:Ed; [exact IH |].
  intros [= <- _]. exact Ed.
Qed.

Lemma TrimRight_head (s : string) (ch : ascii) (r : string) :
  isSpace ch = false -> exists r', TrimRight (String ch r) = String ch r'.
Proof.
  intros Hc. cbn [TrimRight]. rewrite Hc.
  destruct (TrimRight r); eauto.
Qed.

Lemma TrimSpace_head (s : string) (ch : ascii) (r : string) :
  TrimSpace s = String ch r -> isSpace ch = false.
Proof.
  unfold TrimSpace. destruct (TrimLeft s) as [| d t] eqn:E; [discriminate |].
  pose proof (TrimLeft_head s d t E) as Hd.
  destruct (TrimRight_head s d t Hd) as (r' & ->).
  intros [= <- _]. exact Hd.
Qed.

Lemma TrimSpace_keeps_head (ch : ascii) (r : string) :
  isSpace ch = false -> exists r', TrimSpace (String ch r) = String ch r'.
Proof.
  intros Hc. unfold TrimSpace. cbn [TrimLeft]. rewrite Hc.
  apply (TrimRight_head "" ch r Hc).
Qed.

(** ** The mask loop *)


Lemma le_pow64 (n : nat) : (n <= 256)%nat -> (n <= 2 ^ 64)%nat.
Proof.
  intros H. transitivity (2 ^ 8)%nat.
  - change (2 ^ 8)%nat with 256%nat. exact H.
  - apply Nat.pow_le_mono_r; lia.
Qed.

Section MaskLoop.

Variables min hi step : Z.

Lemma maskRun_add (a b : nat) (v m : Z) :
  maskRun (a + b) min hi step v m
  = match maskRun a min hi step v m with
    | Exit r => Exit r
    | Again v' m' => maskRun b min hi step v' m'
    end.
Proof.
  revert v m. induction a as [| a IH]; intros v m; [reflexivity |].
  cbn [Nat.add maskRun]. destruct (maskStep min hi step v m); [reflexivity | apply IH].
Qed.

Lemma maskIter_maskRun (p : positive) (v m : Z) :
  maskIter p min hi step v m = maskRun (Pos.to_nat p) min hi step v m.
Proof.
  revert v m. induction p as [p IH | p IH |]; intros v m.
  - rewrite Pos2Nat.inj_xI. cbn [maskIter maskRun].
    destruct (maskStep min hi step v m) as [r | v1 m1]; [reflexivity |].
    replace (2 * Pos.to_nat p)%nat with (Pos.to_nat p + Pos.to_nat p)%nat by lia.
    rewrite maskRun_add, <- IH.
    destruct (maskIter p min hi step v1 m1); [reflexivity | apply IH].
  - rewrite Pos2Nat.inj_xO. cbn [maskIter].
    replace (2 * Pos.to_nat p)%nat with (Pos.to_nat p + Pos.to_nat p)%nat by lia.
    rewrite maskRun_add, <- IH.
    destruct (maskIter p min hi step v m); [reflexivity | apply IH].
  - change (Pos.to_nat 1) with 1%nat. cbn [maskIter maskRun].
    destruct (maskStep min hi step v m); reflexivity.
Qed.

Lemma maskRun_Exit_more (a b : nat) (v m r : Z) :
  maskRun a min hi step v m = Exit r -> (a <= b)%nat ->
  maskRun b min hi step v m = Exit r.
Proof.
  intros H Hab. replace b with (a + (b - a))%nat by lia.
  rewrite maskRun_add, H. reflexivity.
Qed.

(** The loop exits with [r] as soon as some number of passes below 2^64
    exits with [r]. *)
Lemma maskLoop_Ok (n : nat) (lo m r : Z) :
  maskRun n min hi step lo m = Exit r -> (n <= 2 ^ 64)%nat ->
  maskLoop min hi step lo m = Ok r.
Proof.
  intros H Hn. unfold maskLoop. rewrite maskIter_maskRun.
  rewrite (maskRun_Exit_more n _ lo m r H); [reflexivity |].
  rewrite Pos2Nat.inj_pow. exact Hn.
Qed.

Lemma maskStep_acc (v m : Z) :
  maskStep min hi step v m = mapMask (Z.lor m) (maskStep min hi step v 0).
Proof.
  unfold maskStep. destruct (v <=? hi); cbn [mapMask].
  - rewrite Z.lor_0_l. reflexivity.
  - rewrite Z.lor_0_r. reflexivity.
Qed.

Lemma maskRun_acc (n : nat) (v m : Z) :
  maskRun n min hi step v m = mapMask (Z.lor m) (maskRun n min hi step v 0).
Proof.
  revert v m. induction n as [| n IH]; intros v m.
  - cbn [maskRun mapMask]. rewrite Z.lor_0_r. reflexivity.
  - cbn [maskRun]. rewrite (maskStep_acc v m).
    destruct (maskStep min hi step v 0) as [r | v' m']; cbn [mapMask]; [reflexivity |].
    rewrite (IH v' (Z.lor m m')), (IH v' m').
    destruct (maskRun n min hi step v' 0); cbn [mapMask];
      rewrite Z.lor_assoc; reflexivity.
Qed.

(** The mask built from [m] is [m] or-ed with the mask built from 0. *)
Lemma maskLoop_acc (lo m : Z) :
  maskLoop min hi step lo m = (r ← maskLoop min hi step lo 0; Ok (Z.lor m r)).
Proof.
  unfold maskLoop. rewrite !maskIter_maskRun, (maskRun_acc _ lo m).
  destruct (maskRun _ min hi step lo 0); reflexivity.
Qed.

Lemma mod_step (a : Z) :
  0 < step -> 0 <= a ->
  (a mod step =? 0) = (a =? 0) || ((step <=? a) && ((a - step) mod step =? 0)).
Proof.
  intros Hs Ha.
  replace ((a - step) mod step) with (a mod step)
    by (replace (a - step) with (a + (-1) * step) by lia;
        rewrite Z_mod_plus_full; reflexivity).
  destruct (Z.eqb_spec a 0) as [-> | Hne]; [rewrite Z.mod_0_l by lia; reflexivity |].
  destruct (Z.leb_spec step a) as [Hle | Hlt]; cbn [orb andb]; [reflexivity |].
  rewrite Z.mod_small by lia. destruct (Z.eqb_spec a 0); [lia | reflexivity].
Qed.

Hypothesis Hmin : MinInt <= min.
Hypothesis Hdom : hi - min < 64.
Hypothesis Hstep : 0 < step.
Hypothesis Hmax : hi + step <= MaxInt.

Lemma maskRun_steps (n : nat) (v m : Z) :
  min <= v -> v <= hi + step -> (Z.to_nat (hi - v + 1) < n)%nat ->
  exists r,
    maskRun n min hi step v m = Exit r
    /\ forall i, Z.testbit r i = Z.testbit m i || stepBit min hi step v i.
Proof.
  revert v m. induction n as [| n IH]; intros v m Hv1 Hv2 Hn; [lia |].
  cbn [maskRun]. unfold maskStep. destruct (Z.leb_spec v hi) as [Hle | Hgt].
  - rewrite (wrap_small (v + step)) by (unfold MinInt, MaxInt in *; lia).
    rewrite (wrap_small (v - min)) by (unfold MinInt, MaxInt in *; lia).
    rewrite shl1_small by lia.
    destruct (IH (v + step) (Z.lor m (2 ^ (v - min)))) as (r & -> & Hr);
      [lia | lia | lia |].
    exists r. split; [reflexivity |]. intros i. rewrite Hr, Z.lor_spec.
    rewrite Z.pow2_bits_eqb by lia. rewrite <- orb_assoc. f_equal.
    unfold stepBit.
    destruct (Z.leb_spec (v - min) i) as [H1 | H1]; cbn [andb].
    + rewrite (mod_step (i - (v - min))) by lia.
      replace (i - (v + step - min)) with (i - (v - min) - step) by lia.
      destruct (Z.eqb_spec (v - min) i) as [<- | Hne].
      * rewrite Z.sub_diag. cbn [Z.eqb orb andb].
        destruct (Z.leb_spec (v - min) (hi - min)); [reflexivity | lia].
      * destruct (Z.eqb_spec (i - (v - min)) 0); [lia |]. cbn [orb].
        destruct (Z.leb_spec (v + step - min) i), (Z.leb_spec step (i - (v - min)));
          try lia; cbn [andb]; try reflexivity; rewrite andb_false_r; reflexivity.
    + destruct (Z.eqb_spec (v - min) i); [lia |].
      destruct (Z.leb_spec (v + step - min) i); [lia | reflexivity].
  - exists m. split; [reflexivity |]. intros i. unfold stepBit.
    destruct (Z.leb_spec (v - min) i), (Z.leb_spec i (hi - min)); try lia;
      cbn [andb]; rewrite orb_false_r; reflexivity.
Qed.

(** Without overflow the loop from [min] builds the mask of every
    [step]-th value. *)
Lemma maskLoop_everyNth :
  min <= hi ->
  exists r, maskLoop min hi step min 0 = Ok r /\ everyNth min hi step r.
Proof.
  intros Hle.
  destruct (maskRun_steps (S (Z.to_nat (hi - min + 1))) min 0) as (r & Hrun & Hr);
    [lia | lia | lia |].
  exists r. split.
  - apply (maskLoop_Ok _ _ _ _ Hrun). apply le_pow64. lia.
  - intros i. rewrite Hr, Z.bits_0. cbn [orb]. unfold stepBit.
    rewrite Z.sub_diag, Z.sub_0_r, !andb_true_iff, !Z.leb_le, Z.eqb_eq. tauto.
Qed.

End MaskLoop.

(** ** Numbers and names *)


Lemma byte_range (ch : ascii) : 0 <= byte ch < 256.
Proof.
  unfold byte. pose proof (N_ascii_bounded ch). lia.
Qed.

Lemma lower_isLetter (ch : ascii) : isLetter (lower ch) = isLetter ch.
Proof. destruct ch as [[] [] [] [] [] [] [] []]; reflexivity. Qed.

Lemma allOf_isLetter_ToLower (s : string) :
  allOf isLetter (ToLower s) = allOf isLetter s.
Proof.
  induction s as [| ch s IH]; [reflexivity |].
  cbn [ToLower allOf]. rewrite lower_isLetter, IH. reflexivity.
Qed.

Lemma ToLower_blank (s : string) : ToLower s = "" -> s = "".
Proof. destruct s; [reflexivity | discriminate]. Qed.

Lemma table_keys (l : list (string * Z)) (k : string) (v : Z) :
  Forall (fun kv => allOf isLetter kv.1 = true /\ kv.1 <> "") l ->
  (list_to_map l : gmap string Z) !! k = Some v ->
  allOf isLetter k = true /\ k <> "".
Proof.
  intros Hl Hk. apply elem_of_list_to_map_2 in Hk.
  rewrite Forall_forall in Hl. exact (Hl (k, v) Hk).
Qed.

(** A string that one of the name tables knows is made of letters. *)
Lemma lookupName_letters (names : option (gmap string Z)) (s : string) (v : Z) :
  nameTable names -> lookupName names s = Some v ->
  allOf isLetter s = true /\ s <> "".
Proof.
  intros [-> | [-> | ->]]; cbn [lookupName]; [discriminate | |]; intros H.
  - apply table_keys in H.
    + rewrite allOf_isLetter_ToLower in H. destruct H as [H1 H2].
      split; [exact H1 |]. intros ->. apply H2. reflexivity.
    + repeat constructor; discriminate.
  - apply table_keys in H.
    + rewrite allOf_isLetter_ToLower in H. destruct H as [H1 H2].
      split; [exact H1 |]. intros ->. apply H2. reflexivity.
    + repeat constructor; discriminate.
Qed.

Lemma digit_test (ch : ascii) :
  (byte ch <? 48) || (57 <? byte ch) = negb (isDigit ch).
Proof.
  unfold isDigit.
  destruct (Z.ltb_spec (byte ch) 48), (Z.ltb_spec 57 (byte ch)),
    (Z.leb_spec 48 (byte ch)), (Z.leb_spec (byte ch) 57); try lia; reflexivity.
Qed.

Lemma digitsLoop_digits (s : string) (n v : Z) :
  digitsLoop s n = Some v -> allOf isDigit s = true.
Proof.
  revert n. induction s as [| ch s IH]; intros n; [reflexivity |].
  cbn [digitsLoop allOf]. rewrite digit_test.
  destruct (isDigit ch); cbn [negb andb]; [apply IH | discriminate].
Qed.

Lemma digitsLoop_fails (s : string) (n : Z) :
  allOf isDigit s = false -> digitsLoop s n = None.
Proof.
  intros H. destruct (digitsLoop s n) eqn:E; [| reflexivity].
  apply digitsLoop_digits in E. congruence.
Qed.

(** Below 2^63 the loop of [parseNumber] computes the decimal value. *)
Lemma digitsLoop_decimal (s : string) (n v : Z) :
  0 <= n -> decimalFrom s n = Some v -> v <= MaxInt ->
  digitsLoop s n = Some v /\ n <= v.
Proof.
  revert n. induction s as [| ch s IH]; intros n Hn.
  - cbn. intros [= ->] _. split; [reflexivity | lia].
  - cbn [decimalFrom digitsLoop]. rewrite digit_test.
    destruct (isDigit ch) eqn:Ed; cbn [negb]; [| discriminate].
    intros Hd Hv.
    assert (Hb : 48 <= byte ch <= 57).
    { unfold isDigit in Ed. apply andb_true_iff in Ed as [E1 E2].
      apply Z.leb_le in E1, E2. lia. }
    destruct (IH (n * 10 + (byte ch - 48)) ltac:(lia) Hd Hv) as [E Hle].
    rewrite wrap_small by (unfold MinInt, MaxInt in *; lia).
    rewrite E. split; [reflexivity | lia].
Qed.

Lemma decimalFrom_digits (s : string) (n : Z) :
  decimalFrom s n = None <-> allOf isDigit s = false.
Proof.
  revert n. induction s as [| ch s IH]; intros n; cbn [decimalFrom allOf].
  - split; discriminate.
  - destruct (isDigit ch); cbn [andb]; [apply IH | split; reflexivity].
Qed.

Lemma letters_not_digits (s : string) :
  allOf isLetter s = true -> s <> "" -> allOf isDigit s = false.
Proof.
  destruct s as [| ch s]; [contradiction |]. cbn [allOf]. intros H _.
  apply andb_true_iff in H as [H _].
  replace (isDigit ch) with false; [reflexivity |].
  unfold isLetter, isDigit in *.
  destruct (Z.leb_spec 48 (byte ch)), (Z.leb_spec (byte ch) 57),
    (Z.leb_spec 65 (byte ch)), (Z.leb_spec (byte ch) 90),
    (Z.leb_spec 97 (byte ch)), (Z.leb_spec (byte ch) 122);
    cbn in *; try reflexivity; try discriminate; lia.
Qed.

(** What [parseNumber] returns: the table's value for a name, the
    decimal value for a numeral below 2^63, an error for a string that
    is neither a name nor a numeral. *)
Lemma parseNumber_name (names : option (gmap string Z)) (s : string) (v : Z) :
  lookupName names (TrimSpace s) = Some v -> parseNumber s names = Ok v.
Proof. intros H. unfold parseNumber. rewrite H. reflexivity. Qed.

Lemma parseNumber_decimal (names : option (gmap string Z)) (s : string) (v : Z) :
  nameTable names -> decimal (TrimSpace s) = Some v -> v <= MaxInt ->
  parseNumber s names = Ok v.
Proof.
  intros Hn Hd Hv. unfold parseNumber.
  destruct (TrimSpace s) as [| ch r] eqn:E; [discriminate |].
  cbn [decimal] in Hd.
  destruct (lookupName names (String ch r)) as [w |] eqn:El.
  - apply (lookupName_letters names _ _ Hn) in El as [El _].
    apply letters_not_digits in El; [| discriminate].
    apply decimalFrom_digits with (n := 0) in El. congruence.
  - cbn [String.eqb]. apply digitsLoop_decimal in Hd as [-> _]; [reflexivity | lia | exact Hv].
Qed.

Lemma parseNumber_not_a_number (names : option (gmap string Z)) (s : string) :
  lookupName names (TrimSpace s) = None -> decimal (TrimSpace s) = None ->
  isErr (parseNumber s names) = true.
Proof.
  intros Hl Hd. unfold parseNumber. rewrite Hl.
  destruct (TrimSpace s) as [| ch r] eqn:E; [reflexivity |].
  cbn [String.eqb]. cbn [decimal] in Hd. apply decimalFrom_digits in Hd.
  rewrite (digitsLoop_fails _ 0 Hd). reflexivity.
Qed.

(** When [parseNumber] succeeds the trimmed text is a name or digits. *)
Lemma parseNumber_Ok_text (names : option (gmap string Z)) (s : string) (v : Z) :
  nameTable names -> parseNumber s names = Ok v ->
  TrimSpace s <> ""
  /\ (allOf isLetter (TrimSpace s) = true \/ allOf isDigit (TrimSpace s) = true).
Proof.
  intros Hn. unfold parseNumber.
  destruct (lookupName names (TrimSpace s)) as [w |] eqn:El.
  - intros _. apply (lookupName_letters names _ _ Hn) in El as [E1 E2]. auto.
  - destruct (TrimSpace s) as [| ch r]; [discriminate |]. cbn [String.eqb].
    destruct (digitsLoop (String ch r) 0) as [n |] eqn:Ed; [| discriminate].
    intros _. apply digitsLoop_digits in Ed. split; [discriminate | auto].
Qed.

(** ** [parseField]: wildcards and steps *)

Lemma parseNumber_TrimRight (s : string) (names : option (gmap string Z)) :
  parseNumber (TrimRight s) names = parseNumber s names.
Proof. unfold parseNumber. rewrite TrimSpace_TrimRight. reflexivity. Qed.

Lemma parseNumber_TrimSpace (s : string) (names : option (gmap string Z)) :
  parseNumber (TrimSpace s) names = parseNumber s names.
Proof. unfold parseNumber. rewrite TrimSpace_idem. reflexivity. Qed.

(** The branch of [parseField] for a field that starts with ["*/"]. *)
Lemma parseField_star_slash (tok : string) (min max : Z)
    (names : option (gmap string Z)) :
  parseField ("*/" +:+ tok) min max names
  = match parseNumber tok names with
    | Ok step =>
        if step <=? 0 then Err (InvalidStep ("*/" +:+ TrimRight tok))
        else m ← maskLoop min max step min 0; Ok (m, false)
    | Err _ => Err (InvalidStep ("*/" +:+ TrimRight tok))
    | Diverges => Diverges
    | Panics => Panics
    end.
Proof.
  unfold parseField.
  change ("*/" +:+ tok) with ("*" +:+ String "/" tok).
  rewrite (TrimSpace_app_sep "*" tok "/" eq_refl).
  change (TrimLeft "*" +:+ String "/" (TrimRight tok))
    with (String "*" (String "/" (TrimRight tok))).
  cbn [String.eqb Ascii.eqb Bool.eqb HasPrefix String.prefix sliceFrom].
  destruct (ascii_dec "*" "*") as [_ | Hne]; [| contradiction].
  destruct (ascii_dec "/" "/") as [_ | Hne]; [| contradiction].
  replace (String.prefix "" (TrimRight tok)) with true
    by (destruct (TrimRight tok); reflexivity).
  rewrite parseNumber_TrimRight. reflexivity.
Qed.

Lemma testbit_one (i : Z) : Z.testbit 1 i = (i =? 0).
Proof.
  change 1 with (2 ^ 0). destruct (Z.ltb_spec i 0) as [H | H].
  - rewrite Z.testbit_neg_r by lia. destruct (Z.eqb_spec i 0); [lia | reflexivity].
  - rewrite Z.pow2_bits_eqb by lia. apply Z.eqb_sym.
Qed.

(** A step that jumps past [hi] at once leaves the bit of [min] alone. *)
Lemma maskLoop_big_step (min hi step : Z) :
  MinInt <= min -> min <= hi -> hi - min < 64 ->
  hi < min + step -> min + step <= MaxInt ->
  maskLoop min hi step min 0 = Ok 1 /\ everyNth min hi step 1.
Proof.
  intros H1 H2 H3 H4 H5. split.
  - apply (maskLoop_Ok min hi step 2); [| apply le_pow64; lia].
    cbn [maskRun]. unfold maskStep.
    destruct (Z.leb_spec min hi); [| lia].
    rewrite wrap_small by (unfold MinInt, MaxInt in *; lia).
    destruct (Z.leb_spec (min + step) hi); [lia |].
    rewrite Z.sub_diag. reflexivity.
  - intros i. rewrite testbit_one, Z.eqb_eq. split.
    + intros ->. rewrite Z.mod_0_l by lia. lia.
    + intros [Hi Hm]. rewrite Z.mod_small in Hm by lia. exact Hm.
Qed.

Lemma fieldDomain_inv (min max : Z) (names : option (gmap string Z)) :
  fieldDomain min max names ->
  (min = 0 \/ min = 1) /\ min <= max < 64 /\ nameTable names.
Proof.
  unfold nameTable.
  intros [H | [H | [H | [H | H]]]]; simplify_eq; (split; [lia | split; [lia | auto]]).
Qed.

(** On the field domains every positive step gives the mask of every
    [step]-th value. *)
Lemma fieldDomain_step_mask (min max : Z) (names : option (gmap string Z))
    (step : Z) :
  fieldDomain min max names -> 0 < step <= MaxInt ->
  exists m, maskLoop min max step min 0 = Ok m /\ everyNth min max step m.
Proof.
  intros Hd Hs.
  destruct (fieldDomain_inv min max names Hd) as (Hmin & [Hle Hmax] & _).
  destruct (Z.le_gt_cases (max + step) MaxInt) as [Hsmall | Hbig].
  - apply maskLoop_everyNth; unfold MinInt; lia.
  - destruct (Z.le_gt_cases (min + step) MaxInt) as [Hfit | Hover].
    + exists 1. apply maskLoop_big_step; unfold MinInt, MaxInt in *; lia.
    + assert (min = 1 /\ step = MaxInt) as [-> ->] by lia.
      destruct Hd as [H | [H | [H | [H | H]]]]; simplify_eq;
        (exists 1; split; [vm_compute; reflexivity |]);
        intros i; rewrite testbit_one, Z.eqb_eq; unfold MaxInt; split;
        [ intros ->; split; [lia | reflexivity]
        | intros [Hi Hm]; rewrite Z.mod_small in Hm by lia; exact Hm
        | intros ->; split; [lia | reflexivity]
        | intros [Hi Hm]; rewrite Z.mod_small in Hm by lia; exact Hm ].
Qed.

Lemma table_values (l : list (string * Z)) (k : string) (v : Z) :
  Forall (fun kv => 0 <= kv.2 <= 12) l ->
  (list_to_map l : gmap string Z) !! k = Some v -> 0 <= v <= 12.
Proof.
  intros Hl Hk. apply elem_of_list_to_map_2 in Hk.
  rewrite Forall_forall in Hl. exact (Hl (k, v) Hk).
Qed.

Lemma lookupName_range (names : option (gmap string Z)) (s : string) (v : Z) :
  nameTable names -> lookupName names s = Some v -> 0 <= v <= 12.
Proof.
  intros [-> | [-> | ->]]; cbn [lookupName]; [discriminate | |]; intros H;
    apply table_values in H; [exact H | | exact H |];
    repeat constructor; cbn; lia.
Qed.

(** C7 (counterexample). The step token ["feb"] is not numeric, and the
    month field ["*/feb"] parses, to the mask of every second month. *)
Lemma parseField_step_name_counterexample :
  decimal "feb" = None
  /\ parseField "*/feb" 1 12 (Some monNames) = Ok (1365, false).
Proof. split; vm_compute; reflexivity. Qed.

(** C7 (amended). On every field domain the field ["*/" tok] is read
    through [parseNumber]: when the trimmed token is a name of the
    field's table its value [v] is the step, when it is a decimal numeral
    its value [n] is; a positive step (below 2^63) gives the mask of every
    step-th value from [min] through [max], a step of zero or less and a
    token that is neither a name nor a numeral give a parse error.
    The token is one of ASCII characters, on which [TrimSpace] and
    [ToLower] are the functions of Go. *)
Theorem parseField_step (min max : Z) (names : option (gmap string Z))
    (tok : string) :
  fieldDomain min max names -> isASCII tok = true ->
  match lookupName names (TrimSpace tok), decimal (TrimSpace tok) with
  | Some v, _ =>
      if 0 <? v
      then exists m, parseField ("*/" +:+ tok) min max names = Ok (m, false)
                     /\ everyNth min max v m
      else isErr (parseField ("*/" +:+ tok) min max names) = true
  | None, Some n =>
      if 0 <? n
      then n <= MaxInt ->
           exists m, parseField ("*/" +:+ tok) min max names = Ok (m, false)
                     /\ everyNth min max n m
      else isErr (parseField ("*/" +:+ tok) min max names) = true
  | None, None => isErr (parseField ("*/" +:+ tok) min max names) = true
  end.
Proof.
  intros Hd _.
  destruct (fieldDomain_inv min max names Hd) as (_ & _ & Hn).
  rewrite parseField_star_slash.
  destruct (lookupName names (TrimSpace tok)) as [v |] eqn:El.
  - rewrite (parseNumber_name names tok v El).
    destruct (Z.ltb_spec 0 v) as [Hpos | Hneg].
    + destruct (Z.leb_spec v 0); [lia |].
      destruct (fieldDomain_step_mask min max names v Hd) as (m & -> & Hm).
      { pose proof (lookupName_range names _ v Hn El). unfold MaxInt. lia. }
      exists m. split; [reflexivity | exact Hm].
    + destruct (Z.leb_spec v 0); [reflexivity | lia].
  - destruct (decimal (TrimSpace tok)) as [n |] eqn:Edec.
    + destruct (Z.ltb_spec 0 n) as [Hpos | Hneg].
      * intros Hmax.
        rewrite (parseNumber_decimal names tok n Hn Edec Hmax).
        destruct (Z.leb_spec n 0); [lia |].
        destruct (fieldDomain_step_mask min max names n Hd) as (m & -> & Hm); [lia |].
        exists m. split; [reflexivity | exact Hm].
      * assert (Hmax : n <= MaxInt) by (unfold MaxInt; lia).
        rewrite (parseNumber_decimal names tok n Hn Edec Hmax).
        destruct (Z.leb_spec n 0); [reflexivity | lia].
    + pose proof (parseNumber_not_a_number names tok El Edec) as He.
      destruct (parseNumber tok names); try discriminate. reflexivity.
Qed.

(** The minute field ["*/15"]: no name table, the numeral 15, and the
    mask of the minutes 0, 15, 30 and 45. *)
Lemma parseField_step_witness :
  exists m, parseField "*/15" 0 59 None = Ok (m, false) /\ everyNth 0 59 15 m.
Proof.
  apply (parseField_step 0 59 None "15").
  - left. reflexivity.
  - reflexivity.
  - vm_compute. discriminate.
Defined.

(** The list branch of [parseField] never reports a wildcard. *)
Lemma parseField_star_flag (field : string) (min max : Z)
    (names : option (gmap string Z)) (m : Z) :
  parseField field min max names = Ok (m, true) ->
  TrimSpace field = "*" \/ TrimSpace field = "?".
Proof.
  unfold parseField.
  destruct (String.eqb_spec (TrimSpace field) "") as [_ | _]; [discriminate |].
  destruct (String.eqb_spec (TrimSpace field) "?") as [E | _]; [auto |].
  destruct (String.eqb_spec (TrimSpace field) "*") as [E | _]; [auto |].
  destruct (HasPrefix (TrimSpace field) "*/").
  - destruct (parseNumber _ names) as [step | | |]; try discriminate.
    destruct (step <=? 0); [discriminate |].
    destruct (maskLoop min max step min 0); discriminate.
  - destruct (parseList _ min max names _ 0); discriminate.
Qed.


(** C10. [parseField] reports a wildcard only for a field that is ["*"]
    or ["?"] once trimmed.  On every field domain ["*"], ["?"] and
    ["*/1"] give the same mask, the one of the whole domain, with the
    flag true for the first two and false for ["*/1"].  A schedule whose
    day-of-month is the full mask without the flag (and whose day-of-week
    is not a wildcard) matches every day, by the disjunction; with the
    flag it matches by the day-of-week bit alone: ["0 0 */1 * 1"]
    matches every day, ["0 0 * * 1"] the Mondays. *)
Theorem parseField_wildcard_flag :
  (forall field min max names m,
     parseField field min max names = Ok (m, true) ->
     TrimSpace field = "*" \/ TrimSpace field = "?")
  /\ (forall min max names,
        fieldDomain min max names ->
        parseField "*" min max names = Ok (Z.ones (max - min + 1), true)
        /\ parseField "?" min max names = Ok (Z.ones (max - min + 1), true)
        /\ parseField "*/1" min max names = Ok (Z.ones (max - min + 1), false))
  /\ (forall s t,
        Dom s = Z.ones 31 -> domStar s = false -> dowStar s = false ->
        dayMatches s t = true)
  /\ (forall s t,
        domStar s = true -> dowStar s = false ->
        dayMatches s t = Z.testbit (Dow s) (GoTime.weekdayOf t))
  /\ ParseSpec "0 0 */1 * 1" false = Ok mondayStepSchedule
  /\ ParseSpec "0 0 * * 1" false = Ok mondaySchedule
  /\ (forall t, dayMatches mondayStepSchedule t = true)
  /\ (forall t, dayMatches mondaySchedule t = (GoTime.weekdayOf t =? 1)).
Proof.
  split; [exact parseField_star_flag |].
  split.
  { intros min max names [H | [H | [H | [H | H]]]]; simplify_eq;
      vm_compute; repeat split; reflexivity. }
  assert (Hfull : forall s t, Dom s = Z.ones 31 -> domStar s = false ->
                  dowStar s = false -> dayMatches s t = true).
  { intros s t Hdom H1 H2. rewrite dayMatches_table, H1, H2, Hdom.
    pose proof (dayOf_range t).
    rewrite testbit_ones by lia.
    destruct (Z.ltb_spec (GoTime.dayOf t - 1) 31); [reflexivity | lia]. }
  assert (Hdow : forall s t, domStar s = true -> dowStar s = false ->
                 dayMatches s t = Z.testbit (Dow s) (GoTime.weekdayOf t)).
  { intros s t H1 H2. rewrite dayMatches_table, H1, H2. reflexivity. }
  split; [exact Hfull |]. split; [exact Hdow |].
  split; [vm_compute; reflexivity |]. split; [vm_compute; reflexivity |].
  split.
  - intros t. apply Hfull; reflexivity.
  - intros t. rewrite Hdow by reflexivity. cbn [Dow mondaySchedule].
    change 2 with (2 ^ 1). pose proof (weekdayOf_range t).
    rewrite Z.pow2_bits_eqb by lia. apply Z.eqb_sym.
Qed.

(** The day-of-month field [" * "] is reported as a wildcard, and is
    ["*"] once trimmed. *)
Lemma parseField_wildcard_flag_witness :
  TrimSpace " * " = "*" \/ TrimSpace " * " = "?".
Proof.
  apply (proj1 parseField_wildcard_flag " * " 1 31 None (Z.ones 31)).
  vm_compute. reflexivity.
Defined.

(** ** The day-of-week rewrite *)

Lemma ReplaceAll_clean (s : string) (old new : ascii) :
  Contains s old = false -> ReplaceAll s old new = s.
Proof.
  induction s as [| ch s IH]; [reflexivity |].
  cbn [Contains ReplaceAll]. intros H. apply orb_false_iff in H as [H1 H2].
  rewrite H1, (IH H2). reflexivity.
Qed.

Lemma ReplaceAll_removes (s : string) (old new : ascii) :
  old <> new -> Contains (ReplaceAll s old new) old = false.
Proof.
  intros Hne. induction s as [| ch s IH]; [reflexivity |].
  cbn [ReplaceAll Contains]. rewrite IH, orb_false_r.
  destruct (Ascii.eqb_spec ch old) as [-> | H]; apply Ascii.eqb_neq; congruence.
Qed.

Lemma dowRaw_ReplaceAll (raw : string) : dowRaw raw = ReplaceAll raw "7" "0".
Proof.
  unfold dowRaw. destruct (Contains raw "7") eqn:E; [reflexivity |].
  symmetry. apply ReplaceAll_clean. exact E.
Qed.

Lemma dowRaw_idem (raw : string) : dowRaw (dowRaw raw) = dowRaw raw.
Proof.
  rewrite (dowRaw_ReplaceAll raw). unfold dowRaw at 1.
  rewrite ReplaceAll_removes by discriminate. reflexivity.
Qed.

(** C6. The day-of-week field is parsed from its raw text with every
    byte ['7'] replaced by ['0']: the result of [parseWithSeconds] is the
    one for the rewritten text, in which no ['7'] is left.  So ["7"],
    ["0"] and ["sun"] give the same schedule, with the Sunday bit, and
    ["6-7"] gives what ["6-0"] gives, which is the error of a range whose
    start is above its end.  The rewrite comes before the step is read:
    ["*/7"] is the invalid step ["*/0"]. *)
Theorem dow_seven_rewritten :
  (forall f0 f1 f2 f3 f4 raw,
     parseWithSeconds [f0; f1; f2; f3; f4; raw]
     = parseWithSeconds [f0; f1; f2; f3; f4; ReplaceAll raw "7" "0"]
     /\ Contains (ReplaceAll raw "7" "0") "7" = false)
  /\ (forall f0 f1 f2 f3 f4 raw s,
        parseWithSeconds [f0; f1; f2; f3; f4; raw] = Ok s ->
        exists star, parseField (ReplaceAll raw "7" "0") 0 6 (Some dowNames)
                     = Ok (Dow s, star))
  /\ ParseSpec "0 0 * * 7" false = Ok sundaySchedule
  /\ ParseSpec "0 0 * * 0" false = Ok sundaySchedule
  /\ ParseSpec "0 0 * * sun" false = Ok sundaySchedule
  /\ Dow sundaySchedule = 2 ^ 0
  /\ ParseSpec "0 0 * * 6-7" false = ParseSpec "0 0 * * 6-0" false
  /\ ParseSpec "0 0 * * 6-7" false = Err (Wrapped "dow" (OutOfBounds 0 6 6 0))
  /\ ParseSpec "0 0 * * */7" false = Err (Wrapped "dow" (InvalidStep "*/0")).
Proof.
  split; [| split].
  - intros f0 f1 f2 f3 f4 raw. split; [| apply ReplaceAll_removes; discriminate].
    unfold parseWithSeconds. rewrite <- (dowRaw_ReplaceAll raw), dowRaw_idem.
    reflexivity.
  - intros f0 f1 f2 f3 f4 raw s H. unfold parseWithSeconds in H.
    apply bind_Ok in H as ([sec st0] & _ & H).
    apply bind_Ok in H as ([minute st1] & _ & H).
    apply bind_Ok in H as ([hour st2] & _ & H).
    apply bind_Ok in H as ([dom st3] & _ & H).
    apply bind_Ok in H as ([month st4] & _ & H).
    apply bind_Ok in H as ([dow st5] & H5 & H).
    injection H as <-. cbn [Dow]. exists st5.
    apply wrapErr_Ok in H5. rewrite <- dowRaw_ReplaceAll. exact H5.
  - vm_compute. repeat split; reflexivity.
Qed.

(** The second part of the theorem at the field ["7"] of ["* 0 0 * * 7"]. *)
Lemma dow_seven_rewritten_witness :
  exists star, parseField (ReplaceAll "7" "7" "0") 0 6 (Some dowNames)
               = Ok (Dow sundaySchedule, star).
Proof.
  apply (proj1 (proj2 dow_seven_rewritten) "*" "0" "0" "*" "*" "7").
  vm_compute. reflexivity.
Defined.

(** ** Lists of atoms *)


Section Atoms.

Variables min max : Z.
Variable names : option (gmap string Z).

Lemma parseAtom_atomMask (field p : string) (m r : Z) :
  parseAtom field min max names p m = Ok r
  <-> exists mp, atomMask min max names p = Ok mp /\ r = Z.lor m mp.
Proof.
  unfold atomMask, parseAtom.
  destruct (String.eqb (TrimSpace p) ""); [split; [discriminate | intros (? & ? & _); discriminate] |].
  destruct (atomStep (TrimSpace p) names) as [[rng step] | e | |]; cbn;
    try (split; [discriminate | intros (? & ? & _); discriminate]).
  destruct (atomRange rng names) as [[lo hi] | e | |]; cbn;
    try (split; [discriminate | intros (? & ? & _); discriminate]).
  destruct ((lo <? min) || (max <? hi) || (hi <? lo));
    [split; [discriminate | intros (? & ? & _); discriminate] |].
  rewrite (maskLoop_acc min hi step lo m).
  destruct (maskLoop min hi step lo 0) as [r0 | e | |]; cbn;
    try (split; [discriminate | intros (? & ? & _); discriminate]).
  split.
  - intros [= <-]. exists r0. split; reflexivity.
  - intros (mp & [= <-] & ->). reflexivity.
Qed.

Lemma atomMask_TrimSpace (p : string) :
  atomMask min max names (TrimSpace p) = atomMask min max names p.
Proof. unfold atomMask, parseAtom. rewrite TrimSpace_idem. reflexivity. Qed.

Lemma parseList_Ok (field : string) (ps : list string) (m r : Z) :
  parseList field min max names ps m = Ok r
  <-> exists ms,
        Forall2 (fun p mp => atomMask min max names p = Ok mp) ps ms
        /\ r = Z.lor m (orAll ms).
Proof.
  revert m. induction ps as [| p ps IH]; intros m; cbn [parseList].
  - split.
    + intros [= <-]. exists []. split; [constructor |]. cbn. rewrite Z.lor_0_r. reflexivity.
    + intros (ms & H & ->). inversion H; subst. cbn. rewrite Z.lor_0_r. reflexivity.
  - split.
    + intros H. apply bind_Ok in H as (m1 & H1 & H2).
      apply parseAtom_atomMask in H1 as (mp & Hp & ->).
      apply IH in H2 as (ms & Hms & ->).
      exists (mp :: ms). split; [constructor; assumption |].
      cbn. rewrite Z.lor_assoc. reflexivity.
    + intros (ms & H & ->). inversion H as [| ? mp ? ms' Hp Hms]; subst.
      assert (H1 : parseAtom field min max names p m = Ok (Z.lor m mp))
        by (apply parseAtom_atomMask; eauto).
      rewrite H1. cbn. apply IH. exists ms'. split; [exact Hms |].
      cbn. rewrite Z.lor_assoc. reflexivity.
Qed.

Lemma atomMask_fmap_TrimSpace (ps : list string) (ms : list Z) :
  Forall2 (fun p mp => atomMask min max names p = Ok mp) (TrimSpace <$> ps) ms
  <-> Forall2 (fun p mp => atomMask min max names p = Ok mp) ps ms.
Proof.
  rewrite Forall2_fmap_l.
  split; intros H; (eapply Forall2_impl; [exact H |]); intros p mp;
    cbn; rewrite atomMask_TrimSpace; trivial.
Qed.

Lemma atomMask_functional (ps : list string) (ms1 ms2 : list Z) :
  Forall2 (fun p mp => atomMask min max names p = Ok mp) ps ms1 ->
  Forall2 (fun p mp => atomMask min max names p = Ok mp) ps ms2 ->
  ms1 = ms2.
Proof.
  intros H1. revert ms2. induction H1 as [| p m1 ps ms1 Hp _ IH]; intros ms2 H2.
  - inversion H2. reflexivity.
  - inversion H2 as [| ? m2 ? ms2' Hp2 Hms2]; subst.
    f_equal; [congruence | apply IH; exact Hms2].
Qed.

(** The list branch of [parseField]. *)
Lemma parseField_list (field : string) (ch : ascii) (r : string) :
  TrimSpace field = String ch r -> ch <> "*"%char -> ch <> "?"%char ->
  parseField field min max names
  = (m ← parseList (TrimSpace field) min max names (Split (TrimSpace field) ",") 0;
     Ok (m, false)).
Proof.
  intros E H1 H2. unfold parseField. rewrite E.
  cbn [String.eqb]. apply Ascii.eqb_neq in H1 as H1', H2 as H2'.
  rewrite H2'. cbn [String.eqb]. rewrite H1'.
  unfold HasPrefix. cbn [String.prefix].
  destruct (ascii_dec "*" ch) as [<- | _]; [contradiction | reflexivity].
Qed.

Hypothesis Hnames : nameTable names.

Lemma sliceTo_head (k : nat) (ch : ascii) (r : string) :
  sliceTo k (String ch r) = "" \/ exists q, sliceTo k (String ch r) = String ch q.
Proof. destruct k; cbn; eauto. Qed.

Lemma parseNumber_head (q : string) (ch : ascii) (r : string) (v : Z) :
  q = "" \/ (exists q', q = String ch q') ->
  isSpace ch = false ->
  parseNumber q names = Ok v ->
  isLetter ch || isDigit ch = true.
Proof.
  intros Hq Hc Hp. apply (parseNumber_Ok_text names q v Hnames) in Hp as [Hne Hp].
  destruct Hq as [-> | (q' & ->)]; [contradiction |].
  destruct (TrimSpace_keeps_head ch q' Hc) as (t & Et). rewrite Et in Hp.
  cbn [allOf] in Hp. rewrite !andb_true_iff in Hp. apply orb_true_iff. tauto.
Qed.

(** An atom that parses starts, once trimmed, with a letter or a digit. *)
Lemma atomMask_head (p : string) (mp : Z) :
  atomMask min max names p = Ok mp ->
  exists ch r, TrimSpace p = String ch r /\ isLetter ch || isDigit ch = true.
Proof.
  unfold atomMask, parseAtom.
  destruct (TrimSpace p) as [| ch r] eqn:E; [discriminate |].
  cbn [String.eqb]. intros H. exists ch, r. split; [reflexivity |].
  pose proof (TrimSpace_head p ch r E) as Hc.
  apply bind_Ok in H as ([rng step] & Hs & H).
  apply bind_Ok in H as ([lo hi] & Hr & _).
  assert (Hrng : rng = "" \/ exists q, rng = String ch q).
  { unfold atomStep in Hs. destruct (IndexByte (String ch r) "/") as [slash |].
    - destruct (parseNumber _ names) as [st | | |]; try discriminate.
      destruct (st <=? 0); [discriminate |]. injection Hs as <- _.
      apply sliceTo_head.
    - injection Hs as <- _. eauto. }
  unfold atomRange in Hr. destruct (IndexByte rng "-") as [dash |].
  - apply bind_Ok in Hr as (v1 & Hv1 & _).
    apply (parseNumber_head _ ch r v1) in Hv1; [exact Hv1 | | exact Hc].
    destruct Hrng as [-> | (q & ->)]; [left; destruct dash; reflexivity |].
    destruct (sliceTo_head dash ch q) as [-> | (q' & ->)]; eauto.
  - apply bind_Ok in Hr as (v & Hv & _).
    apply (parseNumber_head _ ch r v) in Hv; [exact Hv | exact Hrng | exact Hc].
Qed.

Lemma letter_or_digit (ch : ascii) :
  isLetter ch || isDigit ch = true ->
  ch <> "*"%char /\ ch <> "?"%char /\ ch <> ","%char.
Proof. intros H. repeat split; intros ->; discriminate. Qed.

(** An atom without a comma that parses is a field that parses, to the
    same mask. *)
Lemma atomMask_parseField (p : string) (mp : Z) :
  Contains p "," = false -> atomMask min max names p = Ok mp ->
  parseField p min max names = Ok (mp, false).
Proof.
  intros Hc Hp. destruct (atomMask_head p mp Hp) as (ch & r & E & Hch).
  apply letter_or_digit in Hch as (H1 & H2 & _).
  rewrite (parseField_list p ch r E H1 H2).
  rewrite Split_no_sep by (rewrite Contains_TrimSpace; [exact Hc | reflexivity]).
  cbn [parseList].
  assert (H : parseAtom (TrimSpace p) min max names (TrimSpace p) 0 = Ok (Z.lor 0 mp)).
  { apply parseAtom_atomMask. exists mp. rewrite atomMask_TrimSpace. auto. }
  rewrite H. reflexivity.
Qed.

Lemma allOf_Contains (f : ascii -> bool) (s : string) (ch : ascii) :
  allOf f s = true -> f ch = false -> Contains s ch = false.
Proof.
  intros Hs Hc. induction s as [| d s IH]; [reflexivity |].
  cbn [allOf] in Hs. apply andb_true_iff in Hs as [Hd Hs].
  cbn [Contains]. rewrite (IH Hs), orb_false_r.
  apply Ascii.eqb_neq. intros ->. congruence.
Qed.

Lemma parseNumber_no_comma (s : string) (v : Z) :
  parseNumber s names = Ok v -> Contains s "," = false.
Proof.
  intros H. apply (parseNumber_Ok_text names s v Hnames) in H as [_ H].
  rewrite <- (Contains_TrimSpace s ",") by reflexivity.
  destruct H as [H | H]; apply (allOf_Contains _ _ _ H); reflexivity.
Qed.

Lemma HasPrefix_star_slash (s : string) :
  HasPrefix s "*/" = true -> exists r, s = String "*" (String "/" r).
Proof.
  unfold HasPrefix. destruct s as [| c1 [| c2 r]]; cbn [String.prefix].
  - discriminate.
  - destruct (ascii_dec "*" c1); discriminate.
  - destruct (ascii_dec "*" c1) as [<- |]; [| discriminate].
    destruct (ascii_dec "/" c2) as [<- |]; [| discriminate]. eauto.
Qed.

Lemma Split_two_Contains (s : string) (sep : ascii) :
  (2 <= length (Split s sep))%nat -> Contains s sep = true.
Proof.
  intros H. destruct (Contains s sep) eqn:E; [reflexivity |].
  rewrite (Split_no_sep s sep E) in H. cbn in H. lia.
Qed.

(** A field with two atoms or more that parses went through the list
    branch: its atoms parse one by one and its mask is their union. *)
Lemma parseField_atoms (field : string) (m : Z) (st : bool) :
  (2 <= length (atoms field))%nat ->
  parseField field min max names = Ok (m, st) ->
  st = false
  /\ exists ms,
       Forall2 (fun p mp => atomMask min max names p = Ok mp) (atoms field) ms
       /\ m = orAll ms.
Proof.
  intros Hlen. rewrite <- (atoms_TrimSpace field) in Hlen |- *.
  unfold atoms in Hlen. rewrite length_fmap in Hlen.
  pose proof (Split_two_Contains _ _ Hlen) as Hcomma.
  unfold parseField.
  destruct (String.eqb_spec (TrimSpace field) "") as [E | _]; [discriminate |].
  destruct (String.eqb_spec (TrimSpace field) "?") as [E | _];
    [rewrite E in Hcomma; discriminate |].
  destruct (String.eqb_spec (TrimSpace field) "*") as [E | _];
    [rewrite E in Hcomma; discriminate |].
  destruct (HasPrefix (TrimSpace field) "*/") eqn:Hpre.
  - apply HasPrefix_star_slash in Hpre as (r & E). rewrite E in *.
    cbn [sliceFrom]. cbn [Contains Ascii.eqb Bool.eqb orb] in Hcomma.
    destruct (parseNumber r names) as [step | | |] eqn:Hp; try discriminate.
    apply parseNumber_no_comma in Hp. congruence.
  - intros H. apply bind_Ok in H as (m' & H & [= <- <-]).
    split; [reflexivity |].
    apply parseList_Ok in H as (ms & Hms & ->).
    exists ms. split; [| apply Z.lor_0_l].
    unfold atoms. apply atomMask_fmap_TrimSpace. exact Hms.
Qed.

(** Conversely, two atoms or more that parse make a field that parses. *)
Lemma atoms_parseField (field : string) (ms : list Z) :
  (2 <= length (atoms field))%nat ->
  Forall2 (fun p mp => atomMask min max names p = Ok mp) (atoms field) ms ->
  parseField field min max names = Ok (orAll ms, false).
Proof.
  intros Hlen Hms. rewrite <- (atoms_TrimSpace field) in Hlen, Hms.
  unfold atoms in Hlen, Hms. rewrite length_fmap in Hlen.
  apply (proj1 (atomMask_fmap_TrimSpace _ _)) in Hms.
  assert (Hhead : exists ch r, TrimSpace field = String ch r
                               /\ isLetter ch || isDigit ch = true).
  { destruct (TrimSpace field) as [| ch r] eqn:E; [cbn in Hlen; lia |].
    exists ch, r. split; [reflexivity |].
    pose proof (TrimSpace_head field ch r E) as Hc.
    rewrite Split_cons in Hms. destruct (Ascii.eqb ch ",").
    - inversion Hms as [| ? mp ? ms' Hp _]; subst. discriminate.
    - pose proof (Split_nonempty r ",") as Hne.
      destruct (Split r ",") as [| h t]; [contradiction |].
      inversion Hms as [| ? mp ? ms' Hp _]; subst.
      destruct (atomMask_head _ _ Hp) as (c' & r' & E' & Hc').
      destruct (TrimSpace_keeps_head ch h Hc) as (t' & Et).
      rewrite Et in E'. injection E' as <- _. exact Hc'. }
  destruct Hhead as (ch & r & E & Hch).
  apply letter_or_digit in Hch as (H1 & H2 & _).
  rewrite (parseField_list field ch r E H1 H2).
  assert (H : parseList (TrimSpace field) min max names (Split (TrimSpace field) ",") 0
              = Ok (Z.lor 0 (orAll ms)))
    by (apply parseList_Ok; eauto).
  rewrite H. reflexivity.
Qed.

End Atoms.

Lemma orAll_app (xs ys : list Z) : orAll (xs ++ ys) = Z.lor (orAll xs) (orAll ys).
Proof.
  induction xs as [| x xs IH]; cbn; [reflexivity |].
  unfold orAll in IH. rewrite IH, Z.lor_assoc. reflexivity.
Qed.

Lemma atoms_length (field : string) : (1 <= length (atoms field))%nat.
Proof.
  unfold atoms. rewrite length_fmap.
  pose proof (Split_nonempty field ","). destruct (Split field ","); [contradiction |].
  cbn. lia.
Qed.

Lemma atomMask_parseField_all (min max : Z) (names : option (gmap string Z))
    (ps : list string) (ms : list Z) :
  nameTable names ->
  Forall (fun p => Contains p "," = false) ps ->
  Forall2 (fun p mp => atomMask min max names p = Ok mp) ps ms ->
  Forall2 (fun p mp => parseField p min max names = Ok (mp, false)) ps ms.
Proof.
  intros Hn Hc H. induction H as [| p mp ps ms Hp _ IH]; [constructor |].
  inversion Hc; subst. constructor; [| apply IH; assumption].
  apply atomMask_parseField; assumption.
Qed.

(** C9. With the name table of a field (or none) and any bounds: the
    mask of a field that parses is the bitwise or of the masks of its
    comma-separated atoms, each parsed as a field of its own; when
    ["a,b"] parses, ["b,a"] parses to the same mask; when ["a,a"] parses,
    ["a"] parses to the same mask. *)
Theorem parseField_union (min max : Z) (names : option (gmap string Z)) :
  nameTable names ->
  (forall field m st,
     isASCII field = true ->
     parseField field min max names = Ok (m, st) ->
     exists ms,
       Forall2 (fun p mp => parseField p min max names = Ok (mp, st))
               (Split field ",") ms
       /\ m = orAll ms)
  /\ (forall a b m st,
        isASCII a = true -> isASCII b = true ->
        parseField (a +:+ "," +:+ b) min max names = Ok (m, st) ->
        parseField (b +:+ "," +:+ a) min max names = Ok (m, st))
  /\ (forall a m st,
        isASCII a = true ->
        parseField (a +:+ "," +:+ a) min max names = Ok (m, st) ->
        parseField a min max names = Ok (m, st)).
Proof.
  intros Hn. split; [| split].
  - intros field m st _ H.
    destruct (Split field ",") as [| h [| h2 t]] eqn:Es.
    + exfalso. exact (Split_nonempty field "," Es).
    + apply Split_singleton in Es as [-> _]. exists [m].
      split; [repeat constructor; exact H |]. cbn. rewrite Z.lor_0_r. reflexivity.
    + assert (Hlen : (2 <= length (atoms field))%nat)
        by (unfold atoms; rewrite Es; cbn; lia).
      destruct (parseField_atoms min max names Hn field m st Hlen H)
        as (-> & ms & Hms & ->).
      exists ms. split; [| reflexivity].
      unfold atoms in Hms. apply (proj1 (atomMask_fmap_TrimSpace _ _ _ _ _)) in Hms.
      rewrite <- Es. apply atomMask_parseField_all; [exact Hn | | exact Hms].
      apply Split_elements.
  - intros a b m st _ _ H.
    change (a +:+ "," +:+ b) with (a +:+ String "," b) in H.
    change (b +:+ "," +:+ a) with (b +:+ String "," a).
    pose proof (atoms_length a) as La. pose proof (atoms_length b) as Lb.
    assert (Hlen : (2 <= length (atoms (a +:+ String "," b)))%nat)
      by (rewrite atoms_app, length_app; lia).
    destruct (parseField_atoms min max names Hn _ m st Hlen H)
      as (-> & ms & Hms & ->).
    rewrite atoms_app in Hms.
    apply Forall2_app_inv_l in Hms as (ms1 & ms2 & H1 & H2 & ->).
    rewrite orAll_app, Z.lor_comm, <- orAll_app.
    apply atoms_parseField; [exact Hn | rewrite atoms_app, length_app; lia |].
    rewrite atoms_app. apply Forall2_app; assumption.
  - intros a m st _ H.
    change (a +:+ "," +:+ a) with (a +:+ String "," a) in H.
    pose proof (atoms_length a) as La.
    assert (Hlen : (2 <= length (atoms (a +:+ String "," a)))%nat)
      by (rewrite atoms_app, length_app; lia).
    destruct (parseField_atoms min max names Hn _ m st Hlen H)
      as (-> & ms & Hms & ->).
    rewrite atoms_app in Hms.
    apply Forall2_app_inv_l in Hms as (ms1 & ms2 & H1 & H2 & ->).
    rewrite (atomMask_functional min max names _ _ _ H2 H1).
    rewrite orAll_app, Z.lor_diag.
    destruct (Split a ",") as [| h [| h2 t]] eqn:Es.
    + exfalso. exact (Split_nonempty a "," Es).
    + apply Split_singleton in Es as [-> Hc].
      unfold atoms in H1. rewrite (Split_no_sep a "," Hc) in H1.
      inversion H1 as [| ? mp ? ms' Hp Hnil]; subst. inversion Hnil; subst.
      rewrite atomMask_TrimSpace in Hp. cbn. rewrite Z.lor_0_r.
      apply atomMask_parseField; assumption.
    + apply atoms_parseField; [exact Hn | | exact H1].
      unfold atoms. rewrite Es. cbn. lia.
Qed.

(** The minute field ["1-3,5"] parses to the mask 46 of 1, 2, 3 and 5,
    and so does ["5,1-3"]. *)
Lemma parseField_union_witness :
  parseField "5,1-3" 0 59 None = Ok (46, false).
Proof.
  apply (proj1 (proj2 (parseField_union 0 59 None (or_introl eq_refl)))
           "1-3" "5" 46 false eq_refl eq_refl).
  vm_compute. reflexivity.
Defined.

(** ** Parsing returns *)


Lemma wrap_range (z : Z) : MinInt <= wrap z <= MaxInt.
Proof. unfold wrap, MinInt, MaxInt. Z.div_mod_to_equations. lia. Qed.

Lemma wrap_over (z : Z) : MaxInt < z <= MaxInt + 2 ^ 63 -> wrap z = z - 2 ^ 64.
Proof. unfold wrap, MaxInt. intros H. Z.div_mod_to_equations. lia. Qed.

Section MaskLoopExits.

Variables min hi step : Z.
Hypothesis Hmin : 0 <= min.
Hypothesis Hhi : hi < 64.
Hypothesis Hstep : 0 < step <= MaxInt.

(** With a step so large that [v + step] overflows, the loop comes back
    below [v] after two passes, or leaves. *)
Lemma maskRun_exits_big (k : nat) :
  MaxInt < hi + step ->
  forall v m, 0 <= v <= hi -> (Z.to_nat v <= k)%nat ->
  exists n r, (n <= 2 * k + 4)%nat /\ maskRun n min hi step v m = Exit r.
Proof.
  intros Hbig. induction k as [k IH] using lt_wf_ind. intros v m Hv Hk.
  destruct (Z.le_gt_cases (v + step) MaxInt) as [Hfit | Hover].
  - exists 2%nat, (Z.lor m (shl1 (wrap (v - min)))). split; [lia |].
    cbn [maskRun]. unfold maskStep.
    destruct (Z.leb_spec v hi); [| lia].
    rewrite (wrap_small (v + step)) by (unfold MinInt, MaxInt in *; lia).
    destruct (Z.leb_spec (v + step) hi); [unfold MaxInt in *; lia | reflexivity].
  - set (m1 := Z.lor m (shl1 (wrap (v - min)))).
    set (v1 := v + step - 2 ^ 64).
    set (m2 := Z.lor m1 (shl1 (wrap (v1 - min)))).
    set (v2 := v + 2 * step - 2 ^ 64).
    assert (H2 : maskRun 2 min hi step v m = Again v2 m2).
    { cbn [maskRun]. unfold maskStep.
      destruct (Z.leb_spec v hi); [| lia].
      rewrite (wrap_over (v + step)) by (unfold MaxInt in *; lia).
      fold v1 m1. destruct (Z.leb_spec v1 hi); [| unfold MaxInt in *; lia].
      rewrite (wrap_small (v1 + step)) by (unfold MinInt, MaxInt in *; lia).
      unfold v2, v1. f_equal. lia. }
    destruct (Z.le_gt_cases 0 v2) as [Hpos | Hneg].
    + destruct (IH (Z.to_nat v2) ltac:(unfold v2, MaxInt in *; lia) v2 m2
                  ltac:(unfold v2, MaxInt in *; lia) ltac:(lia)) as (n & r & Hn & Hr).
      exists (2 + n)%nat, r. split; [unfold v2, MaxInt in *; lia |].
      rewrite maskRun_add, H2. exact Hr.
    + exists (2 + 2)%nat, (Z.lor m2 (shl1 (wrap (v2 - min)))). split; [lia |].
      rewrite maskRun_add, H2. cbn [maskRun]. unfold maskStep.
      destruct (Z.leb_spec v2 hi); [| lia].
      rewrite (wrap_small (v2 + step)) by (unfold v2, MinInt, MaxInt in *; lia).
      destruct (Z.leb_spec (v2 + step) hi); [unfold v2, MaxInt in *; lia | reflexivity].
Qed.

(** On a domain below 64 the loop leaves, whatever the positive step. *)
Lemma maskLoop_returns (lo m : Z) :
  min <= lo <= hi -> exists r, maskLoop min hi step lo m = Ok r.
Proof.
  intros Hlo. destruct (Z.le_gt_cases (hi + step) MaxInt) as [Hsmall | Hbig].
  - destruct (maskRun_steps min hi step ltac:(unfold MinInt; lia) ltac:(lia)
                ltac:(lia) Hsmall (S (Z.to_nat (hi - lo + 1))) lo m)
      as (r & Hr & _); [lia | lia | lia |].
    exists r. apply (maskLoop_Ok _ _ _ _ _ _ _ Hr). apply le_pow64. lia.
  - destruct (maskRun_exits_big (Z.to_nat lo) Hbig lo m ltac:(lia) ltac:(lia))
      as (n & r & Hn & Hr).
    exists r. apply (maskLoop_Ok _ _ _ _ _ _ _ Hr). apply le_pow64. lia.
Qed.

End MaskLoopExits.

Lemma digitsLoop_range (s : string) (n v : Z) :
  MinInt <= n <= MaxInt -> digitsLoop s n = Some v -> MinInt <= v <= MaxInt.
Proof.
  revert n. induction s as [| ch s IH]; intros n Hn; cbn [digitsLoop].
  - intros [= <-]. exact Hn.
  - destruct ((byte ch <? 48) || (57 <? byte ch)); [discriminate |].
    apply IH. apply wrap_range.
Qed.

Lemma parseNumber_range (names : option (gmap string Z)) (s : string) (v : Z) :
  nameTable names -> parseNumber s names = Ok v -> MinInt <= v <= MaxInt.
Proof.
  intros Hn. unfold parseNumber.
  destruct (lookupName names (TrimSpace s)) as [w |] eqn:El.
  - intros [= <-]. pose proof (lookupName_range names _ w Hn El).
    unfold MinInt, MaxInt. lia.
  - destruct (String.eqb (TrimSpace s) ""); [discriminate |].
    destruct (digitsLoop (TrimSpace s) 0) as [n |] eqn:Ed; [| discriminate].
    intros [= <-]. apply (digitsLoop_range (TrimSpace s) 0 n); [unfold MinInt, MaxInt; lia | exact Ed].
Qed.

Lemma parseNumber_returned (names : option (gmap string Z)) (s : string) :
  returned (parseNumber s names) = true.
Proof.
  unfold parseNumber. destruct (lookupName names (TrimSpace s)); [reflexivity |].
  destruct (String.eqb (TrimSpace s) ""); [reflexivity |].
  destruct (digitsLoop (TrimSpace s) 0); reflexivity.
Qed.

Lemma bind_returned {A B : Type} (r : result A) (k : A -> result B) :
  returned r = true -> (forall a, returned (k a) = true) ->
  returned (mbind k r) = true.
Proof. destruct r; cbn; auto. Qed.

Lemma atomRange_returned (names : option (gmap string Z)) (rng : string) :
  returned (atomRange rng names) = true.
Proof.
  unfold atomRange. destruct (IndexByte rng "-").
  - apply bind_returned; [apply parseNumber_returned | intros v1].
    apply bind_returned; [apply parseNumber_returned | reflexivity].
  - apply bind_returned; [apply parseNumber_returned | reflexivity].
Qed.

Lemma atomStep_returned (names : option (gmap string Z)) (p : string) :
  returned (atomStep p names) = true.
Proof.
  unfold atomStep. destruct (IndexByte p "/"); [| reflexivity].
  pose proof (parseNumber_returned names (sliceFrom (S n) p)) as H.
  destruct (parseNumber _ names) as [st | | |]; try discriminate H; [| reflexivity].
  destruct (st <=? 0); reflexivity.
Qed.

Lemma atomStep_range (names : option (gmap string Z)) (p rng : string) (step : Z) :
  nameTable names -> atomStep p names = Ok (rng, step) -> 0 < step <= MaxInt.
Proof.
  intros Hn. unfold atomStep. destruct (IndexByte p "/").
  - destruct (parseNumber _ names) as [st | | |] eqn:Ep; try discriminate.
    destruct (Z.leb_spec st 0); [discriminate |]. intros [= _ <-].
    pose proof (parseNumber_range names _ st Hn Ep). lia.
  - intros [= _ <-]. unfold MaxInt. lia.
Qed.

Section ParsingReturns.

Variables min max : Z.
Variable names : option (gmap string Z).
Hypothesis Hdom : fieldDomain min max names.

Lemma parseAtom_returned (field p : string) (m : Z) :
  returned (parseAtom field min max names p m) = true.
Proof.
  destruct (fieldDomain_inv min max names Hdom) as (Hmin & Hmax & Hn).
  unfold parseAtom. destruct (String.eqb (TrimSpace p) ""); [reflexivity |].
  pose proof (atomStep_returned names (TrimSpace p)) as Hs.
  destruct (atomStep (TrimSpace p) names) as [[rng step] | e | |] eqn:Es;
    try discriminate Hs; [| reflexivity].
  pose proof (atomStep_range names _ _ _ Hn Es) as Hstep. cbn.
  pose proof (atomRange_returned names rng) as Hr.
  destruct (atomRange rng names) as [[lo hi] | e | |];
    try discriminate Hr; [| reflexivity].
  cbn. destruct (Z.ltb_spec lo min), (Z.ltb_spec max hi), (Z.ltb_spec hi lo);
    cbn [orb]; try reflexivity.
  destruct (maskLoop_returns min hi step ltac:(lia) ltac:(lia) Hstep lo m
              ltac:(lia)) as (r & ->). reflexivity.
Qed.

Lemma parseList_returned (field : string) (ps : list string) (m : Z) :
  returned (parseList field min max names ps m) = true.
Proof.
  revert m. induction ps as [| p ps IH]; intros m; [reflexivity |].
  cbn [parseList]. apply bind_returned; [apply parseAtom_returned | apply IH].
Qed.

(** On a field domain [parseField] returns: no loop of it runs on. *)
Lemma parseField_returned (field : string) :
  returned (parseField field min max names) = true.
Proof.
  destruct (fieldDomain_inv min max names Hdom) as (Hmin & Hmax & Hn).
  unfold parseField. destruct (String.eqb (TrimSpace field) ""); [reflexivity |].
  destruct (String.eqb (if String.eqb (TrimSpace field) "?" then "*" else TrimSpace field) "*").
  - unfold mustMask.
    destruct (fieldDomain_step_mask min max names 1 Hdom ltac:(unfold MaxInt; lia))
      as (r & -> & _). reflexivity.
  - destruct (HasPrefix _ "*/").
    + pose proof (parseNumber_returned names
        (sliceFrom 2 (if String.eqb (TrimSpace field) "?" then "*" else TrimSpace field))) as H1.
      destruct (parseNumber _ names) as [step | | |] eqn:Ep; try discriminate H1;
        [| reflexivity].
      destruct (Z.leb_spec step 0); [reflexivity |].
      pose proof (parseNumber_range names _ step Hn Ep).
      destruct (fieldDomain_step_mask min max names step Hdom ltac:(lia))
        as (r & -> & _). reflexivity.
    + apply bind_returned; [apply parseList_returned | reflexivity].
Qed.

End ParsingReturns.

Lemma wrapErr_returned {A : Type} (ctx : string) (r : result A) :
  returned (wrapErr ctx r) = returned r.
Proof. destruct r; reflexivity. Qed.

(** [ParseSpec] returns for every spec: none of its loops runs on and
    [parseWithSeconds] is given its six fields. *)
Lemma ParseSpec_returned (spec : string) (withSeconds : bool) :
  returned (ParseSpec spec withSeconds) = true.
Proof.
  assert (H6 : forall f, length f = 6%nat -> returned (parseWithSeconds f) = true).
  { intros f Hf. destruct f as [| f0 [| f1 [| f2 [| f3 [| f4 [| f5 [|]]]]]]];
      try discriminate.
    unfold parseWithSeconds.
    repeat (apply bind_returned;
            [rewrite wrapErr_returned; apply parseField_returned;
             unfold fieldDomain; tauto | intros [? ?]]).
    reflexivity. }
  unfold ParseSpec.
  destruct (negb withSeconds && negb (length (Fields spec) =? 5)%nat); [reflexivity |].
  match goal with
  | |- context [parseWithSeconds ?f] =>
      destruct (Nat.eqb_spec (length f) 6) as [E | E]; cbn [negb];
      [apply H6; exact E | reflexivity]
  end.
Qed.

(** ** The scenarios of the package's tests

    The tests of the package that exercise the parser and the forward
    search, evaluated on the definitions above (with the local time zone
    being UTC): the parsed masks of [TestParser_Parse] and
    [TestParser_Parse_OptionalSeconds], the refused spec of
    [TestParser_Parse_Invalid], the four instants of
    [TestSchedule_Matches], and the first ticks of
    [TestCron_Tick_MinuteResolution] and
    [TestCron_Tick_SecondResolution]. *)

Lemma tests_ParseSpec :
  ParseSpec "0 12 15 6 *" false = Ok noonSchedule
  /\ Minute noonSchedule = 1 /\ Hour noonSchedule = 4096
  /\ Dom noonSchedule = 16384 /\ Month noonSchedule = 32
  /\ isErr (ParseSpec "bad cron expression" true) = true
  /\ (s ← ParseSpec "0 0 1 1 *" true; Ok (Second s)) = Ok 1.
Proof. vm_compute. repeat split; reflexivity. Qed.

Lemma tests_Matches :
  fieldsMatch noonSchedule false (GoTime.Date 2024 6 15 12 0 0 0) = true
  /\ fieldsMatch noonSchedule false (GoTime.Date 2024 6 15 12 1 0 0) = false
  /\ fieldsMatch noonSchedule false (GoTime.Date 2024 6 15 13 0 0 0) = false
  /\ fieldsMatch noonSchedule false (GoTime.Date 2024 6 16 12 0 0 0) = false.
Proof. vm_compute. repeat split; reflexivity. Qed.

Lemma tests_Tick (now : Time) :
  (exists x,
     New "0 12 15 6 *" [WithStartFrom (GoTime.Date 2024 6 15 11 59 0 0)] now = Ok x
     /\ Next 1 x (from x) = Some (GoTime.Date 2024 6 15 12 0 0 0))
  /\ (exists x,
        New "5 0 12 15 6 *"
            [WithSeconds; WithStartFrom (GoTime.Date 2024 6 15 12 0 4 0)] now = Ok x
        /\ Next 1 x (from x) = Some (GoTime.Date 2024 6 15 12 0 5 0)).
Proof.
  split; eexists; (split; [vm_compute; reflexivity | vm_compute; reflexivity]).
Qed.

(** ** [mustMask] and [nextAllowed] *)

Lemma tzFrom_spec (n : nat) (i x : Z) :
  i <= tzFrom n i x <= i + Z.of_nat n
  /\ (forall j, i <= j < tzFrom n i x -> Z.testbit x j = false)
  /\ (tzFrom n i x < i + Z.of_nat n -> Z.testbit x (tzFrom n i x) = true).
Proof.
  revert i. induction n as [| n IH]; intros i; cbn [tzFrom].
  - split; [lia |]. split; [intros j Hj; lia | lia].
  - destruct (Z.testbit x i) eqn:E.
    + split; [lia |]. split; [intros j Hj; lia | intros _; exact E].
    + destruct (IH (i + 1)) as (H1 & H2 & H3).
      split; [lia |]. split.
      * intros j Hj. destruct (Z.eq_dec j i) as [-> | Hne]; [exact E |].
        apply H2. lia.
      * intros H. apply H3. lia.
Qed.

(** A word with a set bit below 64 has its lowest set bit at
    [TrailingZeros64]. *)
Lemma TrailingZeros64_spec (x k : Z) :
  0 <= k < 64 -> Z.testbit x k = true ->
  0 <= TrailingZeros64 x <= k
  /\ Z.testbit x (TrailingZeros64 x) = true
  /\ forall j, 0 <= j < TrailingZeros64 x -> Z.testbit x j = false.
Proof.
  intros Hk Hx. unfold TrailingZeros64.
  destruct (tzFrom_spec 64 0 x) as (H1 & H2 & H3).
  assert (Hle : tzFrom 64 0 x <= k).
  { destruct (Z.le_gt_cases (tzFrom 64 0 x) k) as [H | H]; [exact H |].
    rewrite (H2 k) in Hx by lia. discriminate. }
  split; [lia |]. split; [apply H3; lia | exact H2].
Qed.

Lemma nonzero_bit (x n : Z) :
  0 <= n -> 0 <= x < 2 ^ n -> x <> 0 -> exists k, 0 <= k < n /\ Z.testbit x k = true.
Proof.
  intros Hn Hx Hne. exists (Z.log2 x).
  assert (Hpos : 0 < x) by lia.
  split; [| apply Z.bit_log2; exact Hpos].
  split; [apply Z.log2_nonneg |]. apply Z.log2_lt_pow2; lia.
Qed.

Lemma bits_below (x n : Z) :
  0 <= n -> (forall i, Z.testbit x i = true -> 0 <= i < n) -> 0 <= x < 2 ^ n.
Proof.
  intros Hn H.
  assert (Hx : 0 <= x).
  { destruct (Z.le_gt_cases 0 x) as [Hx | Hx]; [exact Hx |].
    apply Z.bits_iff_neg_ex in Hx as (k & Hk).
    specialize (Hk (Z.max (k + 1) n) ltac:(lia)). apply H in Hk. lia. }
  split; [exact Hx |].
  destruct (Z.eq_dec x 0) as [-> | Hne]; [apply Z.pow_pos_nonneg; lia |].
  apply Z.log2_lt_pow2; [lia |].
  apply H. apply Z.bit_log2. lia.
Qed.

Lemma testbit_below (x n i : Z) :
  0 <= x < 2 ^ n -> Z.testbit x i = true -> 0 <= i < n.
Proof.
  intros Hx Hi. split.
  - destruct (Z.le_gt_cases 0 i) as [H | H]; [exact H |].
    rewrite Z.testbit_neg_r in Hi by lia. discriminate.
  - destruct (Z.lt_ge_cases i n) as [H | H]; [exact H |].
    destruct (Z.eq_dec x 0) as [-> | Hne]; [rewrite Z.bits_0 in Hi; discriminate |].
    rewrite Z.bits_above_log2 in Hi; [discriminate | lia |].
    assert (Z.log2 x < n); [| lia].
    destruct (Z.le_gt_cases 0 n); [apply Z.log2_lt_pow2; lia |].
    rewrite Z.pow_neg_r in Hx by lia. lia.
Qed.

(** [nextAllowed] on a field domain, the mask within it, the current
    value at most [max]. *)
Lemma nextAllowed_spec (mask cur min max : Z) :
  0 <= min -> max <= MaxInt -> max - min < 64 -> MinInt <= cur <= max ->
  0 < mask < 2 ^ (max - min + 1) ->
  let cur' := Z.max cur min in
  let '(v, w) := nextAllowed mask cur min max in
  min <= v <= max
  /\ Z.testbit mask (v - min) = true
  /\ if w
     then (forall u, cur' <= u -> Z.testbit mask (u - min) = false)
          /\ (forall u, min <= u < v -> Z.testbit mask (u - min) = false)
     else cur' <= v
          /\ forall u, cur' <= u < v -> Z.testbit mask (u - min) = false.
Proof.
  intros Hmin Hmax Hdom Hcur Hmask. cbv zeta. unfold nextAllowed.
  destruct (Z.eqb_spec mask 0) as [E | _]; [lia |].
  assert (Hc : (if cur <? min then min else cur) = Z.max cur min)
    by (destruct (Z.ltb_spec cur min); lia).
  rewrite Hc. set (c := Z.max cur min).
  assert (Hle : min <= max).
  { destruct (Z.le_gt_cases min max) as [H | H]; [exact H |].
    destruct (Z.eq_dec (max - min + 1) 0) as [E | E].
    - rewrite E in Hmask. change (2 ^ 0) with 1 in Hmask. lia.
    - rewrite Z.pow_neg_r in Hmask by lia. lia. }
  assert (Hcr : min <= c <= max) by (unfold c; lia).
  rewrite (wrap_small (c - min)) by (unfold MinInt, MaxInt in *; lia).
  rewrite shr_small by lia.
  assert (Hmask' : 0 <= mask < 2 ^ (max - min + 1)) by (split; [lia | apply Hmask]).
  assert (Hm0 : mask <> 0) by lia.
  destruct (nonzero_bit mask (max - min + 1) ltac:(lia) Hmask' Hm0)
    as (k0 & Hk0 & Hb0).
  destruct (TrailingZeros64_spec mask k0 ltac:(lia) Hb0) as (Ht1 & Ht2 & Ht3).
  pose proof (fun i => testbit_below mask (max - min + 1) i Hmask') as Hbits.
  clear Hmask Hmask'.
  destruct (Z.eqb_spec (Z.shiftr mask (c - min)) 0) as [E | Hne]; cbn [negb].
  - rewrite (wrap_small (min + _)) by (unfold MinInt, MaxInt in *; lia).
    replace (min + TrailingZeros64 mask - min) with (TrailingZeros64 mask) by lia.
    split; [lia |]. split; [exact Ht2 |]. split.
    + intros u Hu. replace (u - min) with (u - c + (c - min)) by lia.
      rewrite <- Z.shiftr_spec by lia. rewrite E. apply Z.bits_0.
    + intros u Hu. apply Ht3. lia.
  - set (sh := Z.shiftr mask (c - min)) in *.
    assert (Hsh : 0 <= sh < 2 ^ (max - c + 1)).
    { apply bits_below; [lia |]. intros i Hi.
      assert (0 <= i).
      { destruct (Z.le_gt_cases 0 i) as [H | H]; [exact H |].
        rewrite Z.testbit_neg_r in Hi by lia. discriminate. }
      unfold sh in Hi. rewrite Z.shiftr_spec in Hi by lia.
      apply Hbits in Hi. lia. }
    destruct (nonzero_bit sh (max - c + 1) ltac:(lia) Hsh Hne) as (k & Hk & Hb).
    clear Hsh.
    destruct (TrailingZeros64_spec sh k ltac:(lia) Hb) as (Hs1 & Hs2 & Hs3).
    rewrite (wrap_small (c + _)) by (unfold MinInt, MaxInt in *; lia).
    split; [lia |]. split.
    + change (Z.testbit (Z.shiftr mask (c - min)) (TrailingZeros64 sh) = true) in Hs2.
      rewrite Z.shiftr_spec in Hs2 by lia.
      replace (c + TrailingZeros64 sh - min) with (TrailingZeros64 sh + (c - min)) by lia.
      exact Hs2.
    + split; [lia |]. intros u Hu.
      replace (u - min) with (u - c + (c - min)) by lia.
      rewrite <- Z.shiftr_spec by lia. apply Hs3. lia.
Qed.

Lemma ones_bits (m n : Z) :
  0 <= n -> (forall i, Z.testbit m i = true <-> 0 <= i < n) -> m = Z.ones n.
Proof.
  intros Hn H. apply Z.bits_inj'. intros i Hi.
  rewrite testbit_ones by lia.
  destruct (Z.ltb_spec i n) as [Hlt | Hge].
  - apply H. lia.
  - destruct (Z.testbit m i) eqn:E; [apply H in E; lia | reflexivity].
Qed.

(** X1. [mustMask(min, max)] is the mask of the whole domain: its bits 0
    to [max - min] are set and no other, when the domain has at most 64
    values and [max] is below the largest [int]; on an empty domain
    ([max < min]) the mask is 0. *)
Theorem mustMask_domain (min max : Z) :
  MinInt <= min -> max < MaxInt -> max - min < 64 ->
  mustMask min max = Ok (if min <=? max then Z.ones (max - min + 1) else 0).
Proof.
  intros Hmin Hmax Hdom. unfold mustMask.
  destruct (Z.leb_spec min max) as [Hle | Hgt].
  - destruct (maskLoop_everyNth min max 1 Hmin Hdom ltac:(lia) ltac:(lia) Hle)
      as (r & -> & Hr).
    f_equal. apply ones_bits; [lia |]. intros i. rewrite (Hr i).
    rewrite Z.mod_1_r. lia.
  - apply (maskLoop_Ok min max 1 1); [| apply le_pow64; lia].
    cbn [maskRun]. unfold maskStep.
    destruct (Z.leb_spec min max); [lia | reflexivity].
Qed.

(** The hour domain, and a domain that is empty. *)
Lemma mustMask_domain_witness :
  mustMask 0 23 = Ok (Z.ones 24) /\ mustMask 5 4 = Ok 0.
Proof.
  split.
  - apply (mustMask_domain 0 23); unfold MinInt, MaxInt; lia.
  - apply (mustMask_domain 5 4); unfold MinInt, MaxInt; lia.
Defined.

(** X2. [nextAllowed(mask, cur, min, max)] on a field domain, for a mask
    within the domain and a current value of at most [max] (a value
    below [min] counts as [min]).  For the empty mask it returns [min]
    and reports a wrap.  Otherwise the value [v] returned is allowed; when
    no wrap is reported [v] is the least allowed value from [cur] on,
    [cur] itself included; when a wrap is reported no value from [cur]
    on is allowed and [v] is the least allowed value of the domain. *)
Theorem nextAllowed_least (mask cur min max : Z) :
  0 <= min -> max <= MaxInt -> max - min < 64 -> MinInt <= cur <= max ->
  0 <= mask < 2 ^ (max - min + 1) ->
  let cur' := Z.max cur min in
  let '(v, w) := nextAllowed mask cur min max in
  if mask =? 0 then v = min /\ w = true
  else
    min <= v <= max
    /\ Z.testbit mask (v - min) = true
    /\ if w
       then (forall u, cur' <= u -> Z.testbit mask (u - min) = false)
            /\ (forall u, min <= u < v -> Z.testbit mask (u - min) = false)
       else cur' <= v
            /\ forall u, cur' <= u < v -> Z.testbit mask (u - min) = false.
Proof.
  intros Hmin Hmax Hdom Hcur Hmask. cbv zeta.
  destruct (Z.eqb_spec mask 0) as [-> | Hne].
  - unfold nextAllowed. cbn. split; reflexivity.
  - apply nextAllowed_spec; try assumption. split; [lia | apply Hmask].
Qed.

(** The hours {12} from hour 10 and from hour 13, and the empty mask. *)
Lemma nextAllowed_least_witness :
  (let '(v, w) := nextAllowed (2 ^ 12) 10 0 23 in
   if 2 ^ 12 =? 0 then v = 0 /\ w = true
   else
     0 <= v <= 23
     /\ Z.testbit (2 ^ 12) (v - 0) = true
     /\ if w
        then (forall u, Z.max 10 0 <= u -> Z.testbit (2 ^ 12) (u - 0) = false)
             /\ (forall u, 0 <= u < v -> Z.testbit (2 ^ 12) (u - 0) = false)
        else Z.max 10 0 <= v
             /\ forall u, Z.max 10 0 <= u < v -> Z.testbit (2 ^ 12) (u - 0) = false)
  /\ nextAllowed (2 ^ 12) 10 0 23 = (12, false)
  /\ nextAllowed (2 ^ 12) 13 0 23 = (12, true).
Proof.
  split; [| split; reflexivity].
  apply (nextAllowed_least (2 ^ 12) 10 0 23); unfold MinInt, MaxInt; lia.
Defined.

(** ** [parseNumber] *)

Lemma wrap_affine (n a b : Z) : wrap (wrap n * a + b) = wrap (n * a + b).
Proof.
  unfold wrap. f_equal.
  rewrite (Z.mod_eq (n + 2 ^ 63) (2 ^ 64)) by lia.
  set (k := (n + 2 ^ 63) / 2 ^ 64).
  replace ((n + 2 ^ 63 - 2 ^ 64 * k - 2 ^ 63) * a + b + 2 ^ 63)
    with (n * a + b + 2 ^ 63 + (- k * a) * 2 ^ 64) by lia.
  apply Z_mod_plus_full.
Qed.

Lemma digitsLoop_wrap (s : string) (n v : Z) :
  decimalFrom s n = Some v -> digitsLoop s (wrap n) = Some (wrap v).
Proof.
  revert n. induction s as [| ch s IH]; intros n.
  - cbn. intros [= ->]. reflexivity.
  - cbn [decimalFrom digitsLoop]. rewrite digit_test.
    destruct (isDigit ch); cbn [negb]; [| discriminate].
    intros H. rewrite wrap_affine. apply IH. exact H.
Qed.


(** ** The forms of a list atom *)

Lemma app_nil_string (s : string) : s +:+ "" = s.
Proof. induction s as [| ch s IH]; [reflexivity |]. rewrite app_String, IH. reflexivity. Qed.

Lemma Contains_app (x y : string) (ch : ascii) :
  Contains (x +:+ y) ch = Contains x ch || Contains y ch.
Proof.
  induction x as [| d x IH]; [reflexivity |].
  rewrite app_String. cbn [Contains]. rewrite IH, orb_assoc. reflexivity.
Qed.

Lemma IndexByte_none (x : string) (ch : ascii) :
  Contains x ch = false -> IndexByte x ch = None.
Proof.
  induction x as [| d x IH]; [reflexivity |].
  cbn [Contains IndexByte]. intros H. apply orb_false_iff in H as [-> H].
  rewrite (IH H). reflexivity.
Qed.

Lemma IndexByte_app (x y : string) (ch : ascii) :
  Contains x ch = false ->
  exists k, IndexByte (x +:+ String ch y) ch = Some k
            /\ sliceTo k (x +:+ String ch y) = x
            /\ sliceFrom (S k) (x +:+ String ch y) = y.
Proof.
  induction x as [| d x IH].
  - intros _. exists 0%nat. rewrite app_blank. cbn [IndexByte sliceTo sliceFrom].
    rewrite Ascii.eqb_refl. auto.
  - cbn [Contains]. intros H. apply orb_false_iff in H as [Hd H].
    destruct (IH H) as (k & E1 & E2 & E3). exists (S k).
    rewrite app_String. cbn [IndexByte sliceTo sliceFrom].
    rewrite Hd, E1, E2. cbn. auto.
Qed.

Lemma parseNumber_TrimLeft (s : string) (names : option (gmap string Z)) :
  parseNumber (TrimLeft s) names = parseNumber s names.
Proof. unfold parseNumber. rewrite TrimSpace_TrimLeft. reflexivity. Qed.

Lemma TrimLeft_app (a y : string) :
  TrimLeft a <> "" -> TrimLeft (a +:+ y) = TrimLeft a +:+ y.
Proof.
  induction a as [| ch a IH]; [contradiction |].
  rewrite app_String. cbn [TrimLeft].
  destruct (isSpace ch); [exact IH | reflexivity].
Qed.

Lemma TrimSpace_nonblank (s : string) : TrimSpace s <> "" -> TrimLeft s <> "".
Proof. unfold TrimSpace. intros H E. rewrite E in H. contradiction. Qed.

(** The head of a trimmed text that goes on after a token. *)
Lemma TrimSpace_app_head (a y : string) (ch : ascii) (r : string) :
  TrimSpace a = String ch r -> exists r', TrimSpace (a +:+ y) = String ch r'.
Proof.
  intros E. pose proof (TrimSpace_head a ch r E) as Hc.
  assert (Hne : TrimLeft a <> "") by (apply TrimSpace_nonblank; rewrite E; discriminate).
  unfold TrimSpace in *. rewrite (TrimLeft_app a y Hne).
  destruct (TrimLeft a) as [| d t] eqn:El; [contradiction |].
  pose proof (TrimLeft_head a d t El) as Hd.
  destruct (TrimRight_head "" d t Hd) as (r1 & E1). rewrite E1 in E.
  injection E as -> _. rewrite app_String.
  apply (TrimRight_head "" ch (t +:+ y) Hd).
Qed.

Section AtomForms.

Variables min max : Z.
Variable names : option (gmap string Z).
Hypothesis Hnames : nameTable names.

(** A token that [parseNumber] accepts holds no separator. *)
Lemma parseNumber_no_sep (s : string) (v : Z) (ch : ascii) :
  parseNumber s names = Ok v ->
  isSpace ch = false -> isLetter ch = false -> isDigit ch = false ->
  Contains s ch = false.
Proof.
  intros H Hs Hl Hd. apply (parseNumber_Ok_text names s v Hnames) in H as [_ H].
  rewrite <- (Contains_TrimSpace s ch Hs).
  destruct H as [H | H]; apply (allOf_Contains _ _ _ H); assumption.
Qed.

Lemma atomRange_single (x : string) :
  Contains x "-" = false ->
  atomRange x names = (v ← parseNumber x names; Ok (v, v)).
Proof. intros H. unfold atomRange. rewrite (IndexByte_none x "-" H). reflexivity. Qed.

Lemma atomRange_pair (x y : string) :
  Contains x "-" = false ->
  atomRange (x +:+ String "-" y) names
  = (v1 ← parseNumber x names; v2 ← parseNumber y names; Ok (v1, v2)).
Proof.
  intros H. unfold atomRange.
  destruct (IndexByte_app x y "-" H) as (k & -> & -> & ->). reflexivity.
Qed.

Lemma atomStep_none (p : string) :
  Contains p "/" = false -> atomStep p names = Ok (p, 1).
Proof. intros H. unfold atomStep. rewrite (IndexByte_none p "/" H). reflexivity. Qed.

Lemma atomStep_some (x z : string) :
  Contains x "/" = false ->
  atomStep (x +:+ String "/" z) names
  = match parseNumber z names with
    | Ok st =>
        if st <=? 0 then Err (InvalidStepIn (x +:+ String "/" z)) else Ok (x, st)
    | Err _ => Err (InvalidStepIn (x +:+ String "/" z))
    | Diverges => Diverges
    | Panics => Panics
    end.
Proof.
  intros H. unfold atomStep.
  destruct (IndexByte_app x z "/" H) as (k & -> & -> & ->). reflexivity.
Qed.

(** The range part of an atom, with the first token trimmed on the left:
    what [atomRange] reads from it. *)
Lemma atomRange_text (a : string) (b : option string) (lo hi : Z) :
  parseNumber a names = Ok lo -> rangeToken names b lo hi ->
  atomRange (TrimLeft a +:+ match b with Some b => String "-" b | None => "" end) names
  = Ok (lo, hi).
Proof.
  intros Ha Hb.
  assert (Hdash : Contains (TrimLeft a) "-" = false).
  { rewrite Contains_TrimLeft by reflexivity.
    apply (parseNumber_no_sep a lo); [exact Ha | reflexivity ..]. }
  destruct b as [b |]; cbn [rangeToken] in Hb.
  - rewrite (atomRange_pair _ _ Hdash), parseNumber_TrimLeft, Ha. cbn.
    rewrite Hb. reflexivity.
  - rewrite app_nil_string, (atomRange_single _ Hdash), parseNumber_TrimLeft, Ha.
    subst hi. reflexivity.
Qed.

Lemma rangeText_no_slash (a : string) (b : option string) (lo hi : Z) :
  parseNumber a names = Ok lo -> rangeToken names b lo hi ->
  Contains (a +:+ match b with Some b => String "-" b | None => "" end) "/" = false.
Proof.
  intros Ha Hb. rewrite Contains_app.
  rewrite (parseNumber_no_sep a lo "/" Ha) by reflexivity.
  destruct b as [b |]; cbn [rangeToken] in Hb; [| reflexivity].
  cbn [Contains Ascii.eqb Bool.eqb orb].
  apply (parseNumber_no_sep b hi "/" Hb); reflexivity.
Qed.

Lemma TrimLeft_rangeText (a : string) (b : option string) (lo : Z) :
  parseNumber a names = Ok lo ->
  TrimLeft (a +:+ match b with Some b => String "-" b | None => "" end)
  = TrimLeft a +:+ match b with Some b => String "-" b | None => "" end.
Proof.
  intros Ha. apply TrimLeft_app. apply TrimSpace_nonblank.
  apply (parseNumber_Ok_text names a lo Hnames Ha).
Qed.

(** What the body of the list loop does with an atom of the three
    tokens: the bounds check, then the mask loop. *)
Lemma parseAtom_text (field a : string) (b c : option string)
    (lo hi step m0 : Z) :
  parseNumber a names = Ok lo -> rangeToken names b lo hi ->
  stepToken names c step -> 0 < step ->
  parseAtom field min max names (atomText a b c) m0
  = if (lo <? min) || (max <? hi) || (hi <? lo) then Err (OutOfBounds min max lo hi)
    else maskLoop min hi step lo m0.
Proof.
  intros Ha Hb Hc Hstep. unfold parseAtom, atomText.
  set (rt := match b with Some b => String "-" b | None => "" end).
  pose proof (rangeText_no_slash a b lo hi Ha Hb) as Hslash. fold rt in Hslash.
  pose proof (TrimLeft_rangeText a b lo Ha) as Hleft. fold rt in Hleft.
  destruct (parseNumber_Ok_text names a lo Hnames Ha) as [Hne _].
  destruct (TrimSpace a) as [| ch r] eqn:Ea; [contradiction |].
  destruct c as [c |]; cbn [stepToken] in Hc.
  - rewrite (TrimSpace_app_sep (a +:+ rt) c "/" eq_refl), Hleft.
    destruct (TrimSpace_app_head a (rt +:+ String "/" c) ch r Ea) as (r' & Eh).
    assert (Hnb : (TrimLeft a +:+ rt) +:+ String "/" (TrimRight c) <> "").
    { pose proof (TrimSpace_nonblank a ltac:(rewrite Ea; discriminate)) as Hl.
      destruct (TrimLeft a); [contradiction | discriminate]. }
    destruct (String.eqb_spec ((TrimLeft a +:+ rt) +:+ String "/" (TrimRight c)) "")
      as [E | _]; [contradiction |].
    rewrite atomStep_some by (rewrite <- Hleft, Contains_TrimLeft by reflexivity; exact Hslash).
    rewrite parseNumber_TrimRight, Hc.
    destruct (Z.leb_spec step 0); [lia |]. cbn.
    unfold rt. rewrite (atomRange_text a b lo hi Ha Hb). reflexivity.
  - rewrite app_nil_string.
    assert (Et : TrimSpace (a +:+ rt)
                 = TrimLeft a +:+ match b with
                                  | Some b => String "-" (TrimRight b)
                                  | None => ""
                                  end
                 \/ (b = None /\ TrimSpace (a +:+ rt) = TrimSpace a)).
    { unfold TrimSpace at 1 3. rewrite Hleft. unfold rt. destruct b as [b |].
      - left. apply TrimRight_app_sep. reflexivity.
      - right. split; [reflexivity |]. rewrite app_nil_string. reflexivity. }
    assert (Hnb : TrimSpace (a +:+ rt) <> "").
    { destruct (TrimSpace_app_head a rt ch r Ea) as (r' & ->). discriminate. }
    destruct (String.eqb_spec (TrimSpace (a +:+ rt)) "") as [E | _]; [contradiction |].
    rewrite atomStep_none
      by (rewrite Contains_TrimSpace by reflexivity; exact Hslash).
    cbn. subst step.
    destruct Et as [-> | [-> ->]].
    + assert (Hb' : rangeToken names (TrimRight <$> b) lo hi).
      { destruct b as [b |]; cbn in *; [rewrite parseNumber_TrimRight |]; exact Hb. }
      pose proof (atomRange_text a (TrimRight <$> b) lo hi Ha Hb') as Hr.
      destruct b as [b |]; cbn in Hr; rewrite Hr; reflexivity.
    + cbn [rangeToken] in Hb. subst hi.
      rewrite atomRange_single, parseNumber_TrimSpace, Ha; [reflexivity |].
      rewrite Contains_TrimSpace by reflexivity.
      apply (parseNumber_no_sep a lo); [exact Ha | reflexivity ..].
Qed.

End AtomForms.

Lemma string_app_assoc (x y z : string) : (x +:+ y) +:+ z = x +:+ (y +:+ z).
Proof.
  induction x as [| ch x IH]; [reflexivity |].
  rewrite !app_String, IH. reflexivity.
Qed.

Section AtomFields.

Variables min max : Z.
Variable names : option (gmap string Z).
Hypothesis Hnames : nameTable names.

(** A field that is one atom of the three tokens goes through the list
    branch of [parseField], with the one atom. *)
Lemma parseField_atomText (a : string) (b c : option string) (lo hi step : Z) :
  parseNumber a names = Ok lo -> rangeToken names b lo hi ->
  stepToken names c step ->
  parseField (atomText a b c) min max names
  = (m ← parseAtom (TrimSpace (atomText a b c)) min max names (atomText a b c) 0;
     Ok (m, false)).
Proof.
  intros Ha Hb Hc.
  assert (Hcomma : Contains (atomText a b c) "," = false).
  { unfold atomText. rewrite !Contains_app.
    rewrite (parseNumber_no_sep names Hnames a lo "," Ha) by reflexivity.
    destruct b as [b |], c as [c |]; cbn [rangeToken stepToken] in Hb, Hc;
      cbn [Contains Ascii.eqb Bool.eqb orb];
      try rewrite (parseNumber_no_sep names Hnames b hi "," Hb) by reflexivity;
      try rewrite (parseNumber_no_sep names Hnames c step "," Hc) by reflexivity;
      reflexivity. }
  destruct (parseNumber_Ok_text names a lo Hnames Ha) as [Hne Htext].
  destruct (TrimSpace a) as [| ch r] eqn:Ea; [contradiction |].
  assert (Hch : isLetter ch || isDigit ch = true).
  { cbn [allOf] in Htext. rewrite !andb_true_iff in Htext.
    apply orb_true_iff. tauto. }
  apply letter_or_digit in Hch as (H1 & H2 & _).
  unfold atomText in *.
  set (rb := match b with Some b => String "-" b | None => "" end) in *.
  set (rc := match c with Some c => String "/" c | None => "" end) in *.
  rewrite string_app_assoc in *.
  destruct (TrimSpace_app_head a (rb +:+ rc) ch r Ea) as (r' & Eh).
  rewrite (parseField_list min max names _ ch r' Eh H1 H2).
  rewrite Split_no_sep by (rewrite Contains_TrimSpace by reflexivity; exact Hcomma).
  cbn [parseList]. unfold parseAtom. rewrite TrimSpace_idem.
  match goal with |- _ = (m ← ?x; _) => destruct x; reflexivity end.
Qed.

End AtomFields.

Lemma maskLoop_single (min v : Z) :
  MinInt <= min <= v -> v - min < 64 -> v < MaxInt ->
  maskLoop min v 1 v 0 = Ok (2 ^ (v - min)).
Proof.
  intros H1 H2 H3. apply (maskLoop_Ok min v 1 2); [| apply le_pow64; lia].
  cbn [maskRun]. unfold maskStep.
  destruct (Z.leb_spec v v); [| lia].
  rewrite (wrap_small (v + 1)), (wrap_small (v - min))
    by (unfold MinInt, MaxInt in *; lia).
  destruct (Z.leb_spec (v + 1) v); [lia |].
  rewrite shl1_small by lia. reflexivity.
Qed.

(** X4. With the hypotheses of the three tokens (the first token stands
    for [lo], the second for [hi] or is missing, the step token for a
    positive [step] or is missing) and without overflow, the field
    ["lo-hi/step"] fails with the out-of-bounds error when [lo] is below
    [min], [hi] above [max] or [hi] below [lo], and otherwise gives the
    mask of [lo], [lo + step], ... up to [hi]; a field ["v/step"] with no
    range is the one value [v]. *)
Theorem parseField_atom (min max : Z) (names : option (gmap string Z))
    (a : string) (b c : option string) (lo hi step : Z) :
  nameTable names -> MinInt <= min -> max - min < 64 ->
  parseNumber a names = Ok lo -> rangeToken names b lo hi ->
  stepToken names c step -> 0 < step -> max + step <= MaxInt ->
  if (lo <? min) || (max <? hi) || (hi <? lo)
  then parseField (atomText a b c) min max names = Err (OutOfBounds min max lo hi)
  else exists m,
         parseField (atomText a b c) min max names = Ok (m, false)
         /\ forall i, Z.testbit m i = stepBit min hi step lo i.
Proof.
  intros Hn Hmin Hdom Ha Hb Hc Hstep Hmax.
  rewrite (parseField_atomText min max names Hn a b c lo hi step Ha Hb Hc).
  rewrite (parseAtom_text min max names Hn _ a b c lo hi step 0 Ha Hb Hc Hstep).
  destruct (Z.ltb_spec lo min), (Z.ltb_spec max hi), (Z.ltb_spec hi lo);
    cbn [orb]; try reflexivity.
  destruct (maskRun_steps min hi step Hmin ltac:(lia) Hstep ltac:(lia)
              (S (Z.to_nat (hi - lo + 1))) lo 0) as (r & Hrun & Hr);
    [lia | lia | lia |].
  exists r. rewrite (maskLoop_Ok min hi step _ lo 0 r Hrun) by (apply le_pow64; lia).
  split; [reflexivity |]. intros i. rewrite Hr, Z.bits_0. reflexivity.
Qed.

(** The hour field ["10-20/5"] is the hours 10, 15 and 20. *)
Lemma parseField_atom_witness :
  exists m,
    parseField "10-20/5" 0 23 None = Ok (m, false)
    /\ forall i, Z.testbit m i = stepBit 0 20 5 10 i.
Proof.
  apply (parseField_atom 0 23 None "10" (Some "20") (Some "5") 10 20 5).
  - left. reflexivity.
  - unfold MinInt. lia.
  - lia.
  - reflexivity.
  - reflexivity.
  - reflexivity.
  - lia.
  - unfold MaxInt. lia.
Defined.

Lemma table_values_in (l : list (string * Z)) (lo hi : Z) (k : string) (v : Z) :
  Forall (fun kv => lo <= kv.2 <= hi) l ->
  (list_to_map l : gmap string Z) !! k = Some v -> lo <= v <= hi.
Proof.
  intros Hl Hk. apply elem_of_list_to_map_2 in Hk.
  rewrite Forall_forall in Hl. exact (Hl (k, v) Hk).
Qed.

Lemma fieldDomain_names (min max : Z) (names : option (gmap string Z))
    (s : string) (v : Z) :
  fieldDomain min max names -> lookupName names s = Some v -> min <= v <= max.
Proof.
  intros [H | [H | [H | [H | H]]]]; simplify_eq; cbn [lookupName];
    try discriminate; intros H;
    (eapply table_values_in; [| exact H]); repeat constructor; cbn; lia.
Qed.

(** X5. In the month and the day-of-week field a name stands for its
    number, whatever the case of its letters: a field that is, once
    trimmed and in lower case, a name of the table gives the mask of the
    one value that the table holds for it, and so does the numeral of
    that value. *)
Theorem parseField_name (min max : Z) (names : option (gmap string Z))
    (s num : string) (v : Z) :
  fieldDomain min max names ->
  lookupName names (TrimSpace s) = Some v ->
  decimal (TrimSpace num) = Some v ->
  parseField s min max names = Ok (2 ^ (v - min), false)
  /\ parseField num min max names = Ok (2 ^ (v - min), false).
Proof.
  intros Hd Hs Hnum.
  destruct (fieldDomain_inv min max names Hd) as (Hmin & Hmax & Hn).
  pose proof (fieldDomain_names min max names _ v Hd Hs) as Hv.
  assert (Hone : forall t, parseNumber t names = Ok v ->
                 parseField t min max names = Ok (2 ^ (v - min), false)).
  { intros t Ht.
    pose proof (parseField_atomText min max names Hn t None None v v 1 Ht eq_refl eq_refl)
      as Hf.
    rewrite (parseAtom_text min max names Hn _ t None None v v 1 0 Ht eq_refl eq_refl)
      in Hf by lia.
    unfold atomText in Hf. rewrite !app_nil_string in Hf. rewrite Hf.
    destruct (Z.ltb_spec v min), (Z.ltb_spec max v), (Z.ltb_spec v v); try lia.
    cbn [orb]. rewrite maskLoop_single by (unfold MinInt, MaxInt; lia). reflexivity. }
  split; apply Hone.
  - apply parseNumber_name. exact Hs.
  - apply parseNumber_decimal; [exact Hn | exact Hnum | unfold MaxInt; lia].
Qed.

(** The month field: ["Jan"] and ["1"]. *)
Lemma parseField_name_witness :
  parseField "Jan" 1 12 (Some monNames) = Ok (2 ^ (1 - 1), false)
  /\ parseField "1" 1 12 (Some monNames) = Ok (2 ^ (1 - 1), false).
Proof.
  apply (parseField_name 1 12 (Some monNames) "Jan" "1" 1).
  - right. right. right. left. reflexivity.
  - reflexivity.
  - reflexivity.
Defined.

(** ** The masks that the parser builds *)

Lemma uint_range (k : Z) : 0 <= uint k < 2 ^ 64.
Proof. unfold uint. apply Z.mod_pos_bound. lia. Qed.

Lemma shl1_testbit (k i : Z) :
  Z.testbit (shl1 k) i = true -> i = uint k /\ 0 <= i < 64.
Proof.
  unfold shl1. pose proof (uint_range k) as Hu.
  destruct (Z.ltb_spec (uint k) 64) as [Hlt | Hge].
  - rewrite Z.shiftl_1_l. intros H.
    destruct (Z.le_gt_cases 0 i) as [Hi | Hi].
    + rewrite Z.pow2_bits_eqb in H by lia. apply Z.eqb_eq in H. lia.
    + rewrite Z.testbit_neg_r in H by lia. discriminate.
  - rewrite Z.bits_0. discriminate.
Qed.

Section MaskBits.

Variables min hi step : Z.
Hypothesis Hmin : 0 <= min.
Hypothesis Hminhi : min <= hi.
Hypothesis Hhi : hi < 64.

Lemma maskStep_bits (v m : Z) :
  MinInt <= v <= MaxInt ->
  valueOk (maskStep min hi step v m)
  /\ (forall i, Z.testbit m i = true -> Z.testbit (maskOf (maskStep min hi step v m)) i = true)
  /\ (forall i, Z.testbit (maskOf (maskStep min hi step v m)) i = true ->
                Z.testbit m i = true \/ 0 <= i <= hi - min).
Proof.
  intros Hv. unfold maskStep. destruct (Z.leb_spec v hi) as [Hle | Hgt]; cbn.
  - split; [apply wrap_range |]. split.
    + intros i Hi. rewrite Z.lor_spec, Hi. reflexivity.
    + intros i Hi. rewrite Z.lor_spec in Hi. apply orb_true_iff in Hi as [Hi | Hi]; [auto |].
      right. apply shl1_testbit in Hi as [-> Hi].
      unfold uint, wrap in *. unfold MinInt, MaxInt in *.
      Z.div_mod_to_equations. lia.
  - auto.
Qed.

Lemma maskRun_bits (n : nat) (v m : Z) :
  MinInt <= v <= MaxInt ->
  (forall i, Z.testbit m i = true -> Z.testbit (maskOf (maskRun n min hi step v m)) i = true)
  /\ (forall i, Z.testbit (maskOf (maskRun n min hi step v m)) i = true ->
                Z.testbit m i = true \/ 0 <= i <= hi - min).
Proof.
  revert v m. induction n as [| n IH]; intros v m Hv; cbn [maskRun].
  - cbn. auto.
  - destruct (maskStep_bits v m Hv) as (H0 & H1 & H2).
    destruct (maskStep min hi step v m) as [r | v' m']; cbn in *; [auto |].
    destruct (IH v' m' H0) as [H3 H4]. split.
    + intros i Hi. apply H3, H1, Hi.
    + intros i Hi. apply H4 in Hi as [Hi | Hi]; [apply H2, Hi | auto].
Qed.

(** The mask that the loop returns holds the mask it started from and
    the bit of [lo], and beside them only bits of the values up to
    [hi]: so it is for every step, even one that overflows. *)
Lemma maskLoop_bits (lo m r : Z) :
  min <= lo <= hi -> maskLoop min hi step lo m = Ok r ->
  Z.testbit r (lo - min) = true
  /\ (forall i, Z.testbit m i = true -> Z.testbit r i = true)
  /\ (forall i, Z.testbit r i = true -> Z.testbit m i = true \/ 0 <= i <= hi - min).
Proof.
  intros Hlo. unfold maskLoop. rewrite maskIter_maskRun.
  assert (Hv : MinInt <= lo <= MaxInt) by (unfold MinInt, MaxInt; lia).
  pose proof (maskRun_bits (Pos.to_nat (2 ^ 64)) lo m Hv) as [H1 H2].
  destruct (maskRun _ min hi step lo m) as [r' | v' m'] eqn:E; [| discriminate].
  intros [= <-]. cbn in H1, H2. split; [| auto].
  destruct (Pos.to_nat (2 ^ 64)) as [| n] eqn:En; [discriminate E |].
  cbn [maskRun] in E. unfold maskStep in E.
  destruct (Z.leb_spec lo hi); [| lia].
  rewrite (wrap_small (lo - min)) in E by (unfold MinInt, MaxInt; lia).
  rewrite shl1_small in E by lia.
  pose proof (wrap_range (lo + step)) as Hw.
  pose proof (maskRun_bits n (wrap (lo + step)) (Z.lor m (2 ^ (lo - min))) Hw) as [H3 _].
  rewrite E in H3. cbn in H3. apply H3.
  rewrite Z.lor_spec, Z.pow2_bits_eqb, Z.eqb_refl by lia. apply orb_true_r.
Qed.

End MaskBits.

Section FieldMasks.

Variables min max : Z.
Variable names : option (gmap string Z).
Hypothesis Hdom : fieldDomain min max names.

Lemma parseAtom_bits (field p : string) (m r : Z) :
  parseAtom field min max names p m = Ok r ->
  (exists k, 0 <= k <= max - min /\ Z.testbit r k = true)
  /\ (forall i, Z.testbit m i = true -> Z.testbit r i = true)
  /\ (forall i, Z.testbit r i = true -> Z.testbit m i = true \/ 0 <= i <= max - min).
Proof.
  destruct (fieldDomain_inv min max names Hdom) as (Hmin & Hmax & Hn).
  unfold parseAtom. destruct (String.eqb (TrimSpace p) ""); [discriminate |].
  intros H. apply bind_Ok in H as ([rng step] & Hs & H).
  apply bind_Ok in H as ([lo hi] & Hr & H).
  destruct ((lo <? min) || (max <? hi) || (hi <? lo)) eqn:E; [discriminate H |].
  apply orb_false_iff in E as [E Hc]. apply orb_false_iff in E as [Ha Hb].
  apply Z.ltb_ge in Ha, Hb, Hc.
  assert (Hhi : hi < 64) by lia. assert (Hlo : min <= lo <= hi) by lia.
  assert (Hmin' : 0 <= min) by lia. assert (Hmh : min <= hi) by lia.
  destruct (maskLoop_bits min hi step Hmin' Hmh Hhi lo m r Hlo H) as (H1 & H2 & H3).
  split; [exists (lo - min); split; [lia | exact H1] |].
  split; [exact H2 |]. intros i Hi. apply H3 in Hi as [Hi | Hi]; [auto | right; lia].
Qed.

Lemma parseList_bits (field : string) (ps : list string) (m r : Z) :
  parseList field min max names ps m = Ok r ->
  (ps <> [] -> exists k, 0 <= k <= max - min /\ Z.testbit r k = true)
  /\ (forall i, Z.testbit m i = true -> Z.testbit r i = true)
  /\ (forall i, Z.testbit r i = true -> Z.testbit m i = true \/ 0 <= i <= max - min).
Proof.
  revert m. induction ps as [| p ps IH]; intros m; cbn [parseList].
  - intros [= <-]. split; [contradiction | auto].
  - intros H. apply bind_Ok in H as (m1 & H1 & H2).
    apply parseAtom_bits in H1 as ((k & Hk & Hb) & Ha & Hc).
    apply IH in H2 as (_ & Hd & He). split; [| split].
    + intros _. exists k. split; [exact Hk | apply Hd, Hb].
    + intros i Hi. apply Hd, Ha, Hi.
    + intros i Hi. apply He in Hi as [Hi | Hi]; [apply Hc, Hi | auto].
Qed.

(** A mask that [parseField] returns on a field domain is not empty and
    lies within the domain; with the wildcard flag it is the full mask. *)
Lemma parseField_mask (field : string) (m : Z) (st : bool) :
  parseField field min max names = Ok (m, st) ->
  0 < m < 2 ^ (max - min + 1)
  /\ (st = true -> m = Z.ones (max - min + 1)).
Proof.
  destruct (fieldDomain_inv min max names Hdom) as (Hmin & Hmax & Hn).
  assert (Hbits : forall x, (exists k, 0 <= k <= max - min /\ Z.testbit x k = true) ->
            (forall i, Z.testbit x i = true -> 0 <= i <= max - min) ->
            0 < x < 2 ^ (max - min + 1)).
  { intros x (k & Hk & Hb) Hall.
    destruct (bits_below x (max - min + 1) ltac:(lia)) as [H1 H2].
    - intros i Hi. apply Hall in Hi. lia.
    - split; [| exact H2]. destruct (Z.eq_dec x 0) as [-> | Hne]; [| lia].
      rewrite Z.bits_0 in Hb. discriminate. }
  assert (Hevery : forall n x, 0 < n -> everyNth min max n x ->
            0 < x < 2 ^ (max - min + 1)).
  { intros n x Hpos He. apply Hbits.
    - exists 0. split; [lia |]. apply He. split; [lia | apply Z.mod_0_l; lia].
    - intros i Hi. apply He in Hi. lia. }
  unfold parseField.
  destruct (String.eqb (TrimSpace field) ""); [discriminate |].
  destruct (String.eqb (if String.eqb (TrimSpace field) "?" then "*" else TrimSpace field) "*").
  - unfold mustMask.
    destruct (fieldDomain_step_mask min max names 1 Hdom ltac:(unfold MaxInt; lia))
      as (r & -> & He).
    cbn. intros [= <- <-]. split; [apply (Hevery 1); [lia | exact He] |].
    intros _. apply ones_bits; [lia |]. intros i. rewrite (He i), Z.mod_1_r. lia.
  - destruct (HasPrefix _ "*/").
    + destruct (parseNumber _ names) as [step | | |] eqn:Ep; try discriminate.
      destruct (Z.leb_spec step 0); [discriminate |].
      pose proof (parseNumber_range names _ step Hn Ep).
      destruct (fieldDomain_step_mask min max names step Hdom ltac:(lia))
        as (r & -> & He).
      cbn. intros [= <- <-]. split; [apply (Hevery step); [lia | exact He] | discriminate].
    + intros H. apply bind_Ok in H as (r & H & [= <- <-]).
      split; [| discriminate].
      apply parseList_bits in H as (H1 & _ & H3). apply Hbits.
      * apply H1. apply Split_nonempty.
      * intros i Hi. apply H3 in Hi as [Hi | Hi]; [| exact Hi].
        rewrite Z.bits_0 in Hi. discriminate.
Qed.

End FieldMasks.

Lemma parseWithSeconds_wellFormed (f : list string) (s : Schedule) :
  parseWithSeconds f = Ok s -> wellFormed s.
Proof.
  unfold parseWithSeconds.
  destruct f as [| f0 [| f1 [| f2 [| f3 [| f4 [| f5 rest]]]]]]; try discriminate.
  intros H.
  apply bind_Ok in H as ([sec st0] & H0 & H). apply wrapErr_Ok in H0.
  apply bind_Ok in H as ([minute st1] & H1 & H). apply wrapErr_Ok in H1.
  apply bind_Ok in H as ([hour st2] & H2 & H). apply wrapErr_Ok in H2.
  apply bind_Ok in H as ([dom st3] & H3 & H). apply wrapErr_Ok in H3.
  apply bind_Ok in H as ([month st4] & H4 & H). apply wrapErr_Ok in H4.
  apply bind_Ok in H as ([dow st5] & H5 & H). apply wrapErr_Ok in H5.
  injection H as <-.
  apply parseField_mask in H0 as [H0 _]; [| unfold fieldDomain; tauto].
  apply parseField_mask in H1 as [H1 _]; [| unfold fieldDomain; tauto].
  apply parseField_mask in H2 as [H2 _]; [| unfold fieldDomain; tauto].
  apply parseField_mask in H3 as [H3 H3']; [| unfold fieldDomain; tauto].
  apply parseField_mask in H4 as [H4 _]; [| unfold fieldDomain; tauto].
  apply parseField_mask in H5 as [H5 H5']; [| unfold fieldDomain; tauto].
  unfold wellFormed. cbn [Second Minute Hour Dom Month Dow domStar dowStar].
  repeat split; first [apply H0 | apply H1 | apply H2 | apply H3 | apply H4 | apply H5
                       | exact H3' | exact H5'].
Qed.

Lemma ParseSpec_parseWithSeconds (spec : string) (withSeconds : bool) (s : Schedule) :
  ParseSpec spec withSeconds = Ok s ->
  exists f, length f = 6%nat /\ parseWithSeconds f = Ok s.
Proof.
  unfold ParseSpec.
  destruct (negb withSeconds && negb (length (Fields spec) =? 5)%nat); [discriminate |].
  match goal with
  | |- context [parseWithSeconds ?f] =>
      destruct (Nat.eqb_spec (length f) 6) as [E | E]; cbn [negb];
      [intros H; exists f; split; [exact E | exact H] | discriminate]
  end.
Qed.

(** X6. Every schedule that [ParseSpec] returns is well formed: each of
    its six masks is within the domain of its field (60 seconds, 60
    minutes, 24 hours, 31 days, 12 months, 7 weekdays) and none is empty,
    whatever steps the spec holds; and a day field that is flagged as a
    wildcard has the full mask. *)
Theorem ParseSpec_wellFormed (spec : string) (withSeconds : bool) (s : Schedule) :
  ParseSpec spec withSeconds = Ok s -> wellFormed s.
Proof.
  intros H. apply ParseSpec_parseWithSeconds in H as (f & _ & H).
  exact (parseWithSeconds_wellFormed f s H).
Qed.

Lemma ParseSpec_wellFormed_witness : wellFormed noonSchedule.
Proof. apply (ParseSpec_wellFormed "0 12 15 6 *" false). vm_compute. reflexivity. Defined.

(** ** The errors of the parser *)

Lemma maskLoop_no_error (min hi step lo m : Z) (e : error) :
  maskLoop min hi step lo m <> Err e.
Proof. unfold maskLoop. destruct (maskIter _ min hi step lo m); discriminate. Qed.

Lemma mustMask_eq (min max : Z) : mustMask min max = maskLoop min max 1 min 0.
Proof. unfold mustMask. reflexivity. Qed.

Lemma parseNumber_error (s : string) (names : option (gmap string Z)) (e : error) :
  parseNumber s names = Err e -> e = EmptyNumber \/ e = InvalidNumber (TrimSpace s).
Proof.
  unfold parseNumber. destruct (lookupName names (TrimSpace s)); [discriminate |].
  destruct (String.eqb (TrimSpace s) ""); [intros [= <-]; auto |].
  destruct (digitsLoop (TrimSpace s) 0); [discriminate | intros [= <-]; auto].
Qed.

Lemma bind_Err {A B : Type} (r : result A) (k : A -> result B) (e : error) :
  mbind k r = Err e -> r = Err e \/ exists a, r = Ok a /\ k a = Err e.
Proof. destruct r as [a | e' | |]; cbn; try discriminate; [eauto | intros [= <-]; auto]. Qed.

Lemma parseAtom_error (field p : string) (min max : Z)
    (names : option (gmap string Z)) (m : Z) (e : error) :
  parseAtom field min max names p m = Err e ->
  fieldError e = true /\ e <> EmptyField.
Proof.
  unfold parseAtom. destruct (String.eqb (TrimSpace p) "");
    [intros [= <-]; split; [reflexivity | discriminate] |].
  intros H. apply bind_Err in H as [H | ([rng step] & _ & H)].
  - unfold atomStep in H. destruct (IndexByte (TrimSpace p) "/"); [| discriminate].
    destruct (parseNumber _ names) as [st | e0 | |]; try discriminate.
    + destruct (st <=? 0); [| discriminate].
      injection H as <-. split; [reflexivity | discriminate].
    + injection H as <-. split; [reflexivity | discriminate].
  - apply bind_Err in H as [H | ([lo hi] & _ & H)].
    + assert (Hnum : exists t, parseNumber t names = Err e).
      { unfold atomRange in H. destruct (IndexByte rng "-").
        - apply bind_Err in H as [H | (v1 & _ & H)]; [eauto |].
          apply bind_Err in H as [H | (v2 & _ & H)]; [eauto | discriminate].
        - apply bind_Err in H as [H | (v & _ & H)]; [eauto | discriminate]. }
      destruct Hnum as (t & Ht).
      apply parseNumber_error in Ht as [-> | ->]; split; (reflexivity || discriminate).
    + destruct ((lo <? min) || (max <? hi) || (hi <? lo)).
      * injection H as <-. split; [reflexivity | discriminate].
      * exfalso. exact (maskLoop_no_error min hi step lo m e H).
Qed.

Lemma parseList_error (field : string) (min max : Z)
    (names : option (gmap string Z)) (ps : list string) (m : Z) (e : error) :
  parseList field min max names ps m = Err e ->
  fieldError e = true /\ e <> EmptyField.
Proof.
  revert m. induction ps as [| p ps IH]; intros m; cbn [parseList]; [discriminate |].
  intros H. apply bind_Err in H as [H | (m1 & _ & H)].
  - exact (parseAtom_error _ _ _ _ _ _ _ H).
  - exact (IH _ H).
Qed.

(** An error of [parseField] is one of the seven errors of a field, and
    it is "empty field" only for a field that is blank. *)
Lemma parseField_error (field : string) (min max : Z)
    (names : option (gmap string Z)) (e : error) :
  parseField field min max names = Err e ->
  fieldError e = true /\ (e = EmptyField -> TrimSpace field = "").
Proof.
  unfold parseField.
  destruct (String.eqb_spec (TrimSpace field) "") as [E | _];
    [intros [= <-]; split; [reflexivity | intros _; exact E] |].
  destruct (String.eqb (if String.eqb (TrimSpace field) "?" then "*" else TrimSpace field) "*").
  - rewrite mustMask_eq.
    intros H. apply bind_Err in H as [H | (m & _ & H)]; [| discriminate].
    exfalso. exact (maskLoop_no_error min max 1 min 0 e H).
  - destruct (HasPrefix _ "*/").
    + destruct (parseNumber _ names) as [st | e0 | |]; try discriminate.
      * destruct (st <=? 0); [intros [= <-]; split; [reflexivity | discriminate] |].
        intros H. apply bind_Err in H as [H | (m & _ & H)]; [| discriminate].
        exfalso. exact (maskLoop_no_error min max st min 0 e H).
      * intros [= <-]. split; [reflexivity | discriminate].
    + intros H. apply bind_Err in H as [H | (m & _ & H)]; [| discriminate].
      apply parseList_error in H as [H1 H2]. split; [exact H1 | contradiction].
Qed.

(** The words of [strings.Fields]. *)
Lemma allOf_rev_app (f : ascii -> bool) (s1 s2 : string) :
  allOf f (String.rev_app s1 s2) = allOf f s1 && allOf f s2.
Proof.
  revert s2. induction s1 as [| ch s1 IH]; intros s2; [reflexivity |].
  cbn [String.rev_app allOf]. rewrite IH. cbn [allOf].
  destruct (f ch), (allOf f s1), (allOf f s2); reflexivity.
Qed.

Lemma rev_app_nonempty (s1 s2 : string) :
  s2 <> "" -> String.rev_app s1 s2 <> "".
Proof.
  revert s2. induction s1 as [| ch s1 IH]; intros s2 H; [exact H |].
  cbn [String.rev_app]. apply IH. discriminate.
Qed.

Lemma isWord_rev (w : string) : isWord w -> isWord (String.rev w).
Proof.
  intros [Hne Hall]. unfold String.rev. split.
  - destruct w as [| ch w]; [contradiction |]. cbn [String.rev_app].
    apply rev_app_nonempty. discriminate.
  - rewrite allOf_rev_app, Hall. reflexivity.
Qed.

Lemma fieldsFrom_words (cur : option string) (s : string) :
  match cur with Some w => isWord w | None => True end ->
  Forall isWord (fieldsFrom cur s).
Proof.
  revert cur. induction s as [| ch s IH]; intros cur Hcur; cbn [fieldsFrom].
  - destruct cur as [w |]; [| constructor].
    constructor; [apply isWord_rev; exact Hcur | constructor].
  - destruct (isSpace ch) eqn:Ec.
    + destruct cur as [w |]; [| apply IH; exact I].
      constructor; [apply isWord_rev; exact Hcur | apply IH; exact I].
    + apply IH. split; [discriminate |]. cbn [allOf]. rewrite Ec. cbn [negb andb].
      destruct cur as [w |]; [apply Hcur | reflexivity].
Qed.

Lemma Fields_words (s : string) : Forall isWord (Fields s).
Proof. apply fieldsFrom_words. exact I. Qed.

Lemma isWord_nonblank (w : string) : isWord w -> TrimSpace w <> "".
Proof.
  intros [Hne Hall]. destruct w as [| ch r]; [contradiction |].
  cbn [allOf] in Hall. apply andb_true_iff in Hall as [Hc _].
  apply negb_true_iff in Hc.
  destruct (TrimSpace_keeps_head ch r Hc) as (r' & ->). discriminate.
Qed.

Lemma isWord_dowRaw (w : string) : isWord w -> isWord (dowRaw w).
Proof.
  intros [Hne Hall]. rewrite dowRaw_ReplaceAll. split.
  - destruct w; [contradiction | discriminate].
  - clear Hne. induction w as [| ch w IH]; [reflexivity |].
    cbn [allOf] in Hall. apply andb_true_iff in Hall as [Hc Hw].
    cbn [ReplaceAll allOf]. rewrite (IH Hw), andb_true_r.
    destruct (Ascii.eqb ch "7"); [reflexivity | exact Hc].
Qed.

Lemma wrapErr_Err {A : Type} (ctx : string) (r : result A) (e : error) :
  wrapErr ctx r = Err e -> exists e', e = Wrapped ctx e' /\ r = Err e'.
Proof. destruct r; cbn; try discriminate. intros [= <-]. eauto. Qed.

Lemma parseWithSeconds_error (f : list string) (e : error) :
  length f = 6%nat -> Forall isWord f -> parseWithSeconds f = Err e ->
  exists tag e', e = Wrapped tag e' /\ tag ∈ fieldTags
                 /\ fieldError e' = true /\ e' <> EmptyField.
Proof.
  intros Hlen Hw.
  destruct f as [| f0 [| f1 [| f2 [| f3 [| f4 [| f5 [|]]]]]]]; try discriminate Hlen.
  apply Forall_cons in Hw as [W0 Hw]. apply Forall_cons in Hw as [W1 Hw].
  apply Forall_cons in Hw as [W2 Hw]. apply Forall_cons in Hw as [W3 Hw].
  apply Forall_cons in Hw as [W4 Hw]. apply Forall_cons in Hw as [W5 _].
  assert (Hfield : forall tag w min max names e0,
            tag ∈ fieldTags -> isWord w ->
            wrapErr tag (parseField w min max names) = Err e0 ->
            exists tag e', e0 = Wrapped tag e' /\ tag ∈ fieldTags
                           /\ fieldError e' = true /\ e' <> EmptyField).
  { intros tag w min max names e0 Htag Hword H.
    apply wrapErr_Err in H as (e' & -> & Hp).
    apply parseField_error in Hp as [H1 H2].
    exists tag, e'. repeat split; [exact Htag | exact H1 |].
    intros ->. exact (isWord_nonblank w Hword (H2 eq_refl)). }
  unfold parseWithSeconds. unfold fieldTags in Hfield.
  intros H.
  apply bind_Err in H as [H | ([? ?] & _ & H)];
    [apply (Hfield "sec" f0 _ _ _ _ ltac:(apply list_elem_of_In; cbn; tauto) W0 H) |].
  apply bind_Err in H as [H | ([? ?] & _ & H)];
    [apply (Hfield "minute" f1 _ _ _ _ ltac:(apply list_elem_of_In; cbn; tauto) W1 H) |].
  apply bind_Err in H as [H | ([? ?] & _ & H)];
    [apply (Hfield "hour" f2 _ _ _ _ ltac:(apply list_elem_of_In; cbn; tauto) W2 H) |].
  apply bind_Err in H as [H | ([? ?] & _ & H)];
    [apply (Hfield "dom" f3 _ _ _ _ ltac:(apply list_elem_of_In; cbn; tauto) W3 H) |].
  apply bind_Err in H as [H | ([? ?] & _ & H)];
    [apply (Hfield "month" f4 _ _ _ _ ltac:(apply list_elem_of_In; cbn; tauto) W4 H) |].
  apply bind_Err in H as [H | ([? ?] & _ & H)]; [| discriminate].
  apply (Hfield "dow" (dowRaw f5) _ _ _ _ ltac:(apply list_elem_of_In; cbn; tauto) (isWord_dowRaw f5 W5) H).
Qed.


(** X8. [ParseSpec] returns for every spec, a schedule or an error: no
    loop of the parser runs on and none of its slices is read out of
    range.  So it is for every step, even one so large that [v += step]
    overflows, and on every field domain for [parseField]. *)
Theorem ParseSpec_always_returns :
  (forall spec withSeconds,
     (exists s, ParseSpec spec withSeconds = Ok s)
     \/ (exists e, ParseSpec spec withSeconds = Err e))
  /\ (forall field min max names,
        fieldDomain min max names ->
        (exists m st, parseField field min max names = Ok (m, st))
        \/ (exists e, parseField field min max names = Err e))
  /\ parseField "*/9223372036854775807" 0 59 None = Ok (1, false)
  /\ parseField "3-59/9223372036854775807" 0 59 None = Ok (2 ^ 3 + 2 ^ 1, false).
Proof.
  split; [| split; [| split]].
  - intros spec ws. pose proof (ParseSpec_returned spec ws) as H.
    destruct (ParseSpec spec ws); try discriminate H; eauto.
  - intros field min max names Hd.
    pose proof (parseField_returned min max names Hd field) as H.
    destruct (parseField field min max names) as [[m st] | | |];
      try discriminate H; eauto.
  - vm_compute. reflexivity.
  - vm_compute. reflexivity.
Qed.

(** ** Options, [NewSchedule] and [New] *)

Lemma applyOption_fields (opt : Option) (x : Cron) :
  c (applyOption opt x) = c x
  /\ (0 <= buf x -> 0 <= buf (applyOption opt x))
  /\ withSeconds (applyOption opt x)
     = withSeconds x || match opt with WithSeconds => true | _ => false end.
Proof.
  destruct opt; cbn; repeat split; try lia;
    try (rewrite orb_false_r; reflexivity); try (rewrite orb_true_r; reflexivity).
  intros _. destruct (Z.ltb_spec n 0); lia.
Qed.

Lemma foldl_applyOption_fields (opts : list Option) (x : Cron) :
  let y := foldl (fun x opt => applyOption opt x) x opts in
  (0 <= buf x -> 0 <= buf y)
  /\ withSeconds y = withSeconds x || hasSeconds opts
  /\ sched y = sched x.
Proof.
  cbv zeta. revert x. induction opts as [| opt opts IH]; intros x; cbn [foldl hasSeconds existsb].
  - rewrite orb_false_r. auto.
  - destruct (IH (applyOption opt x)) as (H1 & H2 & H3).
    destruct (applyOption_fields opt x) as (_ & H4 & H5).
    destruct (applyOption_stop opt x) as (_ & _ & H6).
    split; [auto |]. split; [| congruence].
    rewrite H2, H5, orb_assoc. reflexivity.
Qed.

Lemma foldl_applyOption_from (opts : list Option) (x : Cron) :
  let y := foldl (fun x opt => applyOption opt x) x opts in
  from y = from x \/ exists t, In (WithStartFrom t) opts /\ from y = t.
Proof.
  cbv zeta. revert x. induction opts as [| opt opts IH]; intros x; cbn [foldl].
  - left. reflexivity.
  - destruct (IH (applyOption opt x)) as [H | (t & Ht & H)].
    + rewrite H. destruct opt; cbn; auto. right. exists t. auto.
    + right. exists t. split; [right; exact Ht | exact H].
Qed.


Lemma applyOption_same_kind (a b : Option) (x : Cron) :
  kindOf a = kindOf b -> applyOption a (applyOption b x) = applyOption a x.
Proof. destruct a, b; try discriminate; reflexivity. Qed.

Lemma applyOption_other_kind (a b : Option) (x : Cron) :
  kindOf a <> kindOf b ->
  applyOption a (applyOption b x) = applyOption b (applyOption a x).
Proof. destruct a, b; try contradiction; reflexivity. Qed.

(** X10. The order of the options matters only among options of one
    kind.  Two neighbouring options of different kinds can be swapped,
    and of two neighbouring options of the same kind the later one alone
    counts: [NewSchedule] returns the same runtime. *)
Theorem NewSchedule_option_order (s : Schedule) (l1 l2 : list Option)
    (a b : Option) (now : Time) :
  (kindOf a <> kindOf b ->
   NewSchedule s (l1 ++ a :: b :: l2) now = NewSchedule s (l1 ++ b :: a :: l2) now)
  /\ (kindOf a = kindOf b ->
      NewSchedule s (l1 ++ a :: b :: l2) now = NewSchedule s (l1 ++ b :: l2) now).
Proof.
  unfold NewSchedule. split; intros H.
  - rewrite !foldl_app. cbn [foldl].
    rewrite (applyOption_other_kind b a) by congruence. reflexivity.
  - rewrite !foldl_app. cbn [foldl].
    rewrite (applyOption_same_kind b a) by congruence. reflexivity.
Qed.

(** A start time given before a buffer size, or after it; and of two
    buffer sizes the second. *)
Lemma NewSchedule_option_order_witness :
  NewSchedule noonSchedule ([] ++ WithStartFrom 5 :: WithBuffered 3 :: []) 0
  = NewSchedule noonSchedule ([] ++ WithBuffered 3 :: WithStartFrom 5 :: []) 0
  /\ NewSchedule noonSchedule ([] ++ WithBuffered 7 :: WithBuffered 3 :: []) 0
     = NewSchedule noonSchedule ([] ++ WithBuffered 3 :: []) 0.
Proof.
  split.
  - apply (proj1 (NewSchedule_option_order noonSchedule [] []
                    (WithStartFrom 5) (WithBuffered 3) 0)).
    discriminate.
  - apply (proj2 (NewSchedule_option_order noonSchedule [] []
                    (WithBuffered 7) (WithBuffered 3) 0)).
    reflexivity.
Defined.


(** ** Instants and their fields *)

Lemma daysFromCivil_day (y m d : Z) :
  GoTime.daysFromCivil y m d = GoTime.daysFromCivil y m 1 + (d - 1).
Proof. unfold GoTime.daysFromCivil. cbv zeta. lia. Qed.

Lemma Date_instant (ts : Time) (y m d h mi s ns : Z) :
  GoTime.dateOf ts = (y, m, d) ->
  GoTime.Date y m d h mi s ns = instant (dayNum ts) h mi s ns.
Proof.
  intros E. unfold GoTime.dateOf in E.
  pose proof (civilFromDays_spec (GoTime.unix ts / 86400)) as H. rewrite E in H.
  destruct H as (Hd & Hm & _).
  unfold GoTime.Date, instant, dayNum. cbv zeta.
  replace ((m - 1) / 12) with 0 by (Z.div_mod_to_equations; lia).
  replace ((m - 1) mod 12 + 1) with m by (Z.div_mod_to_equations; lia).
  rewrite Z.add_0_r, <- daysFromCivil_day, Hd. reflexivity.
Qed.

Lemma instant_fields (D h mi s ns : Z) :
  0 <= h <= 23 -> 0 <= mi <= 59 -> 0 <= s <= 59 -> 0 <= ns < 1000000000 ->
  dayNum (instant D h mi s ns) = D
  /\ GoTime.hourOf (instant D h mi s ns) = h
  /\ GoTime.minuteOf (instant D h mi s ns) = mi
  /\ GoTime.secondOf (instant D h mi s ns) = s
  /\ GoTime.nsecOf (instant D h mi s ns) = ns.
Proof.
  intros Hh Hmi Hs Hns.
  assert (Hu : GoTime.unix (instant D h mi s ns) = D * 86400 + h * 3600 + mi * 60 + s).
  { unfold GoTime.unix, instant, GoTime.Second. Z.div_mod_to_equations. lia. }
  unfold dayNum, GoTime.hourOf, GoTime.minuteOf, GoTime.secondOf. rewrite Hu.
  repeat split; try (Z.div_mod_to_equations; lia).
  unfold GoTime.nsecOf, instant, GoTime.Second. Z.div_mod_to_equations. lia.
Qed.

(** An instant is the one of its fields. *)
Lemma instant_of_fields (ts : Time) :
  ts = instant (dayNum ts) (GoTime.hourOf ts) (GoTime.minuteOf ts)
         (GoTime.secondOf ts) (GoTime.nsecOf ts).
Proof.
  unfold instant, dayNum, GoTime.hourOf, GoTime.minuteOf, GoTime.secondOf,
    GoTime.nsecOf, GoTime.unix, GoTime.Second.
  Z.div_mod_to_equations. lia.
Qed.

Lemma nsecOf_range (ts : Time) : 0 <= GoTime.nsecOf ts < 1000000000.
Proof. unfold GoTime.nsecOf, GoTime.Second. apply Z.mod_pos_bound. lia. Qed.

Lemma dateOf_dayNum (t u : Time) :
  dayNum t = dayNum u -> GoTime.dateOf t = GoTime.dateOf u.
Proof. unfold dayNum, GoTime.dateOf. intros ->. reflexivity. Qed.

Lemma dayMatches_dayNum (s : Schedule) (t u : Time) :
  dayNum t = dayNum u -> dayMatches s t = dayMatches s u.
Proof.
  intros H. unfold dayMatches, GoTime.dayOf, GoTime.weekdayOf.
  rewrite (dateOf_dayNum t u H). unfold dayNum in H. rewrite H. reflexivity.
Qed.

Lemma firstCandidate_aligned (t : Time) (withSeconds : bool) :
  aligned withSeconds (firstCandidate t withSeconds) /\ t < firstCandidate t withSeconds.
Proof.
  unfold aligned, firstCandidate, GoTime.Add, GoTime.Truncate, GoTime.nsecOf,
    GoTime.secondOf, GoTime.unix, GoTime.Minute, GoTime.Second.
  destruct withSeconds; cbv zeta.
  - split; [split; [| discriminate] |]; Z.div_mod_to_equations; lia.
  - split; [split; [| intros _] |]; Z.div_mod_to_equations; lia.
Qed.

Lemma Date_civil (D y m d k h mi s ns : Z) :
  GoTime.civilFromDays D = (y, m, d) ->
  GoTime.Date y m (d + k) h mi s ns = instant (D + k) h mi s ns.
Proof.
  intros E. pose proof (civilFromDays_spec D) as H. rewrite E in H.
  destruct H as (Hd & Hm & _).
  unfold GoTime.Date, instant. cbv zeta.
  replace ((m - 1) / 12) with 0 by (Z.div_mod_to_equations; lia).
  replace ((m - 1) mod 12 + 1) with m by (Z.div_mod_to_equations; lia).
  rewrite Z.add_0_r. rewrite (daysFromCivil_day y m d) in Hd.
  replace (GoTime.daysFromCivil y m 1 + (d + k - 1)) with (D + k) by lia.
  reflexivity.
Qed.

(** The day after midnight of day [D] is midnight of day [D + 1]. *)
Lemma AddDate_next_day (D : Z) :
  GoTime.AddDate (instant D 0 0 0 0) 0 0 1 = instant (D + 1) 0 0 0 0.
Proof.
  destruct (instant_fields D 0 0 0 0) as (H1 & H2 & H3 & H4 & H5); try lia.
  unfold GoTime.AddDate, GoTime.dateOf. fold (dayNum (instant D 0 0 0 0)).
  rewrite H1, H2, H3, H4, H5.
  destruct (GoTime.civilFromDays D) as [[y m] d] eqn:E.
  rewrite !Z.add_0_r. apply (Date_civil D y m d 1). exact E.
Qed.

(** One pass of the loop of [NextFrom] on the fields of the candidate:
    but for the carry into another month, every new candidate is an
    instant of the candidate's day or of the next day. *)
Lemma searchStep_instant (s : Schedule) (withSeconds : bool) (ts : Time) (y m d : Z) :
  GoTime.dateOf ts = (y, m, d) ->
  searchStep s withSeconds ts
  = let D := dayNum ts in
    let h := GoTime.hourOf ts in
    let mi := GoTime.minuteOf ts in
    let unit := if withSeconds then GoTime.Second else GoTime.Minute in
    if bitUnset (Month s) (m - 1) then
      let '(nextMon, wrp) := nextAllowed (Month s) m 1 12 in
      Continue (GoTime.Add
                  (GoTime.Date (if wrp then wrap (y + 1) else y) nextMon 1 0 0 0 0) unit)
    else if negb (dayMatches s ts) then
      Continue (GoTime.Add (instant (D + 1) 0 0 0 0) unit)
    else if bitUnset (Hour s) h then
      let '(nextH, wrapH) := nextAllowed (Hour s) h 0 23 in
      Continue (GoTime.Add (if wrapH then instant (D + 1) 0 0 0 0
                            else instant D nextH 0 0 0) unit)
    else if bitUnset (Minute s) mi then
      let '(nextM, wrapM) := nextAllowed (Minute s) mi 0 59 in
      let ts' := if wrapM then GoTime.Add (instant D h 0 0 0) GoTime.Hour
                 else instant D h nextM 0 0 in
      if withSeconds then Continue (GoTime.Add ts' GoTime.Second) else Return ts'
    else if withSeconds then
      if bitUnset (Second s) (GoTime.secondOf ts) then
        let '(nextS, wrapS) := nextAllowed (Second s) (GoTime.secondOf ts) 0 59 in
        if wrapS then Continue (GoTime.Add (instant D h mi 0 0) GoTime.Minute)
        else Return (instant D h mi nextS 0)
      else Return ts
    else Return (instant D h mi 0 0).
Proof.
  intros E. unfold searchStep. rewrite E. cbv zeta.
  rewrite !(Date_instant ts y m d _ _ _ _ E), !AddDate_next_day.
  destruct (bitUnset (Month s) (m - 1)).
  - destruct (nextAllowed (Month s) m 1 12) as [nextMon wrp]. reflexivity.
  - destruct (negb (dayMatches s ts)); [reflexivity |].
    destruct (bitUnset (Hour s) (GoTime.hourOf ts)).
    + destruct (nextAllowed (Hour s) _ 0 23) as [nextH wrapH].
      rewrite !(Date_instant ts y m d _ _ _ _ E). reflexivity.
    + destruct (bitUnset (Minute s) (GoTime.minuteOf ts)).
      * destruct (nextAllowed (Minute s) _ 0 59) as [nextM wrapM].
        rewrite !(Date_instant ts y m d _ _ _ _ E). reflexivity.
      * destruct withSeconds; [| reflexivity].
        destruct (bitUnset (Second s) (GoTime.secondOf ts)); [| reflexivity].
        destruct (nextAllowed (Second s) _ 0 59) as [nextS wrapS].
        rewrite !(Date_instant ts y m d _ _ _ _ E). reflexivity.
Qed.

(** ** What [NextFrom] returns *)

Ltac time_arith :=
  unfold aligned, GoTime.nsecOf, GoTime.secondOf, GoTime.minuteOf, GoTime.unix,
    instant, GoTime.Add, GoTime.Hour, GoTime.Minute, GoTime.Second in *;
  Z.div_mod_to_equations; lia.

Ltac aligned_arith :=
  split; [time_arith | first [discriminate | intros _; time_arith]].

Lemma aligned_Date (withSeconds : bool) (y m : Z) :
  aligned withSeconds
    (GoTime.Add (GoTime.Date y m 1 0 0 0 0)
       (if withSeconds then GoTime.Second else GoTime.Minute)).
Proof.
  unfold GoTime.Date. cbv zeta.
  generalize (GoTime.daysFromCivil (y + (m - 1) / 12) ((m - 1) mod 12 + 1) 1).
  intros N. destruct withSeconds; aligned_arith.
Qed.

Lemma aligned_instant (withSeconds : bool) (D h mi : Z) :
  aligned withSeconds
    (GoTime.Add (instant D h mi 0 0)
       (if withSeconds then GoTime.Second else GoTime.Minute)).
Proof. destruct withSeconds; aligned_arith. Qed.

(** A pass of the loop keeps the candidate on a full second, at minute
    resolution on a full minute, and returns such an instant. *)
Lemma searchStep_aligned (s : Schedule) (withSeconds : bool) (ts : Time) :
  aligned withSeconds ts ->
  match searchStep s withSeconds ts with
  | Continue ts' => aligned withSeconds ts'
  | Return r => aligned withSeconds r
  end.
Proof.
  intros Hal. destruct (GoTime.dateOf ts) as [[y m] d] eqn:E.
  rewrite (searchStep_instant s withSeconds ts y m d E). cbv zeta.
  destruct (bitUnset (Month s) (m - 1)).
  { destruct (nextAllowed (Month s) m 1 12) as [nextMon wrp]. apply aligned_Date. }
  destruct (negb (dayMatches s ts)); [apply aligned_instant |].
  destruct (bitUnset (Hour s) (GoTime.hourOf ts)).
  { destruct (nextAllowed (Hour s) _ 0 23) as [nextH wrapH].
    destruct wrapH; apply aligned_instant. }
  destruct (bitUnset (Minute s) (GoTime.minuteOf ts)).
  { destruct (nextAllowed (Minute s) _ 0 59) as [nextM wrapM].
    destruct wrapM, withSeconds; aligned_arith. }
  destruct withSeconds.
  - destruct (bitUnset (Second s) (GoTime.secondOf ts)); [| exact Hal].
    destruct (nextAllowed (Second s) _ 0 59) as [nextS wrapS].
    destruct wrapS; aligned_arith.
  - aligned_arith.
Qed.

Lemma searchLoop_aligned (fuel : nat) (s : Schedule) (withSeconds : bool)
    (ts r : Time) :
  aligned withSeconds ts -> searchLoop fuel s withSeconds ts = Some r ->
  aligned withSeconds r.
Proof.
  revert ts. induction fuel as [| fuel IH]; intros ts Hal; cbn [searchLoop]; [discriminate |].
  pose proof (searchStep_aligned s withSeconds ts Hal) as Hs.
  destruct (searchStep s withSeconds ts) as [ts' | r'].
  - apply IH. exact Hs.
  - intros [= <-]. exact Hs.
Qed.

(** X12. Whatever the schedule, an instant that [NextFrom] returns is on
    a full second, and at minute resolution on a full minute ("fires at
    second==0"). *)
Theorem NextFrom_aligned (fuel : nat) (s : Schedule) (t : Time)
    (withSeconds : bool) (r : Time) :
  NextFrom fuel s t withSeconds = Some r ->
  GoTime.nsecOf r = 0 /\ (withSeconds = false -> GoTime.secondOf r = 0).
Proof.
  unfold NextFrom. cbv zeta. fold (firstCandidate t withSeconds). intros H.
  apply (searchLoop_aligned fuel s withSeconds (firstCandidate t withSeconds) r);
    [| exact H].
  apply firstCandidate_aligned.
Qed.

(** From 2024-06-15 10:30:00.5 the noon schedule gives 13:00:00. *)
Lemma NextFrom_aligned_witness :
  GoTime.nsecOf (GoTime.Date 2024 6 15 13 0 0 0) = 0
  /\ (false = false -> GoTime.secondOf (GoTime.Date 2024 6 15 13 0 0 0) = 0).
Proof.
  apply (NextFrom_aligned 2 noonSchedule (GoTime.Date 2024 6 15 10 30 0 500000000) false).
  vm_compute. reflexivity.
Defined.

Lemma fieldsMatch_bits (s : Schedule) (withSeconds : bool) (t : Time) (y m d : Z) :
  GoTime.dateOf t = (y, m, d) ->
  fieldsMatch s withSeconds t = true ->
  bitUnset (Month s) (m - 1) = false
  /\ dayMatches s t = true
  /\ bitUnset (Hour s) (GoTime.hourOf t) = false
  /\ bitUnset (Minute s) (GoTime.minuteOf t) = false
  /\ (if withSeconds then bitUnset (Second s) (GoTime.secondOf t) = false
      else GoTime.secondOf t = 0)
  /\ GoTime.nsecOf t = 0.
Proof.
  intros E. unfold fieldsMatch. rewrite E.
  pose proof (dateOf_month_range t y m d E) as Hm.
  pose proof (hourOf_range t) as Hh. pose proof (minuteOf_range t) as Hmi.
  pose proof (secondOf_range t) as Hs.
  rewrite !andb_true_iff. intros (((((H1 & H2) & H3) & H4) & H5) & H6).
  rewrite !bitUnset_testbit by lia. rewrite H1, H3, H4.
  repeat split; try reflexivity; [exact H2 | | apply Z.eqb_eq; exact H6].
  destruct withSeconds.
  - rewrite H5. reflexivity.
  - apply Z.eqb_eq. exact H5.
Qed.

Lemma bits_fieldsMatch (s : Schedule) (withSeconds : bool) (t : Time) (y m d : Z) :
  GoTime.dateOf t = (y, m, d) ->
  bitUnset (Month s) (m - 1) = false ->
  dayMatches s t = true ->
  bitUnset (Hour s) (GoTime.hourOf t) = false ->
  bitUnset (Minute s) (GoTime.minuteOf t) = false ->
  (if withSeconds then bitUnset (Second s) (GoTime.secondOf t) = false
   else GoTime.secondOf t = 0) ->
  GoTime.nsecOf t = 0 ->
  fieldsMatch s withSeconds t = true.
Proof.
  intros E. unfold fieldsMatch. rewrite E.
  pose proof (dateOf_month_range t y m d E) as Hm.
  pose proof (hourOf_range t) as Hh. pose proof (minuteOf_range t) as Hmi.
  pose proof (secondOf_range t) as Hs.
  rewrite !bitUnset_testbit by lia. rewrite !negb_false_iff.
  intros -> -> -> -> H5 ->. cbn [andb]. rewrite andb_true_r.
  destruct withSeconds.
  - apply negb_false_iff in H5. exact H5.
  - rewrite H5. reflexivity.
Qed.



(** The fields of an instant of the candidate's day. *)
Lemma fieldsMatch_instant (s : Schedule) (withSeconds : bool) (ts : Time)
    (y m d h mi sec : Z) :
  GoTime.dateOf ts = (y, m, d) ->
  0 <= h <= 23 -> 0 <= mi <= 59 -> 0 <= sec <= 59 ->
  bitUnset (Month s) (m - 1) = false ->
  dayMatches s ts = true ->
  bitUnset (Hour s) h = false ->
  bitUnset (Minute s) mi = false ->
  (if withSeconds then bitUnset (Second s) sec = false else sec = 0) ->
  fieldsMatch s withSeconds (instant (dayNum ts) h mi sec 0) = true.
Proof.
  intros E Hh Hmi Hs H1 H2 H3 H4 H5.
  destruct (instant_fields (dayNum ts) h mi sec 0 Hh Hmi Hs ltac:(lia))
    as (F1 & F2 & F3 & F4 & F5).
  apply (bits_fieldsMatch s withSeconds _ y m d).
  - rewrite (dateOf_dayNum _ ts F1). exact E.
  - exact H1.
  - rewrite (dayMatches_dayNum s _ ts F1). exact H2.
  - rewrite F2. exact H3.
  - rewrite F3. exact H4.
  - rewrite F4. exact H5.
  - exact F5.
Qed.

(** [nextAllowed] without a wrap on the minutes or the seconds: the value
    is in the domain and its bit is set. *)
Lemma nextAllowed_60 (mask cur v : Z) :
  0 <= mask < 2 ^ 60 -> 0 <= cur <= 59 ->
  nextAllowed mask cur 0 59 = (v, false) ->
  cur <= v <= 59 /\ bitUnset mask v = false
  /\ forall u, cur <= u < v -> bitUnset mask u = true.
Proof.
  intros Hm Hc E.
  destruct (Z.eq_dec mask 0) as [-> | Hne]; [discriminate E |].
  pose proof (nextAllowed_spec mask cur 0 59 ltac:(lia) ltac:(unfold MaxInt; lia)
                ltac:(lia) ltac:(unfold MinInt; lia)) as H.
  assert (Hm' : 0 < mask < 2 ^ (59 - 0 + 1)) by (change (59 - 0 + 1) with 60; lia).
  specialize (H Hm'). cbv zeta in H. rewrite E in H.
  destruct H as (H1 & H2 & H3 & H4). rewrite Z.sub_0_r in H2.
  replace (Z.max cur 0) with cur in * by lia.
  split; [lia |]. split.
  - rewrite bitUnset_testbit by lia. rewrite H2. reflexivity.
  - intros u Hu. rewrite bitUnset_testbit by lia.
    specialize (H4 u Hu). rewrite Z.sub_0_r in H4. rewrite H4. reflexivity.
Qed.

Lemma searchStep_sound (s : Schedule) (withSeconds : bool) (ts : Time) :
  (withSeconds = false -> 0 <= Minute s < 2 ^ 60) ->
  (withSeconds = true -> 0 <= Second s < 2 ^ 60) ->
  aligned withSeconds ts ->
  match searchStep s withSeconds ts with
  | Continue ts' => True
  | Return r =>
      fieldsMatch s withSeconds r = true
      \/ (withSeconds = false /\ GoTime.minuteOf r = 0)
  end.
Proof.
  intros HM HS [Hns Hsec]. destruct (GoTime.dateOf ts) as [[y m] d] eqn:E.
  rewrite (searchStep_instant s withSeconds ts y m d E). cbv zeta.
  pose proof (hourOf_range ts) as Hh. pose proof (minuteOf_range ts) as Hmi.
  pose proof (secondOf_range ts) as Hs.
  destruct (bitUnset (Month s) (m - 1)) eqn:B1.
  { destruct (nextAllowed (Month s) m 1 12); exact I. }
  destruct (dayMatches s ts) eqn:B2; cbn [negb]; [| exact I].
  destruct (bitUnset (Hour s) (GoTime.hourOf ts)) eqn:B3.
  { destruct (nextAllowed (Hour s) _ 0 23); exact I. }
  destruct (bitUnset (Minute s) (GoTime.minuteOf ts)) eqn:B4.
  { destruct (nextAllowed (Minute s) _ 0 59) as [nextM wrapM] eqn:En.
    destruct withSeconds; [exact I |].
    destruct wrapM.
    - right. split; [reflexivity | time_arith].
    - left. destruct (nextAllowed_60 _ _ _ (HM eq_refl) Hmi En) as (Hv & Hb & _).
      apply (fieldsMatch_instant s false ts y m d); try assumption; lia. }
  destruct withSeconds.
  - destruct (bitUnset (Second s) (GoTime.secondOf ts)) eqn:B5.
    + destruct (nextAllowed (Second s) _ 0 59) as [nextS wrapS] eqn:En.
      destruct wrapS; [exact I |].
      left. destruct (nextAllowed_60 _ _ _ (HS eq_refl) Hs En) as (Hv & Hb & _).
      apply (fieldsMatch_instant s true ts y m d); try assumption; lia.
    + left. apply (bits_fieldsMatch s true ts y m d); assumption.
  - left. apply (fieldsMatch_instant s false ts y m d); try assumption; lia.
Qed.

Lemma searchLoop_sound (fuel : nat) (s : Schedule) (withSeconds : bool)
    (ts r : Time) :
  (withSeconds = false -> 0 <= Minute s < 2 ^ 60) ->
  (withSeconds = true -> 0 <= Second s < 2 ^ 60) ->
  aligned withSeconds ts -> searchLoop fuel s withSeconds ts = Some r ->
  fieldsMatch s withSeconds r = true
  \/ (withSeconds = false /\ GoTime.minuteOf r = 0).
Proof.
  intros HM HS. revert ts.
  induction fuel as [| fuel IH]; intros ts Hal; cbn [searchLoop]; [discriminate |].
  pose proof (searchStep_aligned s withSeconds ts Hal) as Ha.
  pose proof (searchStep_sound s withSeconds ts HM HS Hal) as Hs.
  destruct (searchStep s withSeconds ts) as [ts' | r'].
  - apply IH. exact Ha.
  - intros [= <-]. exact Hs.
Qed.

(** X14. At second resolution an instant that [NextFrom] returns
    satisfies every field of the schedule, for a second mask within 60
    bits (as [ParseSpec] builds it): the month, hour, minute and second
    bits are set and the day matches. *)
Theorem NextFrom_seconds_sound (fuel : nat) (s : Schedule) (t r : Time) :
  0 <= Second s < 2 ^ 60 ->
  NextFrom fuel s t true = Some r ->
  fieldsMatch s true r = true.
Proof.
  intros HS H. unfold NextFrom in H. cbv zeta in H. fold (firstCandidate t true) in H.
  destruct (searchLoop_sound fuel s true _ r ltac:(discriminate) (fun _ => HS)
              (proj1 (firstCandidate_aligned t true)) H) as [Hm | [Hw _]];
    [exact Hm | discriminate Hw].
Qed.

(** The scenario of [TestCron_Tick_SecondResolution]. *)
Lemma NextFrom_seconds_sound_witness :
  fieldsMatch fiveSecondsSchedule true (GoTime.Date 2024 6 15 12 0 5 0) = true.
Proof.
  apply (NextFrom_seconds_sound 1 fiveSecondsSchedule (GoTime.Date 2024 6 15 12 0 4 0)).
  - vm_compute. split; [discriminate | reflexivity].
  - vm_compute. reflexivity.
Defined.



(** ** Schedules that restrict the finest field only *)

Lemma openAboveMinutes_bits (s : Schedule) (u : Time) (y m d : Z) :
  openAboveMinutes s -> GoTime.dateOf u = (y, m, d) ->
  bitUnset (Month s) (m - 1) = false
  /\ dayMatches s u = true
  /\ bitUnset (Hour s) (GoTime.hourOf u) = false.
Proof.
  intros (H1 & H2 & H3 & H4) E.
  pose proof (dateOf_month_range u y m d E) as Hm.
  pose proof (hourOf_range u) as Hh.
  rewrite H1, H2. rewrite !bitUnset_ones by lia.
  rewrite dayMatches_table, H3, H4. auto.
Qed.

(** The instants on a full minute from [D] [h]:[mi] to before [h]:[mi'],
    in the same hour ([mi'] = 60 for the end of the hour). *)
Lemma same_hour (D h mi mi' : Z) (u : Time) :
  0 <= h <= 23 -> 0 <= mi <= 59 -> mi' <= 60 ->
  aligned false u ->
  instant D h mi 0 0 <= u < instant D h mi' 0 0 ->
  u = instant D h (GoTime.minuteOf u) 0 0
  /\ dayNum u = D /\ GoTime.hourOf u = h /\ mi <= GoTime.minuteOf u < mi'.
Proof.
  intros Hh Hmi Hmi' [Hn Hs]. specialize (Hs eq_refl).
  rewrite (instant_of_fields u) at 1 2 3. rewrite Hn, Hs.
  pose proof (hourOf_range u) as Hhu. pose proof (minuteOf_range u) as Hmu.
  generalize dependent (GoTime.minuteOf u). generalize dependent (GoTime.hourOf u).
  generalize (dayNum u). intros Du hu Hhu miu Hmu. unfold instant, GoTime.Second.
  intros H. assert (Du = D /\ hu = h /\ mi <= miu < mi') as (-> & -> & Hm) by lia.
  auto.
Qed.

Lemma instant_minute_lt (D h mi mi' : Z) :
  mi < mi' -> instant D h mi 0 0 < instant D h mi' 0 0.
Proof. unfold instant, GoTime.Second. lia. Qed.

(** Before the first candidate no instant after [t] is on a full second
    (on a full minute at minute resolution). *)
Lemma firstCandidate_least (t u : Time) (withSeconds : bool) :
  aligned withSeconds u -> t < u -> firstCandidate t withSeconds <= u.
Proof.
  intros [Hn Hs] Hlt.
  unfold firstCandidate, GoTime.Add, GoTime.Truncate, GoTime.nsecOf,
    GoTime.secondOf, GoTime.unix, GoTime.Minute, GoTime.Second in *.
  destruct withSeconds; cbv zeta.
  - Z.div_mod_to_equations. lia.
  - specialize (Hs eq_refl). Z.div_mod_to_equations. lia.
Qed.

Lemma fieldsMatch_aligned (s : Schedule) (withSeconds : bool) (u : Time) :
  fieldsMatch s withSeconds u = true -> aligned withSeconds u.
Proof.
  intros H. destruct (GoTime.dateOf u) as [[y m] d] eqn:E.
  destruct (fieldsMatch_bits s withSeconds u y m d E H) as (_ & _ & _ & _ & H5 & H6).
  split; [exact H6 |]. intros ->. exact H5.
Qed.

Lemma fieldsMatch_minute_unset (s : Schedule) (u : Time) :
  bitUnset (Minute s) (GoTime.minuteOf u) = true -> fieldsMatch s false u = false.
Proof.
  intros H. destruct (fieldsMatch s false u) eqn:Hm; [| reflexivity].
  destruct (GoTime.dateOf u) as [[y m] d] eqn:E.
  destruct (fieldsMatch_bits s false u y m d E Hm) as (_ & _ & _ & H4 & _).
  congruence.
Qed.



Lemma instant_second_lt (D h mi sc sc' : Z) :
  sc < sc' -> instant D h mi sc 0 < instant D h mi sc' 0.
Proof. unfold instant, GoTime.Second. lia. Qed.

(** The instants on a full second from [D] [h]:[mi]:[sc] to before
    [h]:[mi]:[sc'], in the same minute ([sc'] = 60 for its end). *)
Lemma same_minute (D h mi sc sc' : Z) (u : Time) :
  0 <= h <= 23 -> 0 <= mi <= 59 -> 0 <= sc <= 59 -> sc' <= 60 ->
  GoTime.nsecOf u = 0 ->
  instant D h mi sc 0 <= u < instant D h mi sc' 0 ->
  sc <= GoTime.secondOf u < sc'.
Proof.
  intros Hh Hmi Hsc Hsc' Hn.
  rewrite (instant_of_fields u) at 1 2. rewrite Hn.
  pose proof (hourOf_range u) as Hhu. pose proof (minuteOf_range u) as Hmu.
  pose proof (secondOf_range u) as Hsu.
  generalize dependent (GoTime.secondOf u). generalize dependent (GoTime.minuteOf u).
  generalize dependent (GoTime.hourOf u). generalize (dayNum u).
  intros Du hu Hhu miu Hmu su Hsu. unfold instant, GoTime.Second. lia.
Qed.

Lemma fieldsMatch_second_unset (s : Schedule) (u : Time) :
  bitUnset (Second s) (GoTime.secondOf u) = true -> fieldsMatch s true u = false.
Proof.
  intros H. destruct (fieldsMatch s true u) eqn:Hm; [| reflexivity].
  destruct (GoTime.dateOf u) as [[y m] d] eqn:E.
  destruct (fieldsMatch_bits s true u y m d E Hm) as (_ & _ & _ & _ & H5 & _).
  congruence.
Qed.

Lemma unset_from (mask sc : Z) (u : Time) :
  0 <= sc ->
  (forall v, sc <= v -> Z.testbit mask (v - 0) = false) ->
  sc <= GoTime.secondOf u -> bitUnset mask (GoTime.secondOf u) = true.
Proof.
  intros Hsc Hnone Hu. pose proof (secondOf_range u).
  rewrite bitUnset_testbit by lia.
  specialize (Hnone _ Hu). rewrite Z.sub_0_r in Hnone. rewrite Hnone. reflexivity.
Qed.



(** ** Months *)


Lemma leap_step (yoe : Z) :
  0 <= yoe < 400 ->
  0 <= (yoe + 1) / 4 - yoe / 4 - ((yoe + 1) / 100 - yoe / 100) <= 1.
Proof.
  intros H.
  assert (Hc : 0 <= yoe < 99 \/ yoe = 99 \/ 100 <= yoe < 199 \/ yoe = 199
               \/ 200 <= yoe < 299 \/ yoe = 299 \/ 300 <= yoe < 399 \/ yoe = 399)
    by lia.
  destruct Hc as [Hc | [-> | [Hc | [-> | [Hc | [-> | [Hc | ->]]]]]]];
    try (vm_compute; split; discriminate); Z.div_mod_to_equations; lia.
Qed.

Lemma marchYear_next (y : Z) :
  marchYear y + 365 <= marchYear (y + 1) <= marchYear y + 366.
Proof.
  unfold marchYear. cbv zeta.
  assert (Hy : (y + 1) / 400 = y / 400
               /\ (y + 1) - (y + 1) / 400 * 400 = y - y / 400 * 400 + 1
               \/ (y + 1) / 400 = y / 400 + 1 /\ y - y / 400 * 400 = 399
                  /\ (y + 1) - (y + 1) / 400 * 400 = 0).
  { Z.div_mod_to_equations. lia. }
  assert (Hyoe : 0 <= y - y / 400 * 400 < 400) by (Z.div_mod_to_equations; lia).
  set (yoe := y - y / 400 * 400) in *. set (era := y / 400) in *.
  clearbody yoe era.
  destruct Hy as [[-> ->] | (-> & -> & ->)].
  - pose proof (leap_step yoe Hyoe). lia.
  - change (399 / 4) with 99. change (399 / 100) with 3.
    change (0 / 4) with 0. change (0 / 100) with 0. lia.
Qed.

Lemma daysFromCivil_marchYear (y m d : Z) :
  GoTime.daysFromCivil y m d
  = marchYear (if m <=? 2 then y - 1 else y)
    + (153 * (if 2 <? m then m - 3 else m + 9) + 2) / 5 + d - 1 - 719468.
Proof. unfold GoTime.daysFromCivil, marchYear. cbv zeta. lia. Qed.

Ltac split_tests :=
  repeat match goal with
         | |- context [Z.leb ?a ?b] => destruct (Z.leb_spec a b); try lia
         | |- context [Z.ltb ?a ?b] => destruct (Z.ltb_spec a b); try lia
         end.

Lemma firstOfMonth_next (k : Z) :
  firstOfMonth k + 28 <= firstOfMonth (k + 1) <= firstOfMonth k + 31.
Proof.
  unfold firstOfMonth. rewrite !daysFromCivil_marchYear.
  assert (Hm : 0 <= k mod 12 < 12) by (apply Z.mod_pos_bound; lia).
  assert (Hk : k = 12 * (k / 12) + k mod 12) by (apply Z.div_mod; lia).
  set (y := k / 12) in *. set (mo := k mod 12) in *. clearbody y mo.
  assert (Hnext : (mo < 11 /\ (k + 1) / 12 = y /\ (k + 1) mod 12 = mo + 1)
                  \/ (mo = 11 /\ (k + 1) / 12 = y + 1 /\ (k + 1) mod 12 = 0)).
  { subst k. Z.div_mod_to_equations. lia. }
  pose proof (marchYear_next (y - 1)) as Hy. replace (y - 1 + 1) with y in Hy by lia.
  destruct Hnext as [(H1 & -> & ->) | (H1 & -> & ->)].
  - assert (Hc : mo = 0 \/ mo = 1 \/ mo = 2 \/ mo = 3 \/ mo = 4 \/ mo = 5 \/ mo = 6
                 \/ mo = 7 \/ mo = 8 \/ mo = 9 \/ mo = 10) by lia.
    destruct Hc as [-> | [-> | [-> | [-> | [-> | [-> | [-> | [-> | [-> | [-> | ->]]]]]]]]]];
      split_tests; Z.div_mod_to_equations; lia.
  - subst mo. replace (y + 1 - 1) with y by lia.
    split_tests; Z.div_mod_to_equations; lia.
Qed.

Lemma firstOfMonth_mono (k k' : Z) : k < k' -> firstOfMonth k < firstOfMonth k'.
Proof.
  intros H. replace k' with (k + 1 + Z.of_nat (Z.to_nat (k' - k - 1))) by lia.
  induction (Z.to_nat (k' - k - 1)) as [| n IH].
  - rewrite Z.add_0_r. pose proof (firstOfMonth_next k). lia.
  - pose proof (firstOfMonth_next (k + 1 + Z.of_nat n)).
    replace (k + 1 + Z.of_nat (S n)) with (k + 1 + Z.of_nat n + 1) by lia. lia.
Qed.

Lemma Date_firstOfMonth (y mon d h mi s ns : Z) :
  GoTime.Date y mon d h mi s ns
  = ((firstOfMonth (12 * y + (mon - 1)) + (d - 1)) * 86400 + h * 3600 + mi * 60 + s)
    * GoTime.Second + ns.
Proof.
  unfold GoTime.Date, firstOfMonth.
  replace ((12 * y + (mon - 1)) / 12) with (y + (mon - 1) / 12)
    by (Z.div_mod_to_equations; lia).
  replace ((12 * y + (mon - 1)) mod 12) with ((mon - 1) mod 12)
    by (Z.div_mod_to_equations; lia).
  reflexivity.
Qed.

(** The day of an instant lies in its month. *)
Lemma civilFromDays_month (n : Z) :
  let '(y, m, d) := GoTime.civilFromDays n in
  1 <= m <= 12
  /\ firstOfMonth (12 * y + (m - 1)) + (d - 1) = n
  /\ n < firstOfMonth (12 * y + m).
Proof.
  pose proof (civilFromDays_spec n) as Hspec.
  unfold GoTime.civilFromDays in *. cbv zeta in *.
  set (z := n + 719468) in *.
  set (era := z / 146097) in *.
  set (doe := z - era * 146097) in *.
  assert (Hdoe : 0 <= doe < 146097).
  { subst doe era. pose proof (Z.mod_pos_bound z 146097) as Hm.
    rewrite Z.mod_eq in Hm by lia. lia. }
  assert (Hn : n = era * 146097 + doe - 719468) by (subst doe z; lia).
  clearbody doe.
  set (yoe := (doe - doe / 1460 + doe / 36524 - doe / 146096) / 365) in *.
  assert (Hyoe : 0 <= yoe < 400) by (subst yoe; Z.div_mod_to_equations; lia).
  set (doy := doe - (365 * yoe + yoe / 4 - yoe / 100)) in *.
  assert (Hdoy : 0 <= doy < 366) by (subst doy yoe; Z.div_mod_to_equations; lia).
  assert (Hyear : yoe < 399 -> doe < 365 * (yoe + 1) + (yoe + 1) / 4 - (yoe + 1) / 100).
  { intros Hlt. subst yoe. Z.div_mod_to_equations. lia. }
  clearbody yoe.
  set (mp := (5 * doy + 2) / 153) in *.
  assert (Hmp : 0 <= mp < 12) by (subst mp; Z.div_mod_to_equations; lia).
  assert (Hmonth : mp < 11 -> doy < (153 * (mp + 1) + 2) / 5)
    by (intros Hlt; subst mp; Z.div_mod_to_equations; lia).
  set (d := doy - (153 * mp + 2) / 5 + 1) in *.
  set (m := if mp <? 10 then mp + 3 else mp - 9) in *.
  set (y := if m <=? 2 then yoe + era * 400 + 1 else yoe + era * 400) in *.
  destruct Hspec as (Hround & Hm & Hd).
  split; [exact Hm |].
  assert (Hk : (12 * y + (m - 1)) / 12 = y /\ (12 * y + (m - 1)) mod 12 = m - 1)
    by (Z.div_mod_to_equations; lia).
  split.
  - unfold firstOfMonth. destruct Hk as [-> ->].
    replace (m - 1 + 1) with m by lia.
    unfold GoTime.daysFromCivil in *. cbv zeta in *. lia.
  - assert (HyM : marchYear (yoe + era * 400) = n - doy + 719468).
    { unfold marchYear. cbv zeta.
      replace ((yoe + era * 400) / 400) with era by (Z.div_mod_to_equations; lia).
      replace (yoe + era * 400 - era * 400) with yoe by lia.
      subst doy. lia. }
    assert (HyM1 : marchYear (yoe + era * 400) + doy < marchYear (yoe + era * 400 + 1)).
    { destruct (Z.eq_dec yoe 399) as [-> | Hne].
      - unfold marchYear at 2. cbv zeta.
        replace ((399 + era * 400 + 1) / 400) with (era + 1)
          by (Z.div_mod_to_equations; lia).
        replace (399 + era * 400 + 1 - (era + 1) * 400) with 0 by lia.
        change (0 / 4) with 0. change (0 / 100) with 0. lia.
      - unfold marchYear at 2. cbv zeta.
        replace ((yoe + era * 400 + 1) / 400) with era
          by (Z.div_mod_to_equations; lia).
        replace (yoe + era * 400 + 1 - era * 400) with (yoe + 1) by lia.
        specialize (Hyear ltac:(lia)). subst doy. lia. }
    clear Hround Hyear Hn Hdoe Hdoy.
    unfold firstOfMonth. rewrite daysFromCivil_marchYear.
    assert (Hcase : (mp < 9 /\ m = mp + 3 /\ y = yoe + era * 400)
                    \/ (mp = 9 /\ m = 12 /\ y = yoe + era * 400)
                    \/ (mp = 10 /\ m = 1 /\ y = yoe + era * 400 + 1)
                    \/ (mp = 11 /\ m = 2 /\ y = yoe + era * 400 + 1)).
    { subst y m. split_tests. }
    clearbody y m. clear Hk.
    destruct Hcase as [(H1 & -> & ->) | [(-> & -> & ->) | [(-> & -> & ->) | (-> & -> & ->)]]].
    + replace ((12 * (yoe + era * 400) + (mp + 3)) / 12) with (yoe + era * 400)
        by (Z.div_mod_to_equations; lia).
      replace ((12 * (yoe + era * 400) + (mp + 3)) mod 12) with (mp + 3)
        by (Z.div_mod_to_equations; lia).
      split_tests. replace (mp + 3 + 1 - 3) with (mp + 1) by lia.
      specialize (Hmonth ltac:(lia)). lia.
    + replace ((12 * (yoe + era * 400) + 12) / 12) with (yoe + era * 400 + 1)
        by (Z.div_mod_to_equations; lia).
      replace ((12 * (yoe + era * 400) + 12) mod 12) with 0
        by (Z.div_mod_to_equations; lia).
      split_tests. replace (yoe + era * 400 + 1 - 1) with (yoe + era * 400) by lia.
      specialize (Hmonth ltac:(lia)). change (0 + 1 + 9) with (9 + 1). lia.
    + replace ((12 * (yoe + era * 400 + 1) + 1) / 12) with (yoe + era * 400 + 1)
        by (Z.div_mod_to_equations; lia).
      replace ((12 * (yoe + era * 400 + 1) + 1) mod 12) with 1
        by (Z.div_mod_to_equations; lia).
      split_tests. replace (yoe + era * 400 + 1 - 1) with (yoe + era * 400) by lia.
      specialize (Hmonth ltac:(lia)). change (1 + 1 + 9) with (10 + 1). lia.
    + replace ((12 * (yoe + era * 400 + 1) + 2) / 12) with (yoe + era * 400 + 1)
        by (Z.div_mod_to_equations; lia).
      replace ((12 * (yoe + era * 400 + 1) + 2) mod 12) with 2
        by (Z.div_mod_to_equations; lia).
      split_tests. change ((153 * (2 + 1 - 3) + 2) / 5) with 0. lia.
Qed.

(** ** [NextFrom] moves forward *)

Lemma nextAllowed_range (mask cur min max : Z) :
  0 <= min -> max <= MaxInt -> max - min < 64 -> min <= cur <= max ->
  0 <= mask < 2 ^ (max - min + 1) ->
  bitUnset mask (cur - min) = true ->
  let '(v, w) := nextAllowed mask cur min max in
  min <= v <= max /\ (w = false -> cur < v).
Proof.
  intros Hmin Hmax Hdom Hcur Hmask Hbit.
  destruct (Z.eq_dec mask 0) as [-> | Hne].
  - unfold nextAllowed. cbn. split; [lia | discriminate].
  - pose proof (nextAllowed_spec mask cur min max Hmin Hmax Hdom
                  ltac:(unfold MinInt; lia)) as H.
    assert (Hm' : 0 < mask < 2 ^ (max - min + 1)) by (split; [lia | apply Hmask]).
    specialize (H Hm'). cbv zeta in H.
    destruct (nextAllowed mask cur min max) as [v w].
    destruct H as (H1 & H2 & H3). split; [exact H1 |]. intros ->.
    destruct H3 as [H3 _]. replace (Z.max cur min) with cur in H3 by lia.
    destruct (Z.eq_dec v cur) as [-> | Hd]; [| lia].
    rewrite bitUnset_testbit in Hbit by lia. rewrite H2 in Hbit. discriminate.
Qed.

Lemma dayNum_instant_lt (x : Time) (D : Z) :
  x < instant D 0 0 0 0 -> dayNum x < D.
Proof.
  unfold dayNum, GoTime.unix, instant, GoTime.Second. intros H.
  Z.div_mod_to_equations. lia.
Qed.

Lemma instant_day_bounds (ts : Time) :
  instant (dayNum ts) 0 0 0 0 <= ts < instant (dayNum ts + 1) 0 0 0 0.
Proof.
  unfold dayNum, GoTime.unix, instant, GoTime.Second. Z.div_mod_to_equations. lia.
Qed.

(** The day of an instant lies in the month of its date. *)
Lemma dateOf_month (ts : Time) (y m d : Z) :
  GoTime.dateOf ts = (y, m, d) ->
  1 <= m <= 12
  /\ firstOfMonth (12 * y + (m - 1)) <= dayNum ts < firstOfMonth (12 * y + m).
Proof.
  intros E. pose proof (civilFromDays_month (dayNum ts)) as H.
  unfold GoTime.dateOf in E. fold (dayNum ts) in E. rewrite E in H.
  pose proof (civilFromDays_spec (dayNum ts)) as H'. rewrite E in H'. lia.
Qed.

Lemma firstOfMonth_le (k k' : Z) : k <= k' -> firstOfMonth k <= firstOfMonth k'.
Proof.
  intros H. destruct (Z.eq_dec k k') as [-> | Hne]; [lia |].
  pose proof (firstOfMonth_mono k k' ltac:(lia)). lia.
Qed.

(** Below the first day of a year the year is below it. *)
Lemma year_below (ts : Time) (y m d Y : Z) :
  GoTime.dateOf ts = (y, m, d) -> dayNum ts < firstOfMonth (12 * Y) -> y < Y.
Proof.
  intros E H. destruct (dateOf_month ts y m d E) as (Hm & Hlo & _).
  destruct (Z.lt_ge_cases y Y) as [Hlt | Hge]; [exact Hlt |].
  pose proof (firstOfMonth_le (12 * Y) (12 * y + (m - 1)) ltac:(lia)). lia.
Qed.

Lemma year_above (ts : Time) (y m d Y : Z) :
  GoTime.dateOf ts = (y, m, d) -> firstOfMonth (12 * Y) <= dayNum ts -> Y <= y.
Proof.
  intros E H. destruct (dateOf_month ts y m d E) as (Hm & _ & Hhi).
  destruct (Z.le_gt_cases Y y) as [Hle | Hgt]; [exact Hle |].
  pose proof (firstOfMonth_le (12 * y + m) (12 * Y) ltac:(lia)). lia.
Qed.

Lemma dayNum_mono (t u : Time) : t <= u -> dayNum t <= dayNum u.
Proof.
  unfold dayNum, GoTime.unix, GoTime.Second. intros H.
  Z.div_mod_to_equations. lia.
Qed.

Lemma Date_first (y mon : Z) :
  GoTime.Date y mon 1 0 0 0 0 = instant (firstOfMonth (12 * y + (mon - 1))) 0 0 0 0.
Proof. rewrite Date_firstOfMonth. unfold instant. f_equal. lia. Qed.

(** One pass of the loop moves the candidate forward, by less than a
    year but for a carry into the next year, and returns no instant
    before the candidate. *)
Lemma searchStep_later (s : Schedule) (withSeconds : bool) (ts : Time) (Ylo Y : Z) :
  masksInDomain s -> aligned withSeconds ts ->
  MinInt <= Ylo -> firstOfMonth (12 * Ylo) <= dayNum ts ->
  dayNum ts < firstOfMonth (12 * Y) -> Y <= MaxInt ->
  match searchStep s withSeconds ts with
  | Continue ts' => ts < ts' /\ dayNum ts' < firstOfMonth (12 * (Y + 1))
  | Return r => ts <= r
  end.
Proof.
  intros (HS & HM & HH & HMon) [Hn Hsec] HYlo HYlo' HY HYmax.
  destruct (GoTime.dateOf ts) as [[y m] d] eqn:E.
  rewrite (searchStep_instant s withSeconds ts y m d E). cbv zeta.
  destruct (dateOf_month ts y m d E) as (Hm & Hlo & Hhi).
  pose proof (year_below ts y m d Y E HY) as Hy.
  pose proof (year_above ts y m d Ylo E HYlo') as Hyl.
  pose proof (hourOf_range ts) as Hh. pose proof (minuteOf_range ts) as Hmi.
  pose proof (secondOf_range ts) as Hs. pose proof (nsecOf_range ts) as Hns.
  pose proof (instant_day_bounds ts) as Hday.
  pose proof (instant_of_fields ts) as Ets.
  assert (Hnext : firstOfMonth (12 * Y) + 1 < firstOfMonth (12 * (Y + 1))).
  { pose proof (firstOfMonth_next (12 * Y)).
    pose proof (firstOfMonth_le (12 * Y + 1) (12 * (Y + 1)) ltac:(lia)). lia. }
  set (unit := if withSeconds then GoTime.Second else GoTime.Minute) in *.
  assert (Hunit : 0 < unit <= 60000000000)
    by (unfold unit; destruct withSeconds; unfold GoTime.Minute, GoTime.Second; lia).
  clearbody unit.
  set (D := dayNum ts) in *. clearbody D.
  assert (Hbound : forall x, x < instant (D + 2) 0 0 0 0 ->
                   dayNum x < firstOfMonth (12 * (Y + 1))).
  { intros x Hx. apply dayNum_instant_lt in Hx. lia. }
  destruct (bitUnset (Month s) (m - 1)) eqn:B1.
  { pose proof (nextAllowed_range (Month s) m 1 12 ltac:(lia) ltac:(unfold MaxInt; lia)
                  ltac:(lia) Hm ltac:(change (12 - 1 + 1) with 12; exact HMon) B1) as Hna.
    destruct (nextAllowed (Month s) m 1 12) as [nextMon wrp].
    destruct Hna as [Hv Hw].
    set (y' := if wrp then wrap (y + 1) else y).
    assert (Hy' : y' = if wrp then y + 1 else y).
    { unfold y'. destruct wrp; [| reflexivity].
      apply wrap_small. unfold MinInt, MaxInt in *. lia. }
    set (k' := 12 * y' + (nextMon - 1)).
    assert (Hk1 : 12 * y + m <= k').
    { unfold k'. rewrite Hy'. destruct wrp; [lia |]. specialize (Hw eq_refl). lia. }
    assert (Hk2 : k' < 12 * (Y + 1)).
    { unfold k'. rewrite Hy'. destruct wrp; lia. }
    pose proof (firstOfMonth_le _ _ Hk1) as Hf1.
    pose proof (firstOfMonth_mono _ _ Hk2) as Hf2.
    rewrite Date_first. fold k'. unfold GoTime.Add. split.
    - unfold instant, GoTime.Second in *. lia.
    - assert (Hd : dayNum (instant (firstOfMonth k') 0 0 0 0 + unit) < firstOfMonth k' + 1).
      { apply dayNum_instant_lt. unfold instant, GoTime.Second. lia. }
      lia. }
  destruct (negb (dayMatches s ts)).
  { unfold GoTime.Add. split; [unfold instant, GoTime.Second in *; lia |].
    apply Hbound. unfold instant, GoTime.Second. lia. }
  destruct (bitUnset (Hour s) (GoTime.hourOf ts)) eqn:B3.
  { pose proof (nextAllowed_range (Hour s) (GoTime.hourOf ts) 0 23 ltac:(lia)
                  ltac:(unfold MaxInt; lia) ltac:(lia) Hh
                  ltac:(change (23 - 0 + 1) with 24; exact HH)
                  ltac:(rewrite Z.sub_0_r; exact B3)) as Hna.
    destruct (nextAllowed (Hour s) _ 0 23) as [nextH wrapH].
    destruct Hna as [Hv Hw]. unfold GoTime.Add. destruct wrapH.
    - split; [unfold instant, GoTime.Second in *; lia |].
      apply Hbound. unfold instant, GoTime.Second. lia.
    - specialize (Hw eq_refl). split.
      + unfold instant, GoTime.Second in *. lia.
      + apply Hbound. unfold instant, GoTime.Second. lia. }
  destruct (bitUnset (Minute s) (GoTime.minuteOf ts)) eqn:B4.
  { pose proof (nextAllowed_range (Minute s) (GoTime.minuteOf ts) 0 59 ltac:(lia)
                  ltac:(unfold MaxInt; lia) ltac:(lia) Hmi
                  ltac:(change (59 - 0 + 1) with 60; exact HM)
                  ltac:(rewrite Z.sub_0_r; exact B4)) as Hna.
    destruct (nextAllowed (Minute s) _ 0 59) as [nextM wrapM].
    destruct Hna as [Hv Hw].
    destruct wrapM, withSeconds;
      try specialize (Hw eq_refl);
      unfold GoTime.Add, instant, GoTime.Hour, GoTime.Minute, GoTime.Second in *;
      first [lia | split; [lia | apply Hbound; lia]]. }
  destruct withSeconds.
  - destruct (bitUnset (Second s) (GoTime.secondOf ts)) eqn:B5; [| lia].
    pose proof (nextAllowed_range (Second s) (GoTime.secondOf ts) 0 59 ltac:(lia)
                  ltac:(unfold MaxInt; lia) ltac:(lia) Hs
                  ltac:(change (59 - 0 + 1) with 60; exact HS)
                  ltac:(rewrite Z.sub_0_r; exact B5)) as Hna.
    destruct (nextAllowed (Second s) _ 0 59) as [nextS wrapS].
    destruct Hna as [Hv Hw]. destruct wrapS.
    + split.
      * unfold GoTime.Add, instant, GoTime.Minute, GoTime.Second in *. lia.
      * apply Hbound.
        unfold GoTime.Add, instant, GoTime.Minute, GoTime.Second in *. lia.
    + specialize (Hw eq_refl). rewrite Hn in Ets.
      unfold instant, GoTime.Second in *. lia.
  - rewrite Hn, (Hsec eq_refl) in Ets. unfold instant, GoTime.Second in *. lia.
Qed.

Lemma searchLoop_later (fuel : nat) (s : Schedule) (withSeconds : bool)
    (ts r : Time) (Ylo Y : Z) :
  masksInDomain s -> aligned withSeconds ts ->
  MinInt <= Ylo -> firstOfMonth (12 * Ylo) <= dayNum ts ->
  dayNum ts < firstOfMonth (12 * Y) -> Y + Z.of_nat fuel <= MaxInt ->
  searchLoop fuel s withSeconds ts = Some r -> ts <= r.
Proof.
  intros Hs. revert ts Y.
  induction fuel as [| fuel IH]; intros ts Y Hal Hlo Hlo' HY Hmax; cbn [searchLoop];
    [discriminate |].
  pose proof (searchStep_aligned s withSeconds ts Hal) as Ha.
  pose proof (searchStep_later s withSeconds ts Ylo Y Hs Hal Hlo Hlo' HY ltac:(lia)) as Hl.
  destruct (searchStep s withSeconds ts) as [ts' | r'].
  - intros H. destruct Hl as [Hlt HY'].
    pose proof (dayNum_mono ts ts' ltac:(lia)) as Hd.
    pose proof (IH ts' (Y + 1) Ha Hlo ltac:(lia) HY' ltac:(lia) H). lia.
  - intros [= <-]. exact Hl.
Qed.



(** ** Schedules that no day satisfies *)

(** February has at most 29 days. *)
Lemma civilFromDays_february (n y d : Z) :
  GoTime.civilFromDays n = (y, 2, d) -> 1 <= d <= 29.
Proof.
  unfold GoTime.civilFromDays. cbv zeta.
  set (z := n + 719468).
  set (era := z / 146097).
  set (doe := z - era * 146097).
  assert (Hdoe : 0 <= doe < 146097).
  { subst doe era. pose proof (Z.mod_pos_bound z 146097) as Hm.
    rewrite Z.mod_eq in Hm by lia. lia. }
  clearbody doe.
  set (yoe := (doe - doe / 1460 + doe / 36524 - doe / 146096) / 365).
  set (doy := doe - (365 * yoe + yoe / 4 - yoe / 100)).
  assert (Hdoy : 0 <= doy < 366) by (subst doy yoe; Z.div_mod_to_equations; lia).
  clearbody doy.
  set (mp := (5 * doy + 2) / 153).
  assert (Hmp : 153 * mp <= 5 * doy + 2 < 153 * (mp + 1))
    by (subst mp; Z.div_mod_to_equations; lia).
  clearbody mp.
  intros E. injection E as _ Em Ed.
  assert (Hmp11 : mp = 11) by (destruct (Z.ltb_spec mp 10); lia).
  rewrite Hmp11 in Ed, Hmp. change ((153 * 11 + 2) / 5) with 337 in Ed. lia.
Qed.

Lemma searchStep_noDay (s : Schedule) (withSeconds : bool) (ts : Time) :
  noDay s -> exists ts', searchStep s withSeconds ts = Continue ts'.
Proof.
  intros Hno. destruct (GoTime.dateOf ts) as [[y m] d] eqn:E.
  rewrite (searchStep_instant s withSeconds ts y m d E). cbv zeta.
  destruct (bitUnset (Month s) (m - 1)) eqn:B1.
  - destruct (nextAllowed (Month s) m 1 12) as [nextMon wrp]. eauto.
  - rewrite (Hno ts y m d E B1). cbn [negb]. eauto.
Qed.

(** X19. The search does not notice a schedule that no day satisfies:
    when no day of an allowed month matches the day fields, every pass of
    the loop of [NextFrom] goes on, so [NextFrom] never returns, at
    either resolution and from every instant.  ["0 0 30 2 *"] parses, and
    is such a schedule. *)
Theorem NextFrom_noDay (s : Schedule) :
  noDay s ->
  forall fuel t withSeconds, NextFrom fuel s t withSeconds = None.
Proof.
  intros Hno fuel t withSeconds. unfold NextFrom. cbv zeta.
  generalize (GoTime.Add
                (GoTime.Truncate t (if withSeconds then GoTime.Second else GoTime.Minute))
                (if withSeconds then GoTime.Second else GoTime.Minute)).
  induction fuel as [| fuel IH]; intros ts; cbn [searchLoop]; [reflexivity |].
  destruct (searchStep_noDay s withSeconds ts Hno) as (ts' & ->). apply IH.
Qed.

Lemma februaryThirtieth_noDay : noDay februaryThirtieth.
Proof.
  intros u y m d E Hm.
  pose proof (dateOf_month_range u y m d E) as Hr.
  cbn [Month februaryThirtieth] in Hm.
  rewrite bitUnset_testbit in Hm by lia. apply negb_false_iff in Hm.
  rewrite Z.pow2_bits_eqb in Hm by lia. apply Z.eqb_eq in Hm.
  assert (m = 2) as -> by lia.
  pose proof (civilFromDays_february _ y d E) as Hd.
  rewrite dayMatches_table. cbn [domStar dowStar Dom februaryThirtieth].
  unfold GoTime.dayOf. rewrite E. cbn [snd].
  rewrite Z.pow2_bits_eqb by lia. apply Z.eqb_neq. lia.
Qed.

(** February 30: the spec parses, and the search never returns. *)
Lemma NextFrom_noDay_witness :
  ParseSpec "0 0 30 2 *" false = Ok februaryThirtieth
  /\ forall fuel t withSeconds, NextFrom fuel februaryThirtieth t withSeconds = None.
Proof.
  split; [vm_compute; reflexivity |].
  exact (NextFrom_noDay februaryThirtieth februaryThirtieth_noDay).
Defined.

(** The masks of a schedule that [ParseSpec] returns lie within their
    domains, so the properties of [NextFrom] above hold for it. *)
Lemma wellFormed_masksInDomain (s : Schedule) : wellFormed s -> masksInDomain s.
Proof.
  intros (H1 & H2 & H3 & _ & H5 & _). unfold masksInDomain.
  repeat split; first [apply H1 | apply H2 | apply H3 | apply H5
                       | apply Z.lt_le_incl; first [apply H1 | apply H2 | apply H3 | apply H5]].
Qed.
